(** * String Analyzer API: a shallow embedding of [main.go]

    The service analyses strings (length, palindrome status, distinct
    characters, word count, SHA-256 digest, character histogram), keeps
    the analysed records in an in-memory map keyed by the digest, and
    answers filtered queries, some of them phrased in a small fixed
    fragment of English.

    Layout of this development:
    - the parts of the Go runtime and standard library that [main.go]
      calls ([int], UTF-8, [unicode], [strings], [strconv], [regexp],
      [crypto/sha256], [encoding/hex]);
    - the functions and handlers of [main.go], under their own names;
    - the properties proved of them. *)

From Stdlib Require Import ZArith String Ascii List Lia Bool.
From stdpp Require Import gmap strings list fin_maps.
Import ListNotations.

(** ** Go values *)

(** A Go [string] is an immutable sequence of bytes; Rocq's [string] is a
    list of 8-bit characters, so the two coincide.  [byte]s, [rune]s and
    [int]s are integers of [Z]. *)

Module GoInt.
Local Open Scope Z_scope.

Definition MaxInt : Z := 2 ^ 63 - 1.
Definition MinInt : Z := - 2 ^ 63.

(** Two's complement wrap-around of the 64-bit [int]. *)
Definition wrap (z : Z) : Z := (z + 2 ^ 63) mod 2 ^ 64 - 2 ^ 63.

Definition add (a b : Z) : Z := wrap (a + b).
Definition sub (a b : Z) : Z := wrap (a - b).

End GoInt.

Module Bytes.
Local Open Scope Z_scope.

Definition byte_of_ascii (a : ascii) : Z := Z.of_N (N_of_ascii a).
Definition ascii_of_byte (b : Z) : ascii := ascii_of_N (Z.to_N (b mod 256)).

(** [[]byte(s)] *)
Fixpoint of_string (s : string) : list Z :=
  match s with
  | EmptyString => []
  | String a s' => byte_of_ascii a :: of_string s'
  end.

(** [string(bs)] *)
Fixpoint to_string (bs : list Z) : string :=
  match bs with
  | [] => EmptyString
  | b :: bs' => String (ascii_of_byte b) (to_string bs')
  end.

End Bytes.

(** ** [crypto/sha256] and [encoding/hex] *)

Module Sha256.
Local Open Scope Z_scope.

Definition u32 (x : Z) : Z := x mod 2 ^ 32.

(** [bits.RotateLeft32(x, -k)] *)
Definition rotr (k x : Z) : Z :=
  Z.lor (Z.shiftr x k) (u32 (Z.shiftl x (32 - k))).

Definition not32 (x : Z) : Z := Z.lxor x (2 ^ 32 - 1).

(** The round constants [_K]: the first thirty-two bits of the
    fractional parts of the cube roots of the first sixty-four primes.
    [cubeRoot k n acc] settles the [k] low bits of the integer cube root
    of [n], the higher ones being those of [acc]. *)
Fixpoint cubeRoot (k : nat) (n acc : Z) : Z :=
  match k with
  | O => acc
  | S k' =>
      let c := acc + 2 ^ Z.of_nat k' in
      if c * c * c <=? n then cubeRoot k' n c else cubeRoot k' n acc
  end.

Definition primes : list Z :=
  [2; 3; 5; 7; 11; 13; 17; 19; 23; 29; 31; 37; 41; 43; 47; 53;
   59; 61; 67; 71; 73; 79; 83; 89; 97; 101; 103; 107; 109; 113; 127; 131;
   137; 139; 149; 151; 157; 163; 167; 173; 179; 181; 191; 193; 197; 199; 211; 223;
   227; 229; 233; 239; 241; 251; 257; 263; 269; 271; 277; 281; 283; 293; 307; 311].

Definition _K : list Z :=
  Eval vm_compute in map (fun p => u32 (cubeRoot 40 (p * 2 ^ 96) 0)) primes.

(** The eight chaining words [h0 .. h7] of a [digest]. *)
Record digest : Type := Digest {
  h0 : Z; h1 : Z; h2 : Z; h3 : Z; h4 : Z; h5 : Z; h6 : Z; h7 : Z
}.

Definition init : digest :=
  Digest 0x6a09e667 0xbb67ae85 0x3c6ef372 0xa54ff53a
         0x510e527f 0x9b05688c 0x1f83d9ab 0x5be0cd19.

(** [w[i] = p[j]<<24 | p[j+1]<<16 | p[j+2]<<8 | p[j+3]] for the first
    sixteen words of a 64-byte chunk. *)
Fixpoint be_words (n : nat) (p : list Z) : list Z :=
  match n, p with
  | S n', b0 :: b1 :: b2 :: b3 :: p' =>
      Z.lor (Z.lor (Z.lor (Z.shiftl b0 24) (Z.shiftl b1 16)) (Z.shiftl b2 8)) b3
        :: be_words n' p'
  | _, _ => []
  end.

(** The message schedule, kept newest word first: with [w] holding
    [w[i-1], w[i-2], ...], the next word is
    [t1 + w[i-7] + t2 + w[i-16]]. *)
Definition schedule_step (w : list Z) : list Z :=
  let v1 := nth 1 w 0 in
  let t1 := Z.lxor (Z.lxor (rotr 17 v1) (rotr 19 v1)) (Z.shiftr v1 10) in
  let v2 := nth 14 w 0 in
  let t2 := Z.lxor (Z.lxor (rotr 7 v2) (rotr 18 v2)) (Z.shiftr v2 3) in
  u32 (t1 + nth 6 w 0 + t2 + nth 15 w 0) :: w.

Definition schedule (chunk : list Z) : list Z :=
  rev (Nat.iter 48 schedule_step (rev (be_words 16 chunk))).

(** One of the sixty-four rounds on the working variables [a .. h]. *)
Definition round (v : digest) (kw : Z * Z) : digest :=
  let '(Digest a b c d e f g h) := v in
  let t1 := u32 (h + Z.lxor (Z.lxor (rotr 6 e) (rotr 11 e)) (rotr 25 e)
                   + Z.lxor (Z.land e f) (Z.land (not32 e) g)
                   + fst kw + snd kw) in
  let t2 := u32 (Z.lxor (Z.lxor (rotr 2 a) (rotr 13 a)) (rotr 22 a)
                 + Z.lxor (Z.lxor (Z.land a b) (Z.land a c)) (Z.land b c)) in
  Digest (u32 (t1 + t2)) a b c (u32 (d + t1)) e f g.

Definition block (dig : digest) (chunk : list Z) : digest :=
  let v := fold_left round (combine _K (schedule chunk)) dig in
  Digest (u32 (h0 dig + h0 v)) (u32 (h1 dig + h1 v))
         (u32 (h2 dig + h2 v)) (u32 (h3 dig + h3 v))
         (u32 (h4 dig + h4 v)) (u32 (h5 dig + h5 v))
         (u32 (h6 dig + h6 v)) (u32 (h7 dig + h7 v)).

(** [blockGeneric]: consume [n] chunks of 64 bytes. *)
Fixpoint blocks (n : nat) (dig : digest) (p : list Z) : digest :=
  match n with
  | O => dig
  | S n' => blocks n' (block dig (firstn 64 p)) (skipn 64 p)
  end.

(** Big-endian bytes of a word: [n] bytes, most significant first. *)
Fixpoint be_bytes (n : nat) (x : Z) : list Z :=
  match n with
  | O => []
  | S n' => (Z.shiftr x (8 * Z.of_nat n')) mod 256 :: be_bytes n' x
  end.

(** [checkSum]: a [0x80] byte, zeroes up to 56 modulo 64, then the
    length in bits as eight big-endian bytes. *)
Definition padding (len : Z) : list Z :=
  let t := if len mod 64 <? 56 then 56 - len mod 64 else 64 + 56 - len mod 64 in
  0x80 :: repeat 0 (Z.to_nat (t - 1)) ++ be_bytes 8 (Z.shiftl len 3).

Definition digest_bytes (d : digest) : list Z :=
  be_bytes 4 (h0 d) ++ be_bytes 4 (h1 d) ++ be_bytes 4 (h2 d) ++ be_bytes 4 (h3 d)
  ++ be_bytes 4 (h4 d) ++ be_bytes 4 (h5 d) ++ be_bytes 4 (h6 d) ++ be_bytes 4 (h7 d).

(** [h := sha256.New(); h.Write(p); h.Sum(nil)] *)
Definition Sum (p : list Z) : list Z :=
  let m := p ++ padding (Z.of_nat (length p)) in
  digest_bytes (blocks (length m / 64)%nat init m).

End Sha256.

Module Hex.
Local Open Scope Z_scope.

Definition hextable : list ascii :=
  list_ascii_of_string "0123456789abcdef".

Definition digit (n : Z) : ascii := nth (Z.to_nat n) hextable "0"%char.

(** [hex.EncodeToString]: [hextable[v>>4]], [hextable[v&0x0f]] per byte. *)
Fixpoint EncodeToString (src : list Z) : string :=
  match src with
  | [] => EmptyString
  | v :: src' =>
      String (digit (Z.shiftr v 4)) (String (digit (Z.land v 0x0f)) (EncodeToString src'))
  end.

End Hex.

(** ** [unicode/utf8] *)

Module Utf8.
Local Open Scope Z_scope.

Definition RuneError : Z := 0xFFFD.
Definition RuneSelf : Z := 0x80.
Definition MaxRune : Z := 0x10FFFF.

(** A Unicode scalar value: in range and not a surrogate half. *)
Definition ValidRune (r : Z) : bool :=
  (0 <=? r) && (r <=? MaxRune) && negb ((0xD800 <=? r) && (r <=? 0xDFFF)).

Definition cont (b : Z) : bool := (0x80 <=? b) && (b <=? 0xBF).

(** Lead byte of a two-byte sequence. *)
Definition lead2 (b0 : Z) : bool := (0xC2 <=? b0) && (b0 <=? 0xDF).

(** Lead byte and first continuation byte of a three-byte sequence
    (the accept ranges exclude over-long forms and surrogates). *)
Definition lead3 (b0 b1 : Z) : bool :=
  ((b0 =? 0xE0) && (0xA0 <=? b1) && (b1 <=? 0xBF))
  || ((0xE1 <=? b0) && (b0 <=? 0xEC) && cont b1)
  || ((b0 =? 0xED) && (0x80 <=? b1) && (b1 <=? 0x9F))
  || ((0xEE <=? b0) && (b0 <=? 0xEF) && cont b1).

(** Lead byte and first continuation byte of a four-byte sequence. *)
Definition lead4 (b0 b1 : Z) : bool :=
  ((b0 =? 0xF0) && (0x90 <=? b1) && (b1 <=? 0xBF))
  || ((0xF1 <=? b0) && (b0 <=? 0xF3) && cont b1)
  || ((b0 =? 0xF4) && (0x80 <=? b1) && (b1 <=? 0x8F)).

(** [utf8.DecodeRune]: the first rune of [p] and its width in bytes; an
    invalid or truncated encoding yields [(RuneError, 1)], the empty
    input [(RuneError, 0)]. *)
Definition DecodeRune (p : list Z) : Z * nat :=
  match p with
  | [] => (RuneError, 0%nat)
  | b0 :: p1 =>
      if b0 <? RuneSelf then (b0, 1%nat)
      else
        match p1 with
        | [] => (RuneError, 1%nat)
        | b1 :: p2 =>
            if lead2 b0 && cont b1
            then ((b0 - 0xC0) * 64 + (b1 - 0x80), 2%nat)
            else
              match p2 with
              | [] => (RuneError, 1%nat)
              | b2 :: p3 =>
                  if lead3 b0 b1 && cont b2
                  then ((b0 - 0xE0) * 4096 + (b1 - 0x80) * 64 + (b2 - 0x80), 3%nat)
                  else
                    match p3 with
                    | [] => (RuneError, 1%nat)
                    | b3 :: _ =>
                        if lead4 b0 b1 && cont b2 && cont b3
                        then ((b0 - 0xF0) * 262144 + (b1 - 0x80) * 4096
                              + (b2 - 0x80) * 64 + (b3 - 0x80), 4%nat)
                        else (RuneError, 1%nat)
                    end
              end
        end
  end.

(** The runes of a byte sequence with their widths, as [for i, r := range s]
    and [[]rune(s)] produce them: decode, advance by the width, repeat. *)
Fixpoint decode (p : list Z) : list (Z * nat) :=
  match p with
  | [] => []
  | _ :: p1 =>
      let rn := DecodeRune p in
      rn :: match snd rn, p1 with
            | 2%nat, _ :: p2 => decode p2
            | 3%nat, _ :: _ :: p3 => decode p3
            | 4%nat, _ :: _ :: _ :: p4 => decode p4
            | _, _ => decode p1
            end
  end.

(** [utf8.AppendRune]: the encoding of [r]; runes out of range and
    surrogate halves are written as [RuneError]. *)
Definition EncodeRune (r : Z) : list Z :=
  if (0 <=? r) && (r <=? 0x7F) then [r]
  else if (0 <=? r) && (r <=? 0x7FF) then [0xC0 + r / 64; 0x80 + r mod 64]
  else if negb (ValidRune r) then [0xEF; 0xBF; 0xBD]
  else if r <=? 0xFFFF then
    [0xE0 + r / 4096; 0x80 + (r / 64) mod 64; 0x80 + r mod 64]
  else
    [0xF0 + r / 262144; 0x80 + (r / 4096) mod 64; 0x80 + (r / 64) mod 64;
     0x80 + r mod 64].

End Utf8.

(** [[]rune(s)] *)
Definition runes (s : string) : list Z :=
  map fst (Utf8.decode (Bytes.of_string s)).

(** ** [unicode] *)

(** The range tables of the [unicode] package beyond Latin-1 (letters,
    numbers) and beyond ASCII (case mapping) are data of the Go
    distribution, not of this repository; the development is parametric
    in them. *)
Class UnicodeTables : Type := {
  (** [isExcludingLatin(Letter, r)] *)
  letterTable : Z -> bool;
  (** [isExcludingLatin(Number, r)] *)
  numberTable : Z -> bool;
  (** [To(LowerCase, r)] *)
  lowerTable : Z -> Z
}.

Module Unicode.
Local Open Scope Z_scope.

Definition MaxASCII : Z := 0x7F.
Definition MaxLatin1 : Z := 0xFF.

Definition between (lo hi r : Z) : bool := (lo <=? r) && (r <=? hi).

(** [properties[uint8(r)] & pLmask != 0] *)
Definition latin1Letter (r : Z) : bool :=
  between 0x41 0x5A r || between 0x61 0x7A r
  || (r =? 0xAA) || (r =? 0xB5) || (r =? 0xBA)
  || between 0xC0 0xD6 r || between 0xD8 0xF6 r || between 0xF8 0xFF r.

(** [properties[uint8(r)] & pN != 0] *)
Definition latin1Number (r : Z) : bool :=
  between 0x30 0x39 r
  || (r =? 0xB2) || (r =? 0xB3) || (r =? 0xB9) || between 0xBC 0xBE r.

Definition IsLetter `{UnicodeTables} (r : Z) : bool :=
  if between 0 MaxLatin1 r then latin1Letter r else letterTable r.

Definition IsNumber `{UnicodeTables} (r : Z) : bool :=
  if between 0 MaxLatin1 r then latin1Number r else numberTable r.

Definition ToLower `{UnicodeTables} (r : Z) : Z :=
  if r <=? MaxASCII then
    (if between 0x41 0x5A r then r + (0x61 - 0x41) else r)
  else lowerTable r.

(** [unicode.IsSpace]: the [White_Space] property. *)
Definition IsSpace (r : Z) : bool :=
  between 0x09 0x0D r || (r =? 0x20) || (r =? 0x85) || (r =? 0xA0)
  || (r =? 0x1680) || between 0x2000 0x200A r
  || between 0x2028 0x2029 r || (r =? 0x202F) || (r =? 0x205F)
  || (r =? 0x3000).

End Unicode.

(** ** [strings] *)

Module Strings.
Local Open Scope Z_scope.

(** [strings.HasPrefix(s, prefix)] *)
Fixpoint HasPrefix (s prefix : string) : bool :=
  match prefix, s with
  | EmptyString, _ => true
  | String a prefix', String b s' => Ascii.eqb a b && HasPrefix s' prefix'
  | String _ _, EmptyString => false
  end.

(** [strings.Contains(s, substr)] *)
Fixpoint Contains (s substr : string) : bool :=
  HasPrefix s substr
  || match s with
     | EmptyString => false
     | String _ s' => Contains s' substr
     end.

(** [strings.Map(mapping, s)]: every rune of [s] (an invalid byte reads
    as [RuneError]) is replaced by its image, written in UTF-8; a
    negative image is dropped. *)
Definition Map (mapping : Z -> Z) (s : string) : string :=
  Bytes.to_string
    (flat_map (fun c => let r := mapping c in
                        if 0 <=? r then Utf8.EncodeRune r else [])
              (runes s)).

Definition isUpperByte (c : Z) : bool := (0x41 <=? c) && (c <=? 0x5A).

(** [strings.ToLower]: ASCII-only strings are lowered byte by byte (and
    returned as they are when they hold no upper-case letter); any other
    string goes through [Map(unicode.ToLower, s)]. *)
Definition ToLower `{UnicodeTables} (s : string) : string :=
  let p := Bytes.of_string s in
  if forallb (fun c => c <? Utf8.RuneSelf) p then
    if negb (existsb isUpperByte p) then s
    else Bytes.to_string
           (map (fun c => if isUpperByte c then c + (0x61 - 0x41) else c) p)
  else Map Unicode.ToLower s.

(** The runes of [p], each with the bytes that encode it. *)
Fixpoint chunks (ws : list (Z * nat)) (p : list Z) : list (Z * list Z) :=
  match ws with
  | [] => []
  | (r, n) :: ws' => (r, firstn n p) :: chunks ws' (skipn n p)
  end.

Fixpoint dropSpace (cs : list (Z * list Z)) : list (Z * list Z) :=
  match cs with
  | c :: cs' => if Unicode.IsSpace (fst c) then dropSpace cs' else cs
  | [] => []
  end.

(** [strings.TrimSpace]: [s] without its leading and trailing white
    space, as Unicode defines it. *)
Definition TrimSpace (s : string) : string :=
  let p := Bytes.of_string s in
  let cs := chunks (Utf8.decode p) p in
  Bytes.to_string (flat_map snd (rev (dropSpace (rev (dropSpace cs))))).

End Strings.

(** ** [strconv] *)

Module Strconv.
Local Open Scope Z_scope.

(** [strconv.ParseBool] *)
Definition ParseBool (str : string) : option bool :=
  if existsb (String.eqb str) ["1"; "t"; "T"; "true"; "TRUE"; "True"]%string
  then Some true
  else if existsb (String.eqb str) ["0"; "f"; "F"; "false"; "FALSE"; "False"]%string
  then Some false
  else None.

Definition isDigit (a : ascii) : bool :=
  let c := Bytes.byte_of_ascii a in (0x30 <=? c) && (c <=? 0x39).

(** The value of a run of decimal digits, most significant first;
    [None] at the first character that is no digit. *)
Fixpoint digits (acc : Z) (s : string) : option Z :=
  match s with
  | EmptyString => Some acc
  | String a s' =>
      if isDigit a then digits (acc * 10 + (Bytes.byte_of_ascii a - 0x30)) s'
      else None
  end.

(** [strconv.Atoi]: an optional sign and at least one decimal digit;
    [None] stands for a syntax error or a value outside the 64-bit
    [int]. *)
Definition Atoi (s : string) : option Z :=
  let '(neg, body) :=
    match s with
    | String "-"%char s' => (true, s')
    | String "+"%char s' => (false, s')
    | _ => (false, s)
    end in
  match body with
  | EmptyString => None
  | _ =>
      match digits 0 body with
      | Some n =>
          let v := if neg then - n else n in
          if (GoInt.MinInt <=? v) && (v <=? GoInt.MaxInt) then Some v else None
      | None => None
      end
  end.

End Strconv.

(** ** [regexp] *)

(** The patterns of [main.go] are built from literals, character
    classes, [x+] on a class, [x?], alternation and capturing groups.
    [regexp] finds the leftmost match and, among the matches starting
    there, the one a backtracking search tries first; [matches] lists
    the matches at the start of a string in that order. *)

Module Regexp.

Inductive regex : Type :=
| Lit (l : string)
| Class (c : ascii -> bool)
| Plus (c : ascii -> bool)
| Opt (r : regex)
| Alt (r1 r2 : regex)
| Seq (r1 r2 : regex)
| Group (r : regex).

Record submatch : Type := Submatch {
  consumed : string;
  rest : string;
  groups : list string
}.

(** The rest of [s] after the literal [l], when [s] starts with it. *)
Fixpoint strip (l s : string) : option string :=
  match l, s with
  | EmptyString, _ => Some s
  | String a l', String b s' => if Ascii.eqb a b then strip l' s' else None
  | String _ _, EmptyString => None
  end.

(** The ways to read one or more characters of class [c] off the front
    of [s], longest first ([+] is greedy). *)
Fixpoint greedy (c : ascii -> bool) (s : string) : list (string * string) :=
  match s with
  | EmptyString => []
  | String a s' =>
      if c a
      then map (fun ut => (String a (fst ut), snd ut)) (greedy c s')
           ++ [(String a EmptyString, s')]
      else []
  end.

Fixpoint matches (r : regex) (s : string) : list submatch :=
  match r with
  | Lit l =>
      match strip l s with
      | Some t => [Submatch l t []]
      | None => []
      end
  | Class c =>
      match s with
      | String a t => if c a then [Submatch (String a EmptyString) t []] else []
      | EmptyString => []
      end
  | Plus c => map (fun ut => Submatch (fst ut) (snd ut) []) (greedy c s)
  | Opt r1 => matches r1 s ++ [Submatch EmptyString s []]
  | Alt r1 r2 => matches r1 s ++ matches r2 s
  | Seq r1 r2 =>
      flat_map
        (fun m1 =>
           map (fun m2 => Submatch (consumed m1 +:+ consumed m2) (rest m2)
                                   (groups m1 ++ groups m2))
               (matches r2 (rest m1)))
        (matches r1 s)
  | Group r1 =>
      map (fun m => Submatch (consumed m) (rest m) (consumed m :: groups m))
          (matches r1 s)
  end.

(** [re.FindStringSubmatch(s)]: the text of the leftmost match followed
    by the text of its groups; [nil] when nothing matches. *)
Fixpoint FindStringSubmatch (re : regex) (s : string) : list string :=
  match matches re s with
  | m :: _ => consumed m :: groups m
  | [] =>
      match s with
      | EmptyString => []
      | String _ s' => FindStringSubmatch re s'
      end
  end.

(** [re.Split(s, -1)] for a pattern that matches no empty text: the
    pieces of [s] between successive matches.  [skip] counts the
    characters of the current match still to pass, [piece] is the text
    since the last match. *)
Fixpoint splitFrom (re : regex) (skip : nat) (piece s : string) : list string :=
  match s with
  | EmptyString => [piece]
  | String a s' =>
      match skip with
      | S k => splitFrom re k piece s'
      | O =>
          match matches re s with
          | m :: _ => piece :: splitFrom re (String.length (consumed m) - 1) EmptyString s'
          | [] => splitFrom re O (piece +:+ String a EmptyString) s'
          end
      end
  end.

Definition Split (re : regex) (s : string) : list string :=
  splitFrom re O EmptyString s.

(** Character classes. *)
Definition digit (a : ascii) : bool := Strconv.isDigit a.
Definition lower (a : ascii) : bool :=
  let c := Bytes.byte_of_ascii a in ((0x61 <=? c) && (c <=? 0x7A))%Z.
(** [\s] is [[\t\n\f\r ]]. *)
Definition space (a : ascii) : bool :=
  let c := Bytes.byte_of_ascii a in
  ((c =? 0x09) || (c =? 0x0A) || (c =? 0x0C) || (c =? 0x0D) || (c =? 0x20))%Z.

(** [a|b|...] over literals. *)
Fixpoint alts (l : string) (ls : list string) : regex :=
  match ls with
  | [] => Lit l
  | l' :: ls' => Alt (Lit l) (alts l' ls')
  end.

End Regexp.

(** [generateSHA256Hash] computes the SHA-256 hash of a string. *)
Definition generateSHA256Hash (s : string) : string :=
  Hex.EncodeToString (Sha256.Sum (Bytes.of_string s)).

(** ** [main.go] *)

(** *** Data *)

(** [interface{}] values stored in the filter maps. *)
Inductive value : Type :=
| VBool (b : bool)
| VInt (n : Z)
| VString (s : string).

(** [StringProperties] holds the computed properties of a string. *)
Record StringProperties : Type := {
  Length : Z;
  IsPalindrome : bool;
  UniqueCharacters : Z;
  WordCount : Z;
  SHA256Hash : string;
  CharacterFrequencyMap : gmap Z Z
}.

(** [AnalyzedString] represents a stored string with its properties;
    [CreatedAt] is the reading of the clock, [time.Now().UTC()]. *)
Record AnalyzedString : Type := {
  ID : string;
  Value : string;
  Properties : StringProperties;
  CreatedAt : Z
}.

(** What a handler writes with [c.JSON] or [c.Status]. *)
Inductive body : Type :=
| JError (msg : string)
| JAnalyzed (a : AnalyzedString)
| JFiltered (data : list AnalyzedString) (count : Z) (filters_applied : gmap string value)
| JNone.

Record response : Type := Response { status : Z; payload : body }.

Definition StatusOK : Z := 200.
Definition StatusCreated : Z := 201.
Definition StatusNoContent : Z := 204.
Definition StatusBadRequest : Z := 400.
Definition StatusNotFound : Z := 404.
Definition StatusConflict : Z := 409.
Definition StatusUnprocessableEntity : Z := 422.

(** The body of [POST /strings] as [c.ShouldBindJSON(&req)] sees it. *)
Inductive jsonBody : Type :=
| JsonValue (v : string)
| JsonNoValue
| JsonWrongType
| JsonMalformed (err : string).

(** Early exit: [Err] carries what a [return] in the middle of a
    function returns. *)
Inductive result (A E : Type) : Type :=
| Ok (a : A)
| Err (e : E).
Arguments Ok {A E} a.
Arguments Err {A E} e.

Definition bind {A B E : Type} (m : result A E) (k : A -> result B E) : result B E :=
  match m with
  | Ok a => k a
  | Err e => Err e
  end.

Notation "x <~ m ; k" := (bind m (fun x => k))
  (at level 20, m at level 100, k at level 200, only parsing).

(** The errors [ParseNaturalLanguageQuery] returns, and their texts. *)
Inductive parseError : Type :=
| UnsupportedWordCount (w : string)
| ConflictingLengthFilters
| ConflictingMinMax
| UnparseableQuery.

Definition Error (e : parseError) : string :=
  match e with
  | UnsupportedWordCount w => "unsupported word count '" +:+ w +:+ "'"
  | ConflictingLengthFilters => "conflicting length filters detected"
  | ConflictingMinMax =>
      "query resulted in conflicting length filters (min_length > max_length)"
  | UnparseableQuery => "unable to parse natural language query into filters"
  end.

(** [v.(int)], [v.(bool)] on the result of a map lookup. *)
Definition asInt (v : option value) : option Z :=
  match v with
  | Some (VInt n) => Some n
  | _ => None
  end.

(** *** Patterns *)

Definition reSpaces : Regexp.regex := Regexp.Plus Regexp.space.

Definition numberWords : list string :=
  ["one"; "two"; "three"; "four"; "five"; "six"; "seven"; "eight"; "nine"; "ten"]%string.

(** [(single|one|two|three|four|five|six|seven|eight|nine|ten) word] *)
Definition reWordCount : Regexp.regex :=
  Regexp.Seq (Regexp.Group (Regexp.alts "single" numberWords)) (Regexp.Lit " word").

(** [(\d+) words?] *)
Definition reWordCountNum : Regexp.regex :=
  Regexp.Seq (Regexp.Seq (Regexp.Group (Regexp.Plus Regexp.digit)) (Regexp.Lit " word"))
             (Regexp.Opt (Regexp.Lit "s")).

(** [longer than (\d+)] *)
Definition reLongerThan : Regexp.regex :=
  Regexp.Seq (Regexp.Lit "longer than ") (Regexp.Group (Regexp.Plus Regexp.digit)).

(** [shorter than (\d+)] *)
Definition reShorterThan : Regexp.regex :=
  Regexp.Seq (Regexp.Lit "shorter than ") (Regexp.Group (Regexp.Plus Regexp.digit)).

(** [exactly (\d+)] *)
Definition reExactlyLength : Regexp.regex :=
  Regexp.Seq (Regexp.Lit "exactly ") (Regexp.Group (Regexp.Plus Regexp.digit)).

(** [contains the letter ([a-z])] *)
Definition reContainsChar : Regexp.regex :=
  Regexp.Seq (Regexp.Lit "contains the letter ") (Regexp.Group (Regexp.Class Regexp.lower)).

(** [stringStore], the map every handler reads or writes under [mu]. *)
Abbreviation store := (gmap string AnalyzedString).

(** The query parameters of a request; [c.Query(key)] is [""] for a
    parameter the request does not carry. *)
Abbreviation queryParams := (gmap string string).

Definition Query (c : queryParams) (key : string) : string :=
  default ""%string (c !! key).

Section Program.
Context `{UnicodeTables}.
Local Open Scope Z_scope.

(** *** The analyzer *)

(** [calculateLength] returns the number of characters in a string.
    (A Go string is shorter than [2^63] bytes, so neither this count nor
    the counters below can wrap.) *)
Definition calculateLength (s : string) : Z := Z.of_nat (length (runes s)).

(** The mirror loop of [isPalindrome]:
    [for i, j := 0, len-1; i < j; i, j = i+1, j-1]. *)
Fixpoint mirrorLoop (fuel : nat) (filteredRunes : list Z) (i j : Z) : bool :=
  match fuel with
  | O => true
  | S fuel' =>
      if i <? j then
        if negb (nth (Z.to_nat i) filteredRunes 0 =? nth (Z.to_nat j) filteredRunes 0)
        then false
        else mirrorLoop fuel' filteredRunes (i + 1) (j - 1)
      else true
  end.

(** The letters and numbers of [strings.ToLower(s)], in order. *)
Definition filteredRunes (s : string) : list Z :=
  List.filter (fun r => Unicode.IsLetter r || Unicode.IsNumber r)
              (runes (Strings.ToLower s)).

(** [isPalindrome] checks if a string is a palindrome (case-insensitive,
    ignoring non-alphanumeric characters). *)
Definition isPalindrome (s : string) : bool :=
  let f := filteredRunes s in
  mirrorLoop (length f) f 0 (Z.of_nat (length f) - 1).

(** [countUniqueCharacters] returns the count of distinct characters. *)
Definition countUniqueCharacters (s : string) : Z :=
  let seen : gmap Z bool :=
    fold_left (fun seen char => <[char := true]> seen) (runes s) ∅ in
  Z.of_nat (size seen).

(** [countWords] returns the number of words separated by whitespace. *)
Definition countWords (s : string) : Z :=
  if String.eqb s "" then 0
  else
    let words := Regexp.Split reSpaces (Strings.TrimSpace s) in
    fold_left (fun count word => if negb (String.eqb word "") then count + 1 else count)
              words 0.

(** [getCharacterFrequencyMap] returns a map of character counts;
    [freqMap[char]++] reads an absent key as [0]. *)
Definition getCharacterFrequencyMap (s : string) : gmap Z Z :=
  fold_left (fun freqMap char => <[char := default 0 (freqMap !! char) + 1]> freqMap)
            (runes s) ∅.

(** [analyzeString] computes all properties for a given string. *)
Definition analyzeString (value : string) : StringProperties :=
  let hash := generateSHA256Hash value in
  {| Length := calculateLength value;
     IsPalindrome := isPalindrome value;
     UniqueCharacters := countUniqueCharacters value;
     WordCount := countWords value;
     SHA256Hash := hash;
     CharacterFrequencyMap := getCharacterFrequencyMap value |}.

(** *** The store and its handlers *)

Definition badRequest (msg : string) : response :=
  Response StatusBadRequest (JError msg).

(** [c.ShouldBindJSON(&req)] with [binding:"required"] on [Value]: the
    empty string fails the [required] tag like an absent field. *)
Definition ShouldBindJSON (b : jsonBody) : result string response :=
  match b with
  | JsonValue v =>
      if String.eqb v "" then Err (badRequest "Missing required field: 'value'")
      else Ok v
  | JsonNoValue => Err (badRequest "Missing required field: 'value'")
  | JsonWrongType =>
      Err (Response StatusUnprocessableEntity
                    (JError "Invalid data type for 'value' field, expected string"))
  | JsonMalformed err => Err (badRequest err)
  end.

(** The record [CreateStringHandler] builds between its two critical
    sections. *)
Definition newAnalyzedString (value : string) (now : Z) : AnalyzedString :=
  let properties := analyzeString value in
  {| ID := SHA256Hash properties;
     Value := value;
     Properties := properties;
     CreatedAt := now |}.

(** [CreateStringHandler] handles [POST /strings], run with nothing else
    touching the store between its read-locked check and its
    write-locked insertion. *)
Definition CreateStringHandler (b : jsonBody) (now : Z) (stringStore : store)
  : store * response :=
  match ShouldBindJSON b with
  | Err r => (stringStore, r)
  | Ok value =>
      let existingHash := generateSHA256Hash value in
      match stringStore !! existingHash with
      | Some _ =>
          (stringStore,
           Response StatusConflict (JError "String already exists in the system"))
      | None =>
          let new := newAnalyzedString value now in
          (<[ID new := new]> stringStore, Response StatusCreated (JAnalyzed new))
      end
  end.

(** [GetSpecificStringHandler] handles [GET /strings/{string_value}]. *)
Definition GetSpecificStringHandler (stringValue : string) (stringStore : store)
  : response :=
  match stringStore !! stringValue with
  | Some analyzedStr => Response StatusOK (JAnalyzed analyzedStr)
  | None =>
      let hashedValue := generateSHA256Hash stringValue in
      match stringStore !! hashedValue with
      | Some analyzedStr => Response StatusOK (JAnalyzed analyzedStr)
      | None => Response StatusNotFound (JError "String not found in the system")
      end
  end.

(** [DeleteStringHandler] handles [DELETE /strings/{string_value}]. *)
Definition DeleteStringHandler (stringValue : string) (stringStore : store)
  : store * response :=
  match stringStore !! stringValue with
  | Some _ => (delete stringValue stringStore, Response StatusNoContent JNone)
  | None =>
      let hashedValue := generateSHA256Hash stringValue in
      match stringStore !! hashedValue with
      | Some _ => (delete hashedValue stringStore, Response StatusNoContent JNone)
      | None =>
          (stringStore,
           Response StatusNotFound (JError "String not found in the system"))
      end
  end.

(** *** Explicit filters *)

(** What the loop of [GetFilteredStringsHandler] carries from one
    record to the next. *)
Record filterState : Type := FilterState {
  filters : gmap string value;
  filteredStrings : list AnalyzedString
}.

(** [strconv.Atoi(param)] with [err != nil || val < 0] rejected. *)
Definition nonNegative (param : string) : option Z :=
  match Strconv.Atoi param with
  | Some val => if val <? 0 then None else Some val
  | None => None
  end.

(** The [contains_character] search:
    [for c := range str.Properties.CharacterFrequencyMap]. *)
Definition hasCharacter (str : AnalyzedString) (charToFind : Z) : bool :=
  existsb (fun kv => fst kv =? charToFind)
          (map_to_list (CharacterFrequencyMap (Properties str))).

(** One iteration of the loop: the five filters in order, each reading
    its parameter, rejecting a bad value with [400] and a [return],
    recording the filter and testing [str]. *)
Definition filterRecord (c : queryParams) (str : AnalyzedString) (filters : gmap string value)
  : result (gmap string value * bool) response :=
  let match_ := true in
  (* is_palindrome filter *)
  fm <~ (let param := Query c "is_palindrome" in
         if negb (String.eqb param "") then
           match Strconv.ParseBool param with
           | None =>
               Err (badRequest
                 "Invalid value for 'is_palindrome', must be boolean (true/false)")
           | Some val =>
               Ok (<["is_palindrome"%string := VBool val]> filters,
                   if negb (Bool.eqb (IsPalindrome (Properties str)) val)
                   then false else match_)
           end
         else Ok (filters, match_));
  let '(filters, match_) := fm in
  (* min_length filter *)
  fm <~ (let param := Query c "min_length" in
         if negb (String.eqb param "") then
           match nonNegative param with
           | None =>
               Err (badRequest
                 "Invalid value for 'min_length', must be a non-negative integer")
           | Some val =>
               Ok (<["min_length"%string := VInt val]> filters,
                   if Length (Properties str) <? val then false else match_)
           end
         else Ok (filters, match_));
  let '(filters, match_) := fm in
  (* max_length filter *)
  fm <~ (let param := Query c "max_length" in
         if negb (String.eqb param "") then
           match nonNegative param with
           | None =>
               Err (badRequest
                 "Invalid value for 'max_length', must be a non-negative integer")
           | Some val =>
               Ok (<["max_length"%string := VInt val]> filters,
                   if val <? Length (Properties str) then false else match_)
           end
         else Ok (filters, match_));
  let '(filters, match_) := fm in
  (* word_count filter *)
  fm <~ (let param := Query c "word_count" in
         if negb (String.eqb param "") then
           match nonNegative param with
           | None =>
               Err (badRequest
                 "Invalid value for 'word_count', must be a non-negative integer")
           | Some val =>
               Ok (<["word_count"%string := VInt val]> filters,
                   if negb (WordCount (Properties str) =? val) then false else match_)
           end
         else Ok (filters, match_));
  let '(filters, match_) := fm in
  (* contains_character filter *)
  let param := Query c "contains_character" in
  if negb (String.eqb param "") then
    match runes param with
    | [charToFind] =>
        Ok (<["contains_character"%string := VString param]> filters,
            if negb (hasCharacter str charToFind) then false else match_)
    | _ =>
        Err (badRequest
          "Invalid value for 'contains_character', must be a single character")
    end
  else Ok (filters, match_).

(** [for _, str := range stringStore], over the records in the order
    the iteration visits them. *)
Fixpoint filterLoop (c : queryParams) (strs : list AnalyzedString) (st : filterState)
  : result filterState response :=
  match strs with
  | [] => Ok st
  | str :: strs' =>
      fm <~ filterRecord c str (filters st);
      filterLoop c strs'
        (FilterState (fst fm)
           (if snd fm then filteredStrings st ++ [str] else filteredStrings st))
  end.

(** [GetFilteredStringsHandler] handles [GET /strings] with filtering.
    Go leaves the order of a map iteration open; the model visits the
    records in the order of [map_to_list]. *)
Definition GetFilteredStringsHandler (c : queryParams) (stringStore : store) : response :=
  match filterLoop c (map snd (map_to_list stringStore)) (FilterState ∅ []) with
  | Err r => r
  | Ok st =>
      Response StatusOK
        (JFiltered (filteredStrings st)
                   (Z.of_nat (length (filteredStrings st)))
                   (filters st))
  end.

(** *** The natural-language translator *)

(** The blocks of [ParseNaturalLanguageQuery], in the order of the
    source; each reads [lowerQuery] and updates [parsedFilters]. *)

(** Palindrome. *)
Definition parsePalindrome (lowerQuery : string) (parsedFilters : gmap string value)
  : gmap string value :=
  if Strings.Contains lowerQuery "palindrome" || Strings.Contains lowerQuery "palindromic"
  then <["is_palindrome"%string := VBool true]> parsedFilters
  else parsedFilters.

(** Word Count. *)
Definition parseWordCount (lowerQuery : string) (parsedFilters : gmap string value)
  : result (gmap string value) parseError :=
  match Regexp.FindStringSubmatch reWordCount lowerQuery with
  | _ :: w :: _ =>
      if String.eqb w "single" || String.eqb w "one"
      then Ok (<["word_count"%string := VInt 1]> parsedFilters)
      else if String.eqb w "two" then Ok (<["word_count"%string := VInt 2]> parsedFilters)
      else if String.eqb w "three" then Ok (<["word_count"%string := VInt 3]> parsedFilters)
      else if String.eqb w "four" then Ok (<["word_count"%string := VInt 4]> parsedFilters)
      else if String.eqb w "five" then Ok (<["word_count"%string := VInt 5]> parsedFilters)
      else Err (UnsupportedWordCount w)
  | _ =>
      match Regexp.FindStringSubmatch reWordCountNum lowerQuery with
      | _ :: d :: _ =>
          match Strconv.Atoi d with
          | Some num => Ok (<["word_count"%string := VInt num]> parsedFilters)
          | None => Ok parsedFilters
          end
      | _ => Ok parsedFilters
      end
  end.

(** Length filters: "longer than". *)
Definition parseLongerThan (lowerQuery : string) (parsedFilters : gmap string value)
  : result (gmap string value) parseError :=
  match Regexp.FindStringSubmatch reLongerThan lowerQuery with
  | _ :: d :: _ =>
      match Strconv.Atoi d with
      | Some num =>
          match asInt (parsedFilters !! "min_length"%string) with
          | Some existingMin =>
              if GoInt.add num 1 <? existingMin then Err ConflictingLengthFilters
              else Ok (<["min_length"%string := VInt (GoInt.add num 1)]> parsedFilters)
          | None => Ok (<["min_length"%string := VInt (GoInt.add num 1)]> parsedFilters)
          end
      | None => Ok parsedFilters
      end
  | _ => Ok parsedFilters
  end.

(** Length filters: "shorter than". *)
Definition parseShorterThan (lowerQuery : string) (parsedFilters : gmap string value)
  : result (gmap string value) parseError :=
  match Regexp.FindStringSubmatch reShorterThan lowerQuery with
  | _ :: d :: _ =>
      match Strconv.Atoi d with
      | Some num =>
          match asInt (parsedFilters !! "max_length"%string) with
          | Some existingMax =>
              if existingMax <? GoInt.sub num 1 then Err ConflictingLengthFilters
              else Ok (<["max_length"%string := VInt (GoInt.sub num 1)]> parsedFilters)
          | None => Ok (<["max_length"%string := VInt (GoInt.sub num 1)]> parsedFilters)
          end
      | None => Ok parsedFilters
      end
  | _ => Ok parsedFilters
  end.

(** Length filters: "exactly". *)
Definition parseExactly (lowerQuery : string) (parsedFilters : gmap string value)
  : result (gmap string value) parseError :=
  match Regexp.FindStringSubmatch reExactlyLength lowerQuery with
  | _ :: d :: _ =>
      match Strconv.Atoi d with
      | Some num =>
          let minConflict :=
            match asInt (parsedFilters !! "min_length"%string) with
            | Some existingMin => num <? existingMin
            | None => false
            end in
          let maxConflict :=
            match asInt (parsedFilters !! "max_length"%string) with
            | Some existingMax => existingMax <? num
            | None => false
            end in
          if minConflict then Err ConflictingLengthFilters
          else if maxConflict then Err ConflictingLengthFilters
          else Ok (<["max_length"%string := VInt num]>
                     (<["min_length"%string := VInt num]> parsedFilters))
      | None => Ok parsedFilters
      end
  | _ => Ok parsedFilters
  end.

(** Contains character. *)
Definition parseContainsChar (lowerQuery : string) (parsedFilters : gmap string value)
  : gmap string value :=
  match Regexp.FindStringSubmatch reContainsChar lowerQuery with
  | _ :: x :: _ => <["contains_character"%string := VString x]> parsedFilters
  | _ =>
      if Strings.Contains lowerQuery "contains the first vowel"
      then <["contains_character"%string := VString "a"]> parsedFilters
      else parsedFilters
  end.

(** The rules up to the final checks, on the lower-cased query. *)
Definition parseRules (lowerQuery : string) : result (gmap string value) parseError :=
  let parsedFilters := parsePalindrome lowerQuery ∅ in
  parsedFilters <~ parseWordCount lowerQuery parsedFilters;
  parsedFilters <~ parseLongerThan lowerQuery parsedFilters;
  parsedFilters <~ parseShorterThan lowerQuery parsedFilters;
  parsedFilters <~ parseExactly lowerQuery parsedFilters;
  Ok (parseContainsChar lowerQuery parsedFilters).

(** Check for overall [min_length > max_length] conflict. *)
Definition checkMinMax (parsedFilters : gmap string value) : result unit parseError :=
  match asInt (parsedFilters !! "min_length"%string) with
  | Some minLen =>
      match asInt (parsedFilters !! "max_length"%string) with
      | Some maxLen => if maxLen <? minLen then Err ConflictingMinMax else Ok tt
      | None => Ok tt
      end
  | None => Ok tt
  end.

(** The end of the function: the conflict check, then
    [len(parsedFilters) == 0]. *)
Definition parseFinish (parsedFilters : gmap string value)
  : result (gmap string value) parseError :=
  _ <~ checkMinMax parsedFilters;
  if Nat.eqb (size parsedFilters) 0 then Err UnparseableQuery
  else Ok parsedFilters.

(** [ParseNaturalLanguageQuery] attempts to parse a natural language
    query into structured filters. *)
Definition ParseNaturalLanguageQuery (query : string)
  : result (gmap string value) parseError :=
  let lowerQuery := Strings.ToLower query in
  parsedFilters <~ parseRules lowerQuery;
  parseFinish parsedFilters.

(** How [NaturalLanguageFilterHandler] answers a failed translation:
    [422] when the error text contains "conflicting", [400] otherwise. *)
Definition parseErrorStatus (err : parseError) : Z :=
  if Strings.Contains (Error err) "conflicting" then StatusUnprocessableEntity
  else StatusBadRequest.

(** *** Filtering by natural language *)

(** What [NaturalLanguageFilterHandler] answers: an error body with its
    status, the [NaturalLanguageFilterResponse] with status [200], or a
    panic of the handler (an index out of range, which gin's recovery
    turns into [500]). *)
Inductive naturalResponse : Type :=
| NaturalError (status : Z) (msg : string)
| NaturalOK (data : list AnalyzedString) (count : Z) (original : string)
            (parsed_filters : gmap string value)
| NaturalPanic.

(** One turn of [for filterKey, filterValue := range parsedFilters]: the
    value of [match] after the [switch], [None] when [[]rune(val)[0]]
    indexes an empty slice. *)
Definition applyFilter (filterKey : string) (filterValue : value) (str : AnalyzedString)
  : option bool :=
  if String.eqb filterKey "is_palindrome" then
    match filterValue with
    | VBool val => Some (Bool.eqb (IsPalindrome (Properties str)) val)
    | _ => Some true
    end
  else if String.eqb filterKey "min_length" then
    match filterValue with
    | VInt val => Some (negb (Length (Properties str) <? val))
    | _ => Some true
    end
  else if String.eqb filterKey "max_length" then
    match filterValue with
    | VInt val => Some (negb (val <? Length (Properties str)))
    | _ => Some true
    end
  else if String.eqb filterKey "word_count" then
    match filterValue with
    | VInt val => Some (WordCount (Properties str) =? val)
    | _ => Some true
    end
  else if String.eqb filterKey "contains_character" then
    match filterValue with
    | VString val =>
        match runes val with
        | charToFind :: _ => Some (hasCharacter str charToFind)
        | [] => None
        end
    | _ => Some true
    end
  else Some true.

(** The loop over the parsed filters, in the order [entries] of the
    iteration, with its [break] at the first filter [str] fails. *)
Fixpoint applyFilters (entries : list (string * value)) (str : AnalyzedString)
  : option bool :=
  match entries with
  | [] => Some true
  | (filterKey, filterValue) :: entries' =>
      match applyFilter filterKey filterValue str with
      | None => None
      | Some false => Some false
      | Some true => applyFilters entries' str
      end
  end.

(** [for _, str := range stringStore] of [NaturalLanguageFilterHandler]. *)
Fixpoint naturalLoop (entries : list (string * value)) (strs : list AnalyzedString)
    (filteredStrings : list AnalyzedString) : option (list AnalyzedString) :=
  match strs with
  | [] => Some filteredStrings
  | str :: strs' =>
      match applyFilters entries str with
      | None => None
      | Some match_ =>
          naturalLoop entries strs'
            (if match_ then filteredStrings ++ [str] else filteredStrings)
      end
  end.

(** [NaturalLanguageFilterHandler] handles
    [GET /strings/filter-by-natural-language].  Both map iterations are
    taken in the order of [map_to_list]. *)
Definition NaturalLanguageFilterHandler (c : queryParams) (stringStore : store)
  : naturalResponse :=
  let query := Query c "query" in
  if String.eqb query "" then NaturalError StatusBadRequest "Missing 'query' parameter"
  else
    match ParseNaturalLanguageQuery query with
    | Err err =>
        if Strings.Contains (Error err) "conflicting"
        then NaturalError StatusUnprocessableEntity "Conflicting filters detected in query"
        else NaturalError StatusBadRequest (Error err)
    | Ok parsedFilters =>
        match naturalLoop (map_to_list parsedFilters)
                          (map snd (map_to_list stringStore)) [] with
        | None => NaturalPanic
        | Some filteredStrings =>
            NaturalOK filteredStrings (Z.of_nat (length filteredStrings))
                      query parsedFilters
        end
    end.

(** *** Concurrent creations *)

(** [mu] makes each critical section of a handler atomic.  A running
    [CreateStringHandler] (its body already bound) is before its
    read-locked check, between the check and its write-locked insertion,
    or done. *)
Inductive creation : Type :=
| AtCheck (value : string) (now : Z)
| AtInsert (new : AnalyzedString)
| Finished (r : response).

(** The next critical section of one creation. *)
Definition creationStep (stringStore : store) (t : creation) : store * creation :=
  match t with
  | AtCheck value now =>
      let existingHash := generateSHA256Hash value in
      match stringStore !! existingHash with
      | Some _ =>
          (stringStore,
           Finished (Response StatusConflict
                              (JError "String already exists in the system")))
      | None => (stringStore, AtInsert (newAnalyzedString value now))
      end
  | AtInsert new =>
      (<[ID new := new]> stringStore, Finished (Response StatusCreated (JAnalyzed new)))
  | Finished r => (stringStore, Finished r)
  end.

(** One step of the system: the scheduler lets some unfinished creation
    run its next critical section. *)
Inductive step : store * list creation -> store * list creation -> Prop :=
| step_at (stringStore stringStore' : store) (ts : list creation) (i : nat) (t t' : creation) :
    ts !! i = Some t ->
    (forall r, t <> Finished r) ->
    creationStep stringStore t = (stringStore', t') ->
    step (stringStore, ts) (stringStore', <[i := t']> ts).

End Program.

(** * Vocabulary of the properties *)

Definition isByte (b : Z) : Prop := (0 <= b < 256)%Z.

(** Linear arithmetic over the decoder's boolean range tests. *)
Ltac blia :=
  unfold Utf8.ValidRune, Utf8.lead2, Utf8.lead3, Utf8.lead4, Utf8.cont, Utf8.RuneSelf,
    Utf8.RuneError, Utf8.MaxRune, isByte in *;
  lia.

(** [r] is a letter or a number. *)
Definition alphanumeric `{UnicodeTables} (r : Z) : bool :=
  Unicode.IsLetter r || Unicode.IsNumber r.

(** The skeleton of a string: drop what is neither a letter nor a
    number ([unicode.IsLetter], [unicode.IsNumber]), then lower-case what
    is left. *)
Definition skeleton `{UnicodeTables} (s : string) : list Z :=
  map Unicode.ToLower (List.filter alphanumeric (runes s)).

(** [unicode.IsDigit]: the decimal digits, [0] to [9] within Latin-1 and
    [isExcludingLatin(Digit, r)], here [digitTable], beyond it.  The
    numbers of [unicode.IsNumber] hold the digits and more: superscripts,
    fractions, Roman numerals. *)
Definition IsDigit (digitTable : Z -> bool) (r : Z) : bool :=
  if (r <=? Unicode.MaxLatin1)%Z then Unicode.between 0x30 0x39 r else digitTable r.

(** The sequence the spec names: the string without every character
    that is not a letter or digit, the rest lower-cased. *)
Definition lettersAndDigits `{UnicodeTables} (digitTable : Z -> bool) (s : string)
  : list Z :=
  map Unicode.ToLower
      (List.filter (fun r => Unicode.IsLetter r || IsDigit digitTable r) (runes s)).

(** The sum of all counts of a frequency map. *)
Definition sumValues (m : gmap Z Z) : Z :=
  map_fold (fun _ v acc => (v + acc)%Z) 0%Z m.

(** One turn of the loop of [getCharacterFrequencyMap]. *)
Definition countRune (freqMap : gmap Z Z) (char : Z) : gmap Z Z :=
  <[char := (default 0 (freqMap !! char) + 1)%Z]> freqMap.

(** The number words the word-count rule turns into a count. *)
Definition supportedWordCount (w : string) : option Z :=
  if String.eqb w "single" then Some 1%Z
  else if String.eqb w "one" then Some 1%Z
  else if String.eqb w "two" then Some 2%Z
  else if String.eqb w "three" then Some 3%Z
  else if String.eqb w "four" then Some 4%Z
  else if String.eqb w "five" then Some 5%Z
  else None.

(** The number words the pattern accepts and the rule rejects. *)
Definition unsupportedWords : list string :=
  ["six"; "seven"; "eight"; "nine"; "ten"]%string.

(** The spec's error kind [ConflictingFilters]. *)
Definition ConflictingFilters (e : parseError) : Prop :=
  e = ConflictingLengthFilters \/ e = ConflictingMinMax.

(** A lower-case hexadecimal SHA-256 digest: sixty-four characters of
    [0-9a-f]. *)
Definition lowerHexDigest (s : string) : Prop :=
  String.length s = 64%nat
  /\ Forall (fun a => In a Hex.hextable) (list_ascii_of_string s).

(** Every record sits under its [ID], which is the digest of its
    [Value]. *)
Definition StoreInv (stringStore : store) : Prop :=
  forall k a, stringStore !! k = Some a ->
              ID a = k /\ ID a = generateSHA256Hash (Value a).

(** The operations on the store, each run on its own. *)
Inductive operation : Type :=
| OpCreate (b : jsonBody) (now : Z)
| OpGet (stringValue : string)
| OpDelete (stringValue : string).

Definition perform `{UnicodeTables} (op : operation) (stringStore : store)
  : store * response :=
  match op with
  | OpCreate b now => CreateStringHandler b now stringStore
  | OpGet stringValue => (stringStore, GetSpecificStringHandler stringValue stringStore)
  | OpDelete stringValue => DeleteStringHandler stringValue stringStore
  end.

(** The store after a sequence of operations on the empty store. *)
Definition storeAfter `{UnicodeTables} (ops : list operation) : store :=
  fold_left (fun stringStore op => fst (perform op stringStore)) ops ∅.

(** A creation between its two critical sections holds a record built
    by [newAnalyzedString]. *)
Definition wellFormed `{UnicodeTables} (t : creation) : Prop :=
  match t with
  | AtInsert new => exists value now, new = newAnalyzedString value now
  | _ => True
  end.

(** A request with a filter parameter [GetFilteredStringsHandler]
    rejects: a non-boolean [is_palindrome], a negative or non-integer
    [min_length], [max_length] or [word_count], a [contains_character]
    that is not one code point. *)
Definition invalidParams (c : gmap string string) : Prop :=
  (Query c "is_palindrome" <> ""%string
   /\ Strconv.ParseBool (Query c "is_palindrome") = None)
  \/ (Query c "min_length" <> ""%string /\ nonNegative (Query c "min_length") = None)
  \/ (Query c "max_length" <> ""%string /\ nonNegative (Query c "max_length") = None)
  \/ (Query c "word_count" <> ""%string /\ nonNegative (Query c "word_count") = None)
  \/ (Query c "contains_character" <> ""%string
      /\ length (runes (Query c "contains_character")) <> 1%nat).

(** The request [min_length=10&max_length=5]. *)
Definition crossedBounds : gmap string string :=
  <["max_length"%string := "5"%string]> {["min_length"%string := "10"%string]}.

(** *** Records and schedules *)

(** Every stored record carries the properties of its own value. *)
Definition Analyzed `{UnicodeTables} (stringStore : store) : Prop :=
  forall k a, stringStore !! k = Some a -> Properties a = analyzeString (Value a).

(** A creation has answered [201 Created]. *)
Definition created (t : creation) : Prop :=
  exists a, t = Finished (Response StatusCreated (JAnalyzed a)).

(** A creation has passed its duplicate check. *)
Definition pastCheck (t : creation) : Prop :=
  (exists new, t = AtInsert new) \/ created t.

(** A creation of [value] that has not run yet. *)
Definition waitingFor (value : string) (t : creation) : Prop :=
  exists now, t = AtCheck value now.

(** A creation is done. *)
Definition finished (t : creation) : Prop := exists r, t = Finished r.

(** What holds of concurrent creations of one [value] at every point of
    every schedule. *)
Definition raceInv `{UnicodeTables} (value : string) (st : store * list creation) : Prop :=
  snd st <> []
  /\ Forall (fun t => waitingFor value t
                      \/ (exists now, t = AtInsert (newAnalyzedString value now))
                      \/ finished t) (snd st)
  /\ (fst st !! generateSHA256Hash value = None
      \/ exists now, fst st !! generateSHA256Hash value
                     = Some (newAnalyzedString value now))
  /\ (Exists pastCheck (snd st)
      \/ (fst st !! generateSHA256Hash value = None
          /\ Forall (waitingFor value) (snd st)))
  /\ (Exists created (snd st) -> is_Some (fst st !! generateSHA256Hash value)).

(** *** The lock *)

(** [mu], a [sync.RWMutex]: the number of read locks held, and whether a
    writer holds the lock or, having called [Lock], keeps new readers
    out and waits for the present ones to leave. *)
Inductive writerState : Type :=
| NoWriter
| WriterWaiting
| WriterHolds.

Record RWMutex : Type := { readerCount : nat; writer : writerState }.

Definition unlocked : RWMutex := {| readerCount := 0; writer := NoWriter |}.

(** A request to one of the five handlers that use [mu]. *)
Inductive request : Type :=
| RqCreate (b : jsonBody) (now : Z)
| RqGet (stringValue : string)
| RqFiltered (c : queryParams)
| RqNatural (c : queryParams)
| RqDelete (stringValue : string).

Inductive answer : Type :=
| Plain (r : response)
| Interpreted (r : naturalResponse).

(** What a handler does between [mu.RLock()] and [mu.RUnlock()]. *)
Inductive reader : Type :=
| RCheck (value : string) (now : Z)
| RLookup (stringValue : string)
| RFilter (c : queryParams)
| RNaturalFilter (c : queryParams).

(** What a handler does between [mu.Lock()] and [mu.Unlock()]. *)
Inductive updater : Type :=
| PutRecord (new : AnalyzedString)
| DropRecord (stringValue : string).

(** Where a running handler stands: called and holding no lock; holding
    a read lock; [CreateStringHandler] between its two critical
    sections; inside [mu.Lock()], waiting for the readers; holding the
    write lock; returned. *)
Inductive goroutine : Type :=
| Called (rq : request)
| Reading (r : reader)
| Computing (new : AnalyzedString)
| Locking (u : updater)
| Writing (u : updater)
| Returned (a : answer).

(** The part of [NaturalLanguageFilterHandler] before [mu.RLock()]: its
    two early returns. *)
Definition beforeRLock `{UnicodeTables} (c : queryParams) : option naturalResponse :=
  let query := Query c "query" in
  if String.eqb query "" then Some (NaturalError StatusBadRequest "Missing 'query' parameter")
  else
    match ParseNaturalLanguageQuery query with
    | Err err =>
        if Strings.Contains (Error err) "conflicting"
        then Some (NaturalError StatusUnprocessableEntity
                                "Conflicting filters detected in query")
        else Some (NaturalError StatusBadRequest (Error err))
    | Ok _ => None
    end.

(** What a handler does first: return without a lock, take a read
    lock, or take the write lock. *)
Inductive entry : Type :=
| Returns (a : answer)
| Reads (r : reader)
| Writes (u : updater).

Definition enter `{UnicodeTables} (rq : request) : entry :=
  match rq with
  | RqCreate b now =>
      match ShouldBindJSON b with
      | Err r => Returns (Plain r)
      | Ok value => Reads (RCheck value now)
      end
  | RqGet stringValue => Reads (RLookup stringValue)
  | RqFiltered c => Reads (RFilter c)
  | RqNatural c =>
      match beforeRLock c with
      | Some r => Returns (Interpreted r)
      | None => Reads (RNaturalFilter c)
      end
  | RqDelete stringValue => Writes (DropRecord stringValue)
  end.

(** [mu.RLock()] returns when no writer holds the lock or waits for it. *)
Definition RLock (mu : RWMutex) : option RWMutex :=
  match writer mu with
  | NoWriter => Some {| readerCount := S (readerCount mu); writer := NoWriter |}
  | _ => None
  end.

Definition RUnlock (mu : RWMutex) : RWMutex :=
  {| readerCount := pred (readerCount mu); writer := writer mu |}.

(** [mu.Lock()] in its two stages: the writer announces itself when no
    other writer is there, then gets the lock when the readers have
    left. *)
Definition Lock1 (mu : RWMutex) : option RWMutex :=
  match writer mu with
  | NoWriter => Some {| readerCount := readerCount mu; writer := WriterWaiting |}
  | _ => None
  end.

Definition Lock2 (mu : RWMutex) : option RWMutex :=
  match readerCount mu with
  | O => Some {| readerCount := 0; writer := WriterHolds |}
  | S _ => None
  end.

Definition Unlock (mu : RWMutex) : RWMutex :=
  {| readerCount := readerCount mu; writer := NoWriter |}.

(** The read-locked section of a handler, up to its [mu.RUnlock()]. *)
Definition readSection `{UnicodeTables} (r : reader) (stringStore : store) : goroutine :=
  match r with
  | RCheck value now =>
      let existingHash := generateSHA256Hash value in
      match stringStore !! existingHash with
      | Some _ =>
          Returned (Plain (Response StatusConflict
                                    (JError "String already exists in the system")))
      | None => Computing (newAnalyzedString value now)
      end
  | RLookup stringValue => Returned (Plain (GetSpecificStringHandler stringValue stringStore))
  | RFilter c => Returned (Plain (GetFilteredStringsHandler c stringStore))
  | RNaturalFilter c => Returned (Interpreted (NaturalLanguageFilterHandler c stringStore))
  end.

(** The write-locked section of a handler, up to its [mu.Unlock()]. *)
Definition writeSection (u : updater) (stringStore : store) : store * goroutine :=
  match u with
  | PutRecord new =>
      (<[ID new := new]> stringStore,
       Returned (Plain (Response StatusCreated (JAnalyzed new))))
  | DropRecord stringValue =>
      let '(stringStore', r) := DeleteStringHandler stringValue stringStore in
      (stringStore', Returned (Plain r))
  end.

(** The next step of one goroutine; [None] while it is blocked in
    [mu.RLock()] or [mu.Lock()], and when it has returned. *)
Definition lockStep `{UnicodeTables} (mu : RWMutex) (stringStore : store) (g : goroutine)
  : option (RWMutex * store * goroutine) :=
  match g with
  | Called rq =>
      match enter rq with
      | Returns a => Some (mu, stringStore, Returned a)
      | Reads r => mu' ← RLock mu; Some (mu', stringStore, Reading r)
      | Writes u => mu' ← Lock1 mu; Some (mu', stringStore, Locking u)
      end
  | Reading r => Some (RUnlock mu, stringStore, readSection r stringStore)
  | Computing new => mu' ← Lock1 mu; Some (mu', stringStore, Locking (PutRecord new))
  | Locking u => mu' ← Lock2 mu; Some (mu', stringStore, Writing u)
  | Writing u =>
      let '(stringStore', g') := writeSection u stringStore in
      Some (Unlock mu, stringStore', g')
  | Returned _ => None
  end.

(** One step of the service: the scheduler runs some goroutine that is
    not blocked. *)
Inductive lockedStep `{UnicodeTables}
  : RWMutex * store * list goroutine -> RWMutex * store * list goroutine -> Prop :=
| locked_at (mu mu' : RWMutex) (stringStore stringStore' : store) (gs : list goroutine)
            (i : nat) (g g' : goroutine) :
    gs !! i = Some g ->
    lockStep mu stringStore g = Some (mu', stringStore', g') ->
    lockedStep (mu, stringStore, gs) (mu', stringStore', <[i := g']> gs).

(** The goroutines that hold a read lock, wait in [mu.Lock()], hold the
    write lock. *)
Definition isReading (g : goroutine) : bool := match g with Reading _ => true | _ => false end.
Definition isLocking (g : goroutine) : bool := match g with Locking _ => true | _ => false end.
Definition isWriting (g : goroutine) : bool := match g with Writing _ => true | _ => false end.
Definition hasReturned (g : goroutine) : bool :=
  match g with Returned _ => true | _ => false end.

Definition tally (f : goroutine -> bool) (gs : list goroutine) : nat :=
  length (List.filter f gs).

(** [mu] agrees with the goroutines: it counts the read locks held, and
    its writer, waiting or holding, is the one goroutine there; while
    the write lock is held, no read lock is. *)
Definition lockInv (mu : RWMutex) (gs : list goroutine) : Prop :=
  readerCount mu = tally isReading gs
  /\ match writer mu with
     | NoWriter => tally isLocking gs = 0%nat /\ tally isWriting gs = 0%nat
     | WriterWaiting => tally isLocking gs = 1%nat /\ tally isWriting gs = 0%nat
     | WriterHolds =>
         tally isLocking gs = 0%nat /\ tally isWriting gs = 1%nat
         /\ tally isReading gs = 0%nat
     end.

(** The steps a goroutine has left at most. *)
Definition stepsLeft (g : goroutine) : nat :=
  match g with
  | Called _ => 5
  | Reading _ => 4
  | Computing _ => 3
  | Locking _ => 2
  | Writing _ => 1
  | Returned _ => 0
  end.

Fixpoint stepsLeftAll (gs : list goroutine) : nat :=
  match gs with
  | [] => 0
  | g :: gs' => stepsLeft g + stepsLeftAll gs'
  end.

(** A request served on its own, by the handler as a function. *)
Definition serve `{UnicodeTables} (rq : request) (stringStore : store) : store * answer :=
  match rq with
  | RqCreate b now =>
      let '(stringStore', r) := CreateStringHandler b now stringStore in
      (stringStore', Plain r)
  | RqGet stringValue => (stringStore, Plain (GetSpecificStringHandler stringValue stringStore))
  | RqFiltered c => (stringStore, Plain (GetFilteredStringsHandler c stringStore))
  | RqNatural c => (stringStore, Interpreted (NaturalLanguageFilterHandler c stringStore))
  | RqDelete stringValue =>
      let '(stringStore', r) := DeleteStringHandler stringValue stringStore in
      (stringStore', Plain r)
  end.

(** *** Translations *)

(** A non-empty run of decimal digits. *)
Definition decimal (d : string) : Prop :=
  d <> ""%string /\ Forall (fun a => Strconv.isDigit a = true) (list_ascii_of_string d).

(** What the translator stores under each key: [true] for
    [is_palindrome]; a count for [word_count]; for [min_length] a length
    or, when "longer than N" overflows, the least [int]; for
    [max_length] a length or [-1]; one lower-case letter for
    [contains_character]. *)
Definition typed (key : string) (v : value) : Prop :=
  (key = "is_palindrome"%string /\ v = VBool true)
  \/ (key = "word_count"%string /\ exists n, v = VInt n /\ (0 <= n <= GoInt.MaxInt)%Z)
  \/ (key = "min_length"%string
      /\ exists n, v = VInt n /\ ((0 <= n <= GoInt.MaxInt)%Z \/ n = GoInt.MinInt))
  \/ (key = "max_length"%string /\ exists n, v = VInt n /\ (-1 <= n <= GoInt.MaxInt)%Z)
  \/ (key = "contains_character"%string
      /\ exists a, v = VString (String a EmptyString) /\ Regexp.lower a = true).

(** Every entry of [parsedFilters] is of its key's kind. *)
Definition wellTyped (parsedFilters : gmap string value) : Prop :=
  forall k v, parsedFilters !! k = Some v -> typed k v.

(** The number a length rule reads: the digits of the leftmost match of
    its pattern, when they fit an [int]. *)
Definition firstNumber (re : Regexp.regex) (lowerQuery : string) : option Z :=
  match Regexp.FindStringSubmatch re lowerQuery with
  | _ :: d :: _ => Strconv.Atoi d
  | _ => None
  end.

(** *** Filters *)

(** The records of the store, in the order its iteration visits them. *)
Definition records (stringStore : store) : list AnalyzedString :=
  map snd (map_to_list stringStore).

(** What a set of filters asks of a record: each filter that is present
    (with a value of its kind) holds of the record's properties. *)
Definition satisfies (fs : gmap string value) (str : AnalyzedString) : bool :=
  match fs !! "is_palindrome"%string with
  | Some (VBool val) => Bool.eqb (IsPalindrome (Properties str)) val
  | _ => true
  end
  && match fs !! "min_length"%string with
     | Some (VInt val) => (val <=? Length (Properties str))%Z
     | _ => true
     end
  && match fs !! "max_length"%string with
     | Some (VInt val) => (Length (Properties str) <=? val)%Z
     | _ => true
     end
  && match fs !! "word_count"%string with
     | Some (VInt val) => (WordCount (Properties str) =? val)%Z
     | _ => true
     end
  && match fs !! "contains_character"%string with
     | Some (VString val) =>
         match runes val with
         | charToFind :: _ => hasCharacter str charToFind
         | [] => true
         end
     | _ => true
     end.

(** The filter a valid request asks for under [key]. *)
Definition readFilter (c : queryParams) (key : string) : option value :=
  let param := Query c key in
  if String.eqb param "" then None
  else if String.eqb key "is_palindrome" then VBool <$> Strconv.ParseBool param
  else if String.eqb key "contains_character" then Some (VString param)
  else VInt <$> nonNegative param.

(** [filters[key] = val] for the filter the request asks for, if any. *)
Definition withFilter (c : queryParams) (key : string) (fs : gmap string value)
  : gmap string value :=
  match readFilter c key with
  | Some v => <[key := v]> fs
  | None => fs
  end.

(** The five filters of a request, added to [fs]. *)
Definition withFilters (c : queryParams) (fs : gmap string value) : gmap string value :=
  withFilter c "contains_character"
    (withFilter c "word_count"
       (withFilter c "max_length"
          (withFilter c "min_length"
             (withFilter c "is_palindrome" fs)))).

(** The [filters_applied] of a valid request. *)
Definition requestedFilters (c : queryParams) : gmap string value := withFilters c ∅.

(** *** Words *)

(** The number of maximal runs of characters outside [[\t\n\f\r ]] in
    [s]; [inWord] tells whether the character before [s] was one. *)
Fixpoint wordRuns (inWord : bool) (s : string) : nat :=
  match s with
  | EmptyString => 0
  | String a s' =>
      if Regexp.space a then wordRuns false s'
      else ((if inWord then 0 else 1) + wordRuns true s')%nat
  end.

(** The first [k] characters of [s] are matched by [\s]. *)
Fixpoint spacesAt (k : nat) (s : string) : Prop :=
  match k with
  | O => True
  | S k' =>
      match s with
      | String a s' => Regexp.space a = true /\ spacesAt k' s'
      | EmptyString => False
      end
  end.

(** The white space of [s], as [unicode.IsSpace] has it, is white space
    for [\s] too: [s] holds no vertical tab and no white space beyond
    ASCII. *)
Definition plainSpaces (s : string) : Prop :=
  Forall (fun r => Unicode.IsSpace r = true ->
                   (r = 0x09 \/ r = 0x0A \/ r = 0x0C \/ r = 0x0D \/ r = 0x20)%Z)
         (runes s).

(** The loop of [countWords] over the pieces. *)
Definition countNonEmpty (words : list string) (count : Z) : Z :=
  fold_left (fun count word => if negb (String.eqb word "") then (count + 1)%Z else count)
            words count.

(** Bytes that [\s] matches. *)
Definition spaceBytes (l : list Z) : Prop :=
  Forall (fun b => b = 0x09 \/ b = 0x0A \/ b = 0x0C \/ b = 0x0D \/ b = 0x20)%Z l.

(** A chunk whose rune is white space holds only bytes that [\s]
    matches. *)
Definition plainChunk (c : Z * list Z) : Prop :=
  Unicode.IsSpace (fst c) = true -> spaceBytes (snd c).

(** *** The excerpt *)

(** An excerpt of the Unicode tables: the Latin-1 supplement, the basic
    Greek and Cyrillic alphabets and the Arabic-Indic digits; outside
    these the excerpt knows no letter, no number and no case. *)
Definition excerptLower (r : Z) : Z :=
  if Unicode.between 0xC0 0xD6 r || Unicode.between 0xD8 0xDE r then (r + 32)%Z
  else if Unicode.between 0x391 0x3A1 r || Unicode.between 0x3A3 0x3A9 r then (r + 32)%Z
  else if Unicode.between 0x410 0x42F r then (r + 32)%Z
  else r.

(** The decimal digits the excerpt knows beyond Latin-1: the
    Arabic-Indic digits. *)
Definition excerptDigit (r : Z) : bool := Unicode.between 0x660 0x669 r.

Definition excerptTables : UnicodeTables := {|
  letterTable r :=
    Unicode.between 0x391 0x3A1 r || Unicode.between 0x3A3 0x3A9 r
    || Unicode.between 0x3B1 0x3C9 r || Unicode.between 0x410 0x44F r;
  numberTable r := Unicode.between 0x660 0x669 r;
  lowerTable := excerptLower
|}.

(** Case analysis on the range tests of the excerpt. *)
Ltac excerpt_cases :=
  unfold Unicode.ToLower, alphanumeric, Unicode.IsLetter, Unicode.IsNumber,
    Unicode.latin1Letter, Unicode.latin1Number, excerptTables, excerptLower,
    letterTable, numberTable, lowerTable, Unicode.between, Unicode.MaxASCII,
    Unicode.MaxLatin1, Utf8.ValidRune, Utf8.MaxRune in *;
  repeat match goal with
         | |- context [if ?c then _ else _] => destruct c eqn:?
         end;
  lia.

(** Two records, a store that holds the first and a store that holds
    both, a request for one-word palindromes, and the same request in
    words; the tables are the excerpt. *)
Definition helloRecord : AnalyzedString := @newAnalyzedString excerptTables "hello" 1.
Definition madamRecord : AnalyzedString := @newAnalyzedString excerptTables "madam" 2.

Definition helloStore : store := <[generateSHA256Hash "hello" := helloRecord]> ∅.
Definition sampleStore : store := <[generateSHA256Hash "madam" := madamRecord]> helloStore.

Definition palindromeParams : queryParams :=
  <["word_count"%string := "1"%string]> {["is_palindrome"%string := "true"%string]}.

Definition palindromeQuery : queryParams :=
  {["query"%string := "all single word palindromic strings"%string]}.

(** * Properties *)

(** ** Bytes and UTF-8 *)

Module Utf8Facts.
Import Utf8.
Local Open Scope Z_scope.

Lemma byte_of_ascii_range (a : ascii) : isByte (Bytes.byte_of_ascii a).
Proof.
  unfold isByte, Bytes.byte_of_ascii.
  pose proof (N_ascii_bounded a). lia.
Qed.

Lemma of_string_bytes (s : string) : Forall isByte (Bytes.of_string s).
Proof.
  induction s as [|a s IH]; cbn; constructor; auto using byte_of_ascii_range.
Qed.

Lemma byte_ascii_byte (b : Z) :
  isByte b -> Bytes.byte_of_ascii (Bytes.ascii_of_byte b) = b.
Proof.
  intros Hb. unfold Bytes.byte_of_ascii, Bytes.ascii_of_byte.
  rewrite Z.mod_small by exact Hb.
  rewrite N_ascii_embedding by (unfold isByte in Hb; lia).
  unfold isByte in Hb. lia.
Qed.

Lemma ascii_byte_ascii (a : ascii) :
  Bytes.ascii_of_byte (Bytes.byte_of_ascii a) = a.
Proof.
  unfold Bytes.byte_of_ascii, Bytes.ascii_of_byte.
  pose proof (N_ascii_bounded a).
  rewrite Z.mod_small by lia.
  rewrite N2Z.id. apply ascii_N_embedding.
Qed.

Lemma of_to_string (p : list Z) :
  Forall isByte p -> Bytes.of_string (Bytes.to_string p) = p.
Proof.
  induction 1 as [|b p Hb _ IH]; cbn; [reflexivity|].
  rewrite byte_ascii_byte by exact Hb. now rewrite IH.
Qed.

Lemma to_of_string (s : string) : Bytes.to_string (Bytes.of_string s) = s.
Proof.
  induction s as [|a s IH]; cbn; [reflexivity|].
  now rewrite ascii_byte_ascii, IH.
Qed.

Lemma DecodeRune_valid (p : list Z) :
  Forall isByte p -> ValidRune (fst (DecodeRune p)) = true.
Proof.
  intros Hp. unfold DecodeRune.
  repeat match goal with
         | |- context [match ?l with [] => _ | _ :: _ => _ end] =>
             destruct l; [reflexivity|]
         | |- context [if ?c then _ else _] => destruct c eqn:?
         | H : Forall _ (_ :: _) |- _ => inversion H; subst; clear H
         end;
  try reflexivity; cbn [fst]; blia.
Qed.

Lemma DecodeRune_width (p : list Z) :
  p <> [] -> (1 <= snd (DecodeRune p) <= length p)%nat.
Proof.
  intros Hp. unfold DecodeRune.
  repeat match goal with
         | |- context [match ?l with [] => _ | _ :: _ => _ end] => destruct l
         | |- context [if ?c then _ else _] => destruct c
         end;
  try congruence; cbn [snd length]; lia.
Qed.

(** [decode] reads one rune and goes on after its bytes. *)
Lemma decode_unfold (p : list Z) :
  p <> [] -> decode p = DecodeRune p :: decode (skipn (snd (DecodeRune p)) p).
Proof.
  intros Hp. destruct p as [|b0 p1]; [congruence|].
  pose proof (DecodeRune_width (b0 :: p1) Hp) as Hw.
  cbn [decode]. f_equal.
  destruct (snd (DecodeRune (b0 :: p1))) as [|[|[|[|[|n]]]]] eqn:Hn.
  - lia.
  - reflexivity.
  - destruct p1 as [|b1 p2]; [cbn in Hw; lia|reflexivity].
  - destruct p1 as [|b1 [|b2 p3]]; try (cbn in Hw; lia); reflexivity.
  - destruct p1 as [|b1 [|b2 [|b3 p4]]]; try (cbn in Hw; lia); reflexivity.
  - exfalso. revert Hn. unfold DecodeRune.
    repeat match goal with
           | |- context [match ?l with [] => _ | _ :: _ => _ end] => destruct l
           | |- context [if ?c then _ else _] => destruct c
           end; cbn [snd]; congruence.
Qed.

Lemma decode_valid (p : list Z) :
  Forall isByte p -> Forall (fun rn => ValidRune (fst rn) = true) (decode p).
Proof.
  remember (length p) as n eqn:Hn. revert p Hn.
  induction n as [n IH] using lt_wf_ind. intros p Hn Hp.
  destruct p as [|b0 p1]; [constructor|].
  rewrite decode_unfold by congruence.
  pose proof (DecodeRune_width (b0 :: p1) ltac:(congruence)) as Hw.
  constructor; [now apply DecodeRune_valid|].
  eapply IH; [|reflexivity|].
  - subst n. rewrite length_skipn. lia.
  - rewrite <- (firstn_skipn (snd (DecodeRune (b0 :: p1))) (b0 :: p1)) in Hp.
    apply Forall_app in Hp. tauto.
Qed.

(** The quotients and remainders that [EncodeRune] takes of [r]. *)
Lemma sextets (r : Z) :
  0 <= r ->
  r = 64 * (r / 64) + r mod 64 /\ 0 <= r mod 64 < 64
  /\ r / 64 = 64 * (r / 4096) + (r / 64) mod 64 /\ 0 <= (r / 64) mod 64 < 64
  /\ r / 4096 = 64 * (r / 262144) + (r / 4096) mod 64 /\ 0 <= (r / 4096) mod 64 < 64
  /\ 0 <= r / 262144.
Proof.
  intros Hr.
  pose proof (Z.div_mod r 64 ltac:(lia)) as E1.
  pose proof (Z.div_mod (r / 64) 64 ltac:(lia)) as E2.
  pose proof (Z.div_mod (r / 4096) 64 ltac:(lia)) as E3.
  rewrite Z.div_div in E2, E3 by lia.
  change (64 * 64) with 4096 in E2. change (4096 * 64) with 262144 in E3.
  pose proof (Z.mod_pos_bound r 64 ltac:(lia)).
  pose proof (Z.mod_pos_bound (r / 64) 64 ltac:(lia)).
  pose proof (Z.mod_pos_bound (r / 4096) 64 ltac:(lia)).
  pose proof (Z.div_pos r 262144 Hr ltac:(lia)).
  repeat split; lia.
Qed.

Lemma EncodeRune_bytes (r : Z) : Forall isByte (EncodeRune r).
Proof.
  unfold EncodeRune.
  destruct ((0 <=? r) && (r <=? 0x7F)) eqn:H1.
  { repeat constructor; blia. }
  destruct ((0 <=? r) && (r <=? 0x7FF)) eqn:H2.
  { pose proof (sextets r ltac:(lia)). repeat constructor; blia. }
  destruct (ValidRune r) eqn:Hr; cbn [negb].
  2:{ repeat constructor; blia. }
  pose proof (sextets r ltac:(blia)).
  destruct (r <=? 0xFFFF) eqn:H3; repeat constructor; blia.
Qed.

(** Decoding undoes encoding on every scalar value. *)
Lemma DecodeRune_EncodeRune (r : Z) (p : list Z) :
  ValidRune r = true ->
  DecodeRune (EncodeRune r ++ p) = (r, length (EncodeRune r)).
Proof.
  intros Hr. unfold EncodeRune.
  pose proof (sextets r ltac:(blia)) as Hs.
  destruct ((0 <=? r) && (r <=? 0x7F)) eqn:H1.
  { cbn. replace (r <? RuneSelf) with true by blia. reflexivity. }
  destruct ((0 <=? r) && (r <=? 0x7FF)) eqn:H2.
  { cbn [app DecodeRune length].
    replace (0xC0 + r / 64 <? RuneSelf) with false by blia.
    replace (lead2 (0xC0 + r / 64) && cont (0x80 + r mod 64)) with true by blia.
    f_equal. lia. }
  rewrite Hr. cbn [negb].
  destruct (r <=? 0xFFFF) eqn:H3.
  { cbn [app DecodeRune length].
    replace (0xE0 + r / 4096 <? RuneSelf) with false by blia.
    replace (lead2 (0xE0 + r / 4096) && cont (0x80 + (r / 64) mod 64)) with false by blia.
    replace (lead3 (0xE0 + r / 4096) (0x80 + (r / 64) mod 64) && cont (0x80 + r mod 64))
      with true by blia.
    f_equal. lia. }
  cbn [app DecodeRune length].
  replace (0xF0 + r / 262144 <? RuneSelf) with false by blia.
  replace (lead2 (0xF0 + r / 262144) && cont (0x80 + (r / 4096) mod 64)) with false by blia.
  replace (lead3 (0xF0 + r / 262144) (0x80 + (r / 4096) mod 64)
           && cont (0x80 + (r / 64) mod 64)) with false by blia.
  replace (lead4 (0xF0 + r / 262144) (0x80 + (r / 4096) mod 64)
           && cont (0x80 + (r / 64) mod 64) && cont (0x80 + r mod 64)) with true by blia.
  f_equal. lia.
Qed.

Lemma decode_EncodeRune (r : Z) (p : list Z) :
  ValidRune r = true ->
  decode (EncodeRune r ++ p) = (r, length (EncodeRune r)) :: decode p.
Proof.
  intros Hr.
  assert (Hne : EncodeRune r ++ p <> []).
  { unfold EncodeRune.
    repeat match goal with
           | |- context [if ?c then _ else _] => destruct c
           end; cbn; congruence. }
  rewrite decode_unfold by exact Hne.
  rewrite DecodeRune_EncodeRune by exact Hr.
  cbn [snd]. now rewrite skipn_app, skipn_all, Nat.sub_diag.
Qed.

(** Reading back the encodings of scalar values gives the values. *)
Lemma decode_encode (rs : list Z) :
  Forall (fun r => ValidRune r = true) rs ->
  map fst (decode (flat_map EncodeRune rs)) = rs.
Proof.
  induction 1 as [|r rs Hr _ IH]; cbn; [reflexivity|].
  rewrite decode_EncodeRune by exact Hr. cbn. now rewrite IH.
Qed.

End Utf8Facts.

(** ** Lower-casing *)

Section LowerCase.
Context `{UnicodeTables}.
Import Utf8 Utf8Facts.
Local Open Scope Z_scope.

(** The case mapping of the [unicode] tables sends scalar values to
    scalar values. *)
Hypothesis lowerTable_valid :
  forall r, ValidRune r = true -> Unicode.MaxASCII < r -> ValidRune (lowerTable r) = true.

(** A lower-cased rune has no further lower case. *)
Hypothesis lowerTable_idempotent :
  forall r, ValidRune r = true -> Unicode.MaxASCII < r ->
            Unicode.ToLower (lowerTable r) = lowerTable r.

Lemma unicode_ToLower_valid (r : Z) :
  ValidRune r = true -> ValidRune (Unicode.ToLower r) = true.
Proof.
  intros Hr. unfold Unicode.ToLower.
  destruct (r <=? Unicode.MaxASCII) eqn:Ha.
  - unfold Unicode.between, Unicode.MaxASCII in *.
    destruct ((65 <=? r) && (r <=? 90)) eqn:Hu; blia.
  - apply lowerTable_valid; [exact Hr|lia].
Qed.

Lemma unicode_ToLower_idempotent (r : Z) :
  ValidRune r = true -> Unicode.ToLower (Unicode.ToLower r) = Unicode.ToLower r.
Proof.
  intros Hr. unfold Unicode.ToLower at 2 3.
  destruct (r <=? Unicode.MaxASCII) eqn:Ha.
  - unfold Unicode.ToLower, Unicode.between, Unicode.MaxASCII in *.
    destruct ((65 <=? r) && (r <=? 90)) eqn:Hu.
    + replace (r + (97 - 65) <=? 127) with true by lia.
      replace ((65 <=? r + (97 - 65)) && (r + (97 - 65) <=? 90)) with false by lia.
      reflexivity.
    + now rewrite Ha, Hu.
  - apply lowerTable_idempotent; [exact Hr|lia].
Qed.

Lemma runes_valid (s : string) : Forall (fun r => ValidRune r = true) (runes s).
Proof.
  unfold runes. apply Forall_map.
  apply decode_valid, of_string_bytes.
Qed.

(** An ASCII byte sequence decodes to itself. *)
Lemma decode_ascii (p : list Z) :
  Forall isByte p -> forallb (fun c => c <? RuneSelf) p = true ->
  map fst (decode p) = p.
Proof.
  induction 1 as [|b p Hb Hp IH]; cbn [forallb]; intros Ha; [reflexivity|].
  apply andb_true_iff in Ha. destruct Ha as [Hb' Ha].
  rewrite decode_unfold by congruence.
  cbn [DecodeRune]. rewrite Hb'. cbn [snd skipn map fst].
  rewrite drop_0. now rewrite IH.
Qed.

(** What [strings.Map] writes for a mapping that keeps scalar values
    scalar. *)
Lemma Map_runes (mapping : Z -> Z) (s : string) :
  (forall r, ValidRune r = true -> ValidRune (mapping r) = true) ->
  Strings.Map mapping s
  = Bytes.to_string (flat_map EncodeRune (map mapping (runes s)))
  /\ runes (Strings.Map mapping s) = map mapping (runes s).
Proof.
  intros Hm.
  assert (E : Strings.Map mapping s
              = Bytes.to_string (flat_map EncodeRune (map mapping (runes s)))).
  { unfold Strings.Map. f_equal.
    pose proof (runes_valid s) as Hv.
    induction Hv as [|r rs Hr _ IH]; cbn; [reflexivity|].
    rewrite IH. replace (0 <=? mapping r) with true; [reflexivity|].
    specialize (Hm r Hr). blia. }
  split; [exact E|].
  rewrite E. unfold runes at 1.
  rewrite of_to_string.
  - apply decode_encode. apply Forall_map.
    eapply Forall_impl; [apply runes_valid|]. cbn. auto.
  - apply Forall_flat_map. apply Forall_forall. intros r _. apply EncodeRune_bytes.
Qed.

(** On ASCII bytes [unicode.ToLower] is the byte-wise lowering of the
    fast path of [strings.ToLower]. *)
Lemma ToLower_ascii_byte (c : Z) :
  isByte c -> (c <? RuneSelf) = true ->
  Unicode.ToLower c = (if Strings.isUpperByte c then c + (0x61 - 0x41) else c)
  /\ EncodeRune (Unicode.ToLower c) = [Unicode.ToLower c].
Proof.
  intros Hb Hc. unfold Unicode.ToLower, Unicode.between, Unicode.MaxASCII, Strings.isUpperByte.
  replace (c <=? 127) with true by blia.
  split; [reflexivity|].
  unfold EncodeRune.
  destruct ((65 <=? c) && (c <=? 90)) eqn:Hu.
  - replace ((0 <=? c + (97 - 65)) && (c + (97 - 65) <=? 127)) with true by blia.
    reflexivity.
  - replace ((0 <=? c) && (c <=? 127)) with true by blia. reflexivity.
Qed.

(** [strings.ToLower] is [unicode.ToLower] rune by rune, also on its
    ASCII fast path. *)
Lemma ToLower_is_Map (s : string) :
  Strings.ToLower s = Strings.Map Unicode.ToLower s.
Proof.
  unfold Strings.ToLower.
  destruct (forallb (fun c => c <? RuneSelf) (Bytes.of_string s)) eqn:Ha; [|reflexivity].
  destruct (Map_runes Unicode.ToLower s unicode_ToLower_valid) as [E _].
  rewrite E. unfold runes.
  rewrite decode_ascii by (auto using of_string_bytes).
  pose proof (of_string_bytes s) as Hb.
  assert (E' : flat_map EncodeRune (map Unicode.ToLower (Bytes.of_string s))
               = map (fun c => if Strings.isUpperByte c then c + (0x61 - 0x41) else c)
                     (Bytes.of_string s)).
  { induction Hb as [|b p Hb _ IH]; cbn [forallb map flat_map] in *; [reflexivity|].
    apply andb_true_iff in Ha. destruct Ha as [Hb' Ha].
    destruct (ToLower_ascii_byte b Hb Hb') as [E1 E2].
    rewrite E2, E1, IH by exact Ha. reflexivity. }
  rewrite E'.
  destruct (existsb Strings.isUpperByte (Bytes.of_string s)) eqn:Hu; cbn [negb];
    [reflexivity|].
  rewrite <- (to_of_string s) at 1. f_equal.
  clear -Hu. induction (Bytes.of_string s) as [|b p IH]; cbn in *; [reflexivity|].
  apply orb_false_iff in Hu. destruct Hu as [Hb Hu].
  rewrite Hb. now rewrite <- IH.
Qed.

Lemma runes_ToLower (s : string) :
  runes (Strings.ToLower s) = map Unicode.ToLower (runes s).
Proof.
  rewrite ToLower_is_Map.
  apply (Map_runes Unicode.ToLower s unicode_ToLower_valid).
Qed.

(** Lower-casing twice is lower-casing once. *)
Lemma ToLower_idempotent (s : string) :
  Strings.ToLower (Strings.ToLower s) = Strings.ToLower s.
Proof.
  rewrite (ToLower_is_Map (Strings.ToLower s)).
  destruct (Map_runes Unicode.ToLower (Strings.ToLower s) unicode_ToLower_valid) as [E _].
  rewrite E, runes_ToLower, ToLower_is_Map.
  destruct (Map_runes Unicode.ToLower s unicode_ToLower_valid) as [E' _].
  rewrite E'. do 2 f_equal.
  rewrite map_map. apply map_ext_Forall.
  eapply Forall_impl; [apply runes_valid|]. cbn.
  intros r Hr. now apply unicode_ToLower_idempotent.
Qed.

End LowerCase.

(** ** The analyzer *)

Section MirrorLoop.
Local Open Scope Z_scope.

(** The loop compares position [k] with its mirror for every [k] from
    [i] on that lies left of its mirror. *)
Lemma mirrorLoop_spec (f : list Z) (fuel : nat) (i j : Z) :
  0 <= i -> i + j = Z.of_nat (length f) - 1 -> j - i < 2 * Z.of_nat fuel + 1 ->
  mirrorLoop fuel f i j = true
  <-> (forall k : nat, i <= Z.of_nat k -> 2 * Z.of_nat k < Z.of_nat (length f) - 1 ->
                       nth k f 0 = nth (length f - 1 - k) f 0).
Proof.
  revert i j. induction fuel as [|fuel IH]; intros i j Hi Hij Hfuel; cbn [mirrorLoop].
  - split; [|reflexivity]. intros _ k Hk1 Hk2. lia.
  - destruct (i <? j) eqn:Hlt.
    + apply Z.ltb_lt in Hlt.
      assert (Ej : Z.to_nat j = (length f - 1 - Z.to_nat i)%nat) by lia.
      destruct (nth (Z.to_nat i) f 0 =? nth (Z.to_nat j) f 0) eqn:He; cbn [negb].
      * apply Z.eqb_eq in He.
        rewrite IH by lia. split; intros Hall k Hk1 Hk2.
        -- destruct (Z.eq_dec (Z.of_nat k) i) as [E|Hne].
           ++ subst i. rewrite Nat2Z.id in He, Ej. now rewrite <- Ej.
           ++ apply Hall; lia.
        -- apply Hall; lia.
      * apply Z.eqb_neq in He. split; [discriminate|].
        intros Hall. exfalso. apply He.
        rewrite Ej. apply Hall; lia.
    + apply Z.ltb_ge in Hlt. split; [|reflexivity].
      intros _ k Hk1 Hk2. lia.
Qed.

(** A list reads the same in both directions exactly when its left half
    mirrors its right half. *)
Lemma rev_mirror (f : list Z) :
  f = rev f
  <-> (forall k : nat, 2 * Z.of_nat k < Z.of_nat (length f) - 1 ->
                       nth k f 0 = nth (length f - 1 - k) f 0).
Proof.
  split.
  - intros E k Hk. rewrite E at 1. rewrite rev_nth by lia. f_equal. lia.
  - intros Hall. apply (nth_ext _ _ 0 0); [now rewrite length_rev|].
    intros k Hk. rewrite rev_nth by lia.
    replace (length f - S k)%nat with (length f - 1 - k)%nat by lia.
    destruct (Z.lt_trichotomy (2 * Z.of_nat k) (Z.of_nat (length f) - 1)) as [Hl|[He|Hg]].
    + now apply Hall.
    + f_equal. lia.
    + symmetry. rewrite (Hall (length f - 1 - k)%nat) by lia. f_equal. lia.
Qed.

Lemma mirrorLoop_palindrome (f : list Z) :
  mirrorLoop (length f) f 0 (Z.of_nat (length f) - 1) = true <-> f = rev f.
Proof.
  rewrite mirrorLoop_spec by lia. rewrite rev_mirror.
  split; intros Hall k; [intros Hk; apply Hall; lia|intros _ Hk; now apply Hall].
Qed.

End MirrorLoop.

Section Palindrome.
Context `{UnicodeTables}.
Import Utf8 Utf8Facts.
Local Open Scope Z_scope.

Hypothesis lowerTable_valid :
  forall r, ValidRune r = true -> Unicode.MaxASCII < r -> ValidRune (lowerTable r) = true.

(** Lower-casing keeps letters letters, numbers numbers and everything
    else what it is. *)
Hypothesis lowerTable_class :
  forall r, ValidRune r = true -> Unicode.MaxASCII < r ->
            alphanumeric (lowerTable r) = alphanumeric r.

Lemma ToLower_class (r : Z) :
  ValidRune r = true -> alphanumeric (Unicode.ToLower r) = alphanumeric r.
Proof.
  intros Hr. unfold Unicode.ToLower.
  destruct (r <=? Unicode.MaxASCII) eqn:Ha.
  - destruct (Unicode.between 65 90 r) eqn:Hu; [|reflexivity].
    unfold alphanumeric, Unicode.IsLetter, Unicode.IsNumber, Unicode.MaxLatin1,
      Unicode.MaxASCII, Unicode.between in *.
    replace ((0 <=? r + (97 - 65)) && (r + (97 - 65) <=? 255)) with true by lia.
    replace ((0 <=? r) && (r <=? 255)) with true by lia.
    unfold Unicode.latin1Letter, Unicode.between.
    replace ((65 <=? r) && (r <=? 90)) with true by lia.
    replace ((97 <=? r + (97 - 65)) && (r + (97 - 65) <=? 122)) with true by lia.
    replace ((65 <=? r + (97 - 65)) && (r + (97 - 65) <=? 90)) with false by lia.
    reflexivity.
  - apply lowerTable_class; [exact Hr|lia].
Qed.

(** The runes the loop of [isPalindrome] compares are the spec's
    skeleton. *)
Lemma filteredRunes_skeleton (s : string) : filteredRunes s = skeleton s.
Proof.
  unfold filteredRunes, skeleton.
  rewrite (runes_ToLower lowerTable_valid).
  fold alphanumeric. change (fun r => alphanumeric r) with alphanumeric.
  pose proof (runes_valid s) as Hv.
  induction Hv as [|r rs Hr _ IH]; cbn [map List.filter]; [reflexivity|].
  change (Unicode.IsLetter (Unicode.ToLower r) || Unicode.IsNumber (Unicode.ToLower r))
    with (alphanumeric (Unicode.ToLower r)).
  rewrite ToLower_class by exact Hr.
  change (Unicode.IsLetter r || Unicode.IsNumber r) with (alphanumeric r).
  destruct (alphanumeric r); cbn [map]; now rewrite IH.
Qed.

Lemma isPalindrome_rev (s : string) :
  isPalindrome s = true <-> filteredRunes s = rev (filteredRunes s).
Proof. unfold isPalindrome. apply mirrorLoop_palindrome. Qed.

End Palindrome.

Section Frequency.
Local Open Scope Z_scope.

Lemma sumValues_insert (m : gmap Z Z) (k v : Z) :
  sumValues (<[k := v]> m) = sumValues m - default 0 (m !! k) + v.
Proof.
  unfold sumValues.
  rewrite <- insert_delete_eq.
  rewrite map_fold_insert_L by (intros; lia || apply lookup_delete_eq).
  destruct (m !! k) as [old|] eqn:Hk; cbn.
  - rewrite (map_fold_delete_L _ _ k old m) by (intros; lia || exact Hk). lia.
  - rewrite delete_id by exact Hk. lia.
Qed.

Lemma fold_countRune_sum (rs : list Z) (m : gmap Z Z) :
  sumValues (fold_left countRune rs m) = sumValues m + Z.of_nat (length rs).
Proof.
  revert m. induction rs as [|r rs IH]; intros m; cbn [fold_left length]; [lia|].
  rewrite IH. unfold countRune. rewrite sumValues_insert. lia.
Qed.

Lemma fold_countRune_mono (rs : list Z) (m : gmap Z Z) (c v : Z) :
  m !! c = Some v ->
  exists n, fold_left countRune rs m !! c = Some n /\ v <= n.
Proof.
  revert m v. induction rs as [|r rs IH]; intros m v Hc; cbn [fold_left].
  - exists v. split; [exact Hc|lia].
  - destruct (Z.eq_dec r c) as [->|Hne].
    + destruct (IH (countRune m c) (v + 1)) as (n & Hn & Hle).
      { unfold countRune. rewrite Hc. apply lookup_insert_eq. }
      exists n. split; [exact Hn|lia].
    + apply IH. unfold countRune. now rewrite lookup_insert_ne.
Qed.

Lemma fold_countRune_lookup (rs : list Z) (m : gmap Z Z) (c : Z) :
  In c rs ->
  exists n, fold_left countRune rs m !! c = Some n /\ default 0 (m !! c) + 1 <= n.
Proof.
  revert m. induction rs as [|r rs IH]; intros m; cbn [fold_left]; [intros []|].
  intros [->|Hin].
  - apply fold_countRune_mono. unfold countRune. apply lookup_insert_eq.
  - destruct (IH (countRune m r) Hin) as (n & Hn & Hle).
    exists n. split; [exact Hn|].
    unfold countRune in Hle.
    destruct (Z.eq_dec r c) as [->|Hne].
    + rewrite lookup_insert_eq in Hle. cbn in Hle. lia.
    + rewrite lookup_insert_ne in Hle by exact Hne. lia.
Qed.

End Frequency.

(** ** Patterns *)

Module RegexpFacts.
Import Regexp.
#[local] Arguments String.append !_ _ / : simpl nomatch.

Lemma strip_app (l s t : string) : strip l s = Some t <-> s = l +:+ t.
Proof.
  revert s. induction l as [|a l IH]; intros s; cbn.
  - split; intros E; congruence.
  - destruct s as [|b s]; [split; discriminate|].
    destruct (Ascii.eqb_spec a b) as [->|Hne].
    + rewrite IH. split; congruence.
    + split; [discriminate|]. intros E. congruence.
Qed.

Lemma append_cancel (l t t' : string) : l +:+ t = l +:+ t' -> t = t'.
Proof. induction l as [|a l IH]; cbn; intros E; [exact E|]. injection E. exact IH. Qed.

Lemma in_matches_Lit (l s : string) (m : submatch) :
  In m (matches (Lit l) s) <-> exists t, s = l +:+ t /\ m = Submatch l t [].
Proof.
  cbn [matches]. destruct (strip l s) as [t|] eqn:E.
  - apply strip_app in E. split.
    + intros [<-|[]]. now exists t.
    + intros (t' & E' & ->). left. f_equal.
      subst s. now apply append_cancel in E'.
  - split; [intros []|]. intros (t & E' & _).
    apply strip_app in E'. congruence.
Qed.

Lemma in_matches_alts (l : string) (ls : list string) (s : string) (m : submatch) :
  In m (matches (alts l ls) s)
  <-> exists l' t, In l' (l :: ls) /\ s = l' +:+ t /\ m = Submatch l' t [].
Proof.
  revert l. induction ls as [|l2 ls IH]; intros l; cbn [alts].
  - rewrite in_matches_Lit. split.
    + intros (t & E & ->). exists l, t. cbn. auto.
    + intros (l' & t & [<-|[]] & E & ->). now exists t.
  - change (matches (Alt (Lit l) (alts l2 ls)) s)
      with (matches (Lit l) s ++ matches (alts l2 ls) s).
    rewrite in_app_iff, in_matches_Lit, IH. split.
    + intros [(t & E & ->)|(l' & t & Hin & E & ->)].
      * exists l, t. cbn. auto.
      * exists l', t. cbn in *. tauto.
    + intros (l' & t & [<-|Hin] & E & ->).
      * left. now exists t.
      * right. now exists l', t.
Qed.

Lemma in_matches_Seq (r1 r2 : regex) (s : string) (m : submatch) :
  In m (matches (Seq r1 r2) s)
  <-> exists m1 m2, In m1 (matches r1 s) /\ In m2 (matches r2 (rest m1))
                    /\ m = Submatch (consumed m1 +:+ consumed m2) (rest m2)
                                    (groups m1 ++ groups m2).
Proof.
  cbn [matches]. rewrite in_flat_map. split.
  - intros (m1 & H1 & H2). apply in_map_iff in H2. destruct H2 as (m2 & <- & H2).
    now exists m1, m2.
  - intros (m1 & m2 & H1 & H2 & ->). exists m1. split; [exact H1|].
    apply in_map_iff. now exists m2.
Qed.

Lemma in_matches_Group (r : regex) (s : string) (m : submatch) :
  In m (matches (Group r) s)
  <-> exists m1, In m1 (matches r s)
                 /\ m = Submatch (consumed m1) (rest m1) (consumed m1 :: groups m1).
Proof.
  cbn [matches]. rewrite in_map_iff. split; intros (m1 & H1 & H2); exists m1; auto.
Qed.

(** What [FindStringSubmatch] returns is a match of the pattern at some
    position of the text. *)
Lemma FindStringSubmatch_sound (re : regex) (s m : string) (gs : list string) :
  FindStringSubmatch re s = m :: gs ->
  exists pre s' mm, s = pre +:+ s' /\ In mm (matches re s')
                    /\ consumed mm = m /\ groups mm = gs.
Proof.
  induction s as [|a s IH]; cbn [FindStringSubmatch].
  - destruct (matches re EmptyString) as [|mm ms] eqn:E; [discriminate|].
    intros [= <- <-]. exists EmptyString, EmptyString, mm. rewrite E. cbn. auto.
  - destruct (matches re (String a s)) as [|mm ms] eqn:E.
    + intros Hf. destruct (IH Hf) as (pre & s' & mm & -> & Hin & Hm & Hg).
      exists (String a pre), s', mm. auto.
    + intros [= <- <-]. exists EmptyString, (String a s), mm. rewrite E. cbn. auto.
Qed.

(** A text in which the pattern matches somewhere has a leftmost match. *)
Lemma FindStringSubmatch_complete (re : regex) (pre s' : string) (mm : submatch) :
  In mm (matches re s') -> FindStringSubmatch re (pre +:+ s') <> [].
Proof.
  intros Hin. induction pre as [|a pre IH]; cbn.
  - destruct s' as [|b s']; cbn [FindStringSubmatch];
      destruct (matches re _); [destruct Hin|discriminate|destruct Hin|discriminate].
  - destruct (matches re (String a (pre +:+ s'))); [exact IH|discriminate].
Qed.

End RegexpFacts.

(** ** The natural-language translator *)

Section Translator.
Context `{UnicodeTables}.
Import Regexp RegexpFacts.
Local Open Scope Z_scope.

(** The leftmost match of the word-count pattern is a number word of
    the pattern followed by " word", and stands in the text. *)
Lemma reWordCount_sound (s m : string) (gs : list string) :
  FindStringSubmatch reWordCount s = m :: gs ->
  exists w, In w ("single"%string :: numberWords) /\ m = w +:+ " word" /\ gs = [w]
            /\ exists pre post, s = pre +:+ w +:+ " word" +:+ post.
Proof.
  intros Hf. apply FindStringSubmatch_sound in Hf.
  destruct Hf as (pre & s' & mm & -> & Hin & <- & <-).
  unfold reWordCount in Hin. apply in_matches_Seq in Hin.
  destruct Hin as (m1 & m2 & H1 & H2 & ->).
  apply in_matches_Group in H1. destruct H1 as (m0 & H0 & ->).
  apply in_matches_alts in H0. destruct H0 as (w & t & Hw & -> & ->).
  cbn [rest consumed groups] in *.
  apply in_matches_Lit in H2. destruct H2 as (post & -> & ->).
  cbn [rest consumed groups app]. exists w. repeat split; auto.
  now exists pre, post.
Qed.

Lemma supportedWordCount_cases (w : string) :
  In w ("single"%string :: numberWords) ->
  (supportedWordCount w = None <-> In w unsupportedWords).
Proof.
  unfold numberWords, unsupportedWords. cbn [In].
  intros Hw. repeat (destruct Hw as [<-|Hw]; [vm_compute; intuition congruence|]).
  destruct Hw.
Qed.

(** The word-count rule on a text whose leftmost number word is [w]. *)
Lemma parseWordCount_named (lowerQuery m w : string) (gs : list string)
    (parsedFilters : gmap string value) :
  FindStringSubmatch reWordCount lowerQuery = m :: w :: gs ->
  parseWordCount lowerQuery parsedFilters
  = match supportedWordCount w with
    | Some n => Ok (<["word_count"%string := VInt n]> parsedFilters)
    | None => Err (UnsupportedWordCount w)
    end.
Proof.
  intros Hf. unfold parseWordCount. rewrite Hf.
  destruct (reWordCount_sound _ _ _ Hf) as (w' & Hw & _ & [= <-] & _).
  unfold numberWords in Hw. cbn [In] in Hw.
  repeat (destruct Hw as [<-|Hw]; [reflexivity|]). destruct Hw.
Qed.

(** The rules after the word count fail with conflicts only. *)
Lemma parseLongerThan_Err (lq : string) (pf : gmap string value) (e : parseError) :
  parseLongerThan lq pf = Err e -> e = ConflictingLengthFilters.
Proof.
  unfold parseLongerThan.
  repeat match goal with
         | |- context [match ?x with _ => _ end] => destruct x
         end; congruence.
Qed.

Lemma parseShorterThan_Err (lq : string) (pf : gmap string value) (e : parseError) :
  parseShorterThan lq pf = Err e -> e = ConflictingLengthFilters.
Proof.
  unfold parseShorterThan.
  repeat match goal with
         | |- context [match ?x with _ => _ end] => destruct x
         end; congruence.
Qed.

Lemma parseExactly_Err (lq : string) (pf : gmap string value) (e : parseError) :
  parseExactly lq pf = Err e -> e = ConflictingLengthFilters.
Proof.
  unfold parseExactly.
  repeat match goal with
         | |- context [match ?x with _ => _ end] => destruct x
         end; congruence.
Qed.

Lemma parseFinish_Err (pf : gmap string value) (e : parseError) :
  parseFinish pf = Err e -> e = ConflictingMinMax \/ e = UnparseableQuery.
Proof.
  unfold parseFinish, checkMinMax.
  destruct (asInt (pf !! "min_length"%string)) as [minLen|];
    [destruct (asInt (pf !! "max_length"%string)) as [maxLen|];
       [destruct (maxLen <? minLen)|]|];
    cbn [bind]; try (intros [= <-]; now left);
    destruct (Nat.eqb (size pf) 0); intros [= <-]; now right.
Qed.

Lemma parseWordCount_Err (lq : string) (pf : gmap string value) (e : parseError) :
  parseWordCount lq pf = Err e ->
  exists m w gs, FindStringSubmatch reWordCount lq = m :: w :: gs
                 /\ e = UnsupportedWordCount w /\ supportedWordCount w = None.
Proof.
  unfold parseWordCount.
  destruct (FindStringSubmatch reWordCount lq) as [|m [|w gs]] eqn:Hf.
  1,2: repeat match goal with
         | |- context [match ?x with _ => _ end] => destruct x
         end; discriminate.
  pose proof (parseWordCount_named lq m w gs pf Hf) as E.
  unfold parseWordCount in E. rewrite Hf in E. rewrite E.
  destruct (supportedWordCount w) eqn:Hs; [discriminate|].
  intros [= <-]. now exists m, w, gs.
Qed.

(** A translation fails with [UnsupportedWordCount] exactly when the
    word-count rule does. *)
Lemma ParseNaturalLanguageQuery_unsupported (query w : string) :
  ParseNaturalLanguageQuery query = Err (UnsupportedWordCount w)
  <-> parseWordCount (Strings.ToLower query) (parsePalindrome (Strings.ToLower query) ∅)
      = Err (UnsupportedWordCount w).
Proof.
  unfold ParseNaturalLanguageQuery, parseRules.
  set (lq := Strings.ToLower query).
  destruct (parseWordCount lq (parsePalindrome lq ∅)) as [pf1|e1] eqn:E1; cbn [bind].
  2:{ reflexivity. }
  split; [|discriminate].
  destruct (parseLongerThan lq pf1) as [pf2|e2] eqn:E2; cbn [bind].
  2:{ apply parseLongerThan_Err in E2. congruence. }
  destruct (parseShorterThan lq pf2) as [pf3|e3] eqn:E3; cbn [bind].
  2:{ apply parseShorterThan_Err in E3. congruence. }
  destruct (parseExactly lq pf3) as [pf4|e4] eqn:E4; cbn [bind].
  2:{ apply parseExactly_Err in E4. congruence. }
  intros E. apply parseFinish_Err in E. destruct E; congruence.
Qed.

End Translator.

(** ** The store *)

Section Digest.
Local Open Scope Z_scope.

(** The first and the last round constant of [crypto/sha256]. *)
Lemma K_ends : nth 0 Sha256._K 0 = 0x428a2f98 /\ nth 63 Sha256._K 0 = 0xc67178f2.
Proof. split; reflexivity. Qed.

(** The digest of the README's example. *)
Lemma sha256_hello_world :
  generateSHA256Hash "hello world"
  = "b94d27b9934d3e08a52e52d7da7dabfac484efe37a5380ee9088f7ace2efcde9"%string.
Proof. vm_compute. reflexivity. Qed.

Lemma length_be_bytes (n : nat) (x : Z) : length (Sha256.be_bytes n x) = n.
Proof. induction n as [|n IH]; cbn; [reflexivity|]. now rewrite IH. Qed.

Lemma length_Sum (p : list Z) : length (Sha256.Sum p) = 32%nat.
Proof.
  unfold Sha256.Sum, Sha256.digest_bytes.
  repeat rewrite length_app. repeat rewrite length_be_bytes. reflexivity.
Qed.

Lemma digit_hextable (n : Z) : In (Hex.digit n) Hex.hextable.
Proof.
  unfold Hex.digit.
  destruct (nth_in_or_default (Z.to_nat n) Hex.hextable "0"%char) as [Hin | ->];
    [exact Hin|].
  cbn. auto.
Qed.

Lemma EncodeToString_shape (src : list Z) :
  String.length (Hex.EncodeToString src) = (2 * length src)%nat
  /\ Forall (fun a => In a Hex.hextable) (list_ascii_of_string (Hex.EncodeToString src)).
Proof.
  induction src as [|v src [IH1 IH2]]; cbn [Hex.EncodeToString String.length
    list_ascii_of_string length].
  - split; [reflexivity|constructor].
  - split; [rewrite IH1; lia|].
    constructor; [apply digit_hextable|].
    constructor; [apply digit_hextable|exact IH2].
Qed.

(** [generateSHA256Hash] always yields a lower-case hexadecimal digest
    of sixty-four characters. *)
Lemma generateSHA256Hash_shape (s : string) : lowerHexDigest (generateSHA256Hash s).
Proof.
  unfold lowerHexDigest, generateSHA256Hash.
  destruct (EncodeToString_shape (Sha256.Sum (Bytes.of_string s))) as [E1 E2].
  split; [|exact E2]. rewrite E1, length_Sum. reflexivity.
Qed.

End Digest.

Section Store.
Context `{UnicodeTables}.
Local Open Scope Z_scope.

Lemma newAnalyzedString_ID (value : string) (now : Z) :
  ID (newAnalyzedString value now) = generateSHA256Hash value
  /\ Value (newAnalyzedString value now) = value.
Proof. split; reflexivity. Qed.

(** What a creation does to the store: nothing, or the insertion of the
    new record under a key that was free. *)
Lemma CreateStringHandler_cases (b : jsonBody) (now : Z) (stringStore : store) :
  (fst (CreateStringHandler b now stringStore) = stringStore
   /\ status (snd (CreateStringHandler b now stringStore)) <> StatusCreated)
  \/ exists value, ShouldBindJSON b = Ok value
       /\ stringStore !! generateSHA256Hash value = None
       /\ CreateStringHandler b now stringStore
          = (<[generateSHA256Hash value := newAnalyzedString value now]> stringStore,
             Response StatusCreated (JAnalyzed (newAnalyzedString value now))).
Proof.
  unfold CreateStringHandler.
  destruct (ShouldBindJSON b) as [value|r] eqn:Hb.
  - destruct (stringStore !! generateSHA256Hash value) eqn:Hl.
    + left. cbn. split; [reflexivity|discriminate].
    + right. exists value. auto.
  - left. split; [reflexivity|].
    destruct b as [v| | |err]; cbn in Hb.
    + destruct (String.eqb v ""); inversion Hb; subst; cbn; discriminate.
    + inversion Hb; subst; cbn; discriminate.
    + inversion Hb; subst; cbn; discriminate.
    + inversion Hb; subst; cbn; discriminate.
Qed.

(** What a deletion does to the store: nothing, or the removal of one
    record. *)
Lemma DeleteStringHandler_cases (stringValue : string) (stringStore : store) :
  fst (DeleteStringHandler stringValue stringStore) = stringStore
  \/ exists k, is_Some (stringStore !! k)
       /\ fst (DeleteStringHandler stringValue stringStore) = delete k stringStore.
Proof.
  unfold DeleteStringHandler.
  destruct (stringStore !! stringValue) eqn:H1.
  - right. exists stringValue. rewrite H1. eauto.
  - destruct (stringStore !! generateSHA256Hash stringValue) eqn:H2.
    + right. exists (generateSHA256Hash stringValue). rewrite H2. eauto.
    + now left.
Qed.

Lemma StoreInv_empty : StoreInv ∅.
Proof. intros k a Hk. rewrite lookup_empty in Hk. discriminate. Qed.

Lemma StoreInv_insert (stringStore : store) (value : string) (now : Z) :
  StoreInv stringStore ->
  StoreInv (<[generateSHA256Hash value := newAnalyzedString value now]> stringStore).
Proof.
  intros Hinv k a Hk.
  destruct (decide (generateSHA256Hash value = k)) as [<-|Hne].
  - rewrite lookup_insert_eq in Hk. injection Hk as <-. split; reflexivity.
  - rewrite lookup_insert_ne in Hk by exact Hne. now apply Hinv.
Qed.

Lemma StoreInv_delete (stringStore : store) (k : string) :
  StoreInv stringStore -> StoreInv (delete k stringStore).
Proof.
  intros Hinv k' a Hk. apply lookup_delete_Some in Hk. now apply Hinv.
Qed.

(** Every operation keeps the invariant and changes the store by at
    most one insertion under a free key or one deletion. *)
Lemma perform_cases (op : operation) (stringStore : store) :
  fst (perform op stringStore) = stringStore
  \/ (exists value now,
        stringStore !! generateSHA256Hash value = None
        /\ fst (perform op stringStore)
           = <[generateSHA256Hash value := newAnalyzedString value now]> stringStore)
  \/ (exists k, is_Some (stringStore !! k)
        /\ fst (perform op stringStore) = delete k stringStore).
Proof.
  destruct op as [b tm|tok|tok]; cbn [perform fst].
  - destruct (CreateStringHandler_cases b tm stringStore) as [[E _]|(v & _ & Hl & E)].
    + now left.
    + right. left. exists v, tm. rewrite E. auto.
  - now left.
  - destruct (DeleteStringHandler_cases tok stringStore) as [E|(k & Hk & E)].
    + now left.
    + right. right. now exists k.
Qed.

Lemma perform_StoreInv (op : operation) (stringStore : store) :
  StoreInv stringStore -> StoreInv (fst (perform op stringStore)).
Proof.
  intros Hinv.
  destruct (perform_cases op stringStore) as [->|[(v & tm & _ & ->)|(k & _ & ->)]];
    auto using StoreInv_insert, StoreInv_delete.
Qed.

Lemma storeAfter_snoc (ops : list operation) (op : operation) :
  storeAfter (ops ++ [op]) = fst (perform op (storeAfter ops)).
Proof. unfold storeAfter. now rewrite fold_left_app. Qed.

Lemma storeAfter_StoreInv (ops : list operation) : StoreInv (storeAfter ops).
Proof.
  induction ops as [|op ops IH] using rev_ind.
  - apply StoreInv_empty.
  - rewrite storeAfter_snoc. now apply perform_StoreInv.
Qed.

(** The concurrent system keeps the invariant too, whatever the
    schedule. *)
Lemma step_StoreInv (st st' : store * list creation) :
  step st st' ->
  StoreInv (fst st) /\ Forall wellFormed (snd st) ->
  StoreInv (fst st') /\ Forall wellFormed (snd st').
Proof.
  intros Hstep [Hinv Hwf]. destruct Hstep as [s s' ts i t t' Hi Hrun Hs].
  cbn [fst snd] in *.
  assert (Ht : wellFormed t) by (eapply Forall_lookup_1; eauto).
  destruct t as [v tm|new|r]; cbn [creationStep] in Hs.
  - destruct (s !! generateSHA256Hash v); injection Hs as <- <-;
      (split; [exact Hinv|]); apply Forall_insert; cbn; eauto.
  - injection Hs as <- <-. destruct Ht as (v & tm & ->).
    split; [now apply StoreInv_insert|]. apply Forall_insert; cbn; auto.
  - injection Hs as <- <-. split; [exact Hinv|]. apply Forall_insert; cbn; auto.
Qed.

(** A creation that runs its two critical sections back to back is
    [CreateStringHandler]. *)
Lemma creation_alone (value : string) (now : Z) (stringStore : store) :
  value <> ""%string ->
  let '(s1, t1) := creationStep stringStore (AtCheck value now) in
  let '(s2, t2) := creationStep s1 t1 in
  exists r, t2 = Finished r
            /\ CreateStringHandler (JsonValue value) now stringStore = (s2, r).
Proof.
  intros Hv. unfold CreateStringHandler. cbn [ShouldBindJSON creationStep].
  apply String.eqb_neq in Hv. rewrite Hv.
  destruct (stringStore !! generateSHA256Hash value); cbn [creationStep]; eauto.
Qed.

End Store.

Section Excerpt.
Import Utf8.
Local Open Scope Z_scope.

Lemma excerpt_valid (r : Z) :
  ValidRune r = true -> Unicode.MaxASCII < r ->
  ValidRune (@lowerTable excerptTables r) = true.
Proof. intros Hr Ha. excerpt_cases. Qed.

Lemma excerpt_idempotent (r : Z) :
  ValidRune r = true -> Unicode.MaxASCII < r ->
  @Unicode.ToLower excerptTables (@lowerTable excerptTables r)
  = @lowerTable excerptTables r.
Proof. intros Hr Ha. excerpt_cases. Qed.

Lemma excerpt_class (r : Z) :
  ValidRune r = true -> Unicode.MaxASCII < r ->
  @alphanumeric excerptTables (@lowerTable excerptTables r)
  = @alphanumeric excerptTables r.
Proof. intros Hr Ha. excerpt_cases. Qed.

End Excerpt.

(** * The claims *)

Section AnalyzerClaims.
Context `{UnicodeTables}.
Import Utf8.
Local Open Scope Z_scope.

(** C7 (as the code has it).  Under the two facts about Go's case
    tables that the excerpt above shares (lower-casing maps scalar values
    to scalar values and keeps the letter-or-number class),
    [isPalindrome s] holds exactly when the skeleton of [s] (drop every
    rune that is neither letter nor number, lower-case the rest) equals
    its own reverse; the empty string and every string without letters
    and numbers are palindromes, and so is "A man, a plan, a canal:
    Panama".  The numbers are those of [unicode.IsNumber], not the digits
    only: on the strings whose numbers are all digits, and on these only
    in general, this is the sequence of letters and digits of the spec. *)
Theorem isPalindrome_skeleton :
  (forall r, ValidRune r = true -> Unicode.MaxASCII < r -> ValidRune (lowerTable r) = true) ->
  (forall r, ValidRune r = true -> Unicode.MaxASCII < r ->
             alphanumeric (lowerTable r) = alphanumeric r) ->
  (forall s, IsPalindrome (analyzeString s) = true <-> skeleton s = rev (skeleton s))
  /\ IsPalindrome (analyzeString "") = true
  /\ (forall s, Forall (fun r => alphanumeric r = false) (runes s) ->
                IsPalindrome (analyzeString s) = true)
  /\ IsPalindrome (analyzeString "A man, a plan, a canal: Panama") = true
  /\ (forall digitTable s,
        Forall (fun r => Unicode.IsNumber r = IsDigit digitTable r) (runes s) ->
        (IsPalindrome (analyzeString s) = true
         <-> lettersAndDigits digitTable s = rev (lettersAndDigits digitTable s))).
Proof.
  intros Hvalid Hclass.
  assert (Hiff : forall s, isPalindrome s = true <-> skeleton s = rev (skeleton s)).
  { intros s. rewrite isPalindrome_rev.
    now rewrite (filteredRunes_skeleton Hvalid Hclass). }
  cbn [analyzeString IsPalindrome]. split; [exact Hiff|]. split; [|split; [|split]].
  - reflexivity.
  - intros s Hnone. apply Hiff. unfold skeleton.
    replace (List.filter alphanumeric (runes s)) with (@nil Z); [reflexivity|].
    induction Hnone as [|r rs Hr _ IH]; cbn [List.filter]; [reflexivity|].
    now rewrite Hr.
  - vm_compute. reflexivity.
  - intros digitTable s Hdigits. rewrite Hiff.
    replace (lettersAndDigits digitTable s) with (skeleton s); [reflexivity|].
    unfold skeleton, lettersAndDigits. f_equal.
    induction Hdigits as [|r rs Hr _ IH]; cbn [List.filter]; [reflexivity|].
    unfold alphanumeric at 1. rewrite Hr. now rewrite IH.
Qed.

(** C8.  The counts of the character-frequency map of [analyzeString s]
    add up to its [Length], the number of code points of [s], and every
    code point of [s] is a key of the map with a count of at least one. *)
Theorem frequency_map_complete (s : string) :
  sumValues (CharacterFrequencyMap (analyzeString s)) = Length (analyzeString s)
  /\ forall c, In c (runes s) ->
       exists n, CharacterFrequencyMap (analyzeString s) !! c = Some n /\ 1 <= n.
Proof.
  cbn [analyzeString CharacterFrequencyMap Length].
  unfold getCharacterFrequencyMap, calculateLength.
  change (fun (freqMap : gmap Z Z) (char : Z) =>
            <[char := default 0 (freqMap !! char) + 1]> freqMap) with countRune.
  split.
  - rewrite fold_countRune_sum. unfold sumValues. rewrite map_fold_empty. lia.
  - intros c Hc. destruct (fold_countRune_lookup (runes s) ∅ c Hc) as (n & Hn & Hle).
    exists n. split; [exact Hn|]. rewrite lookup_empty in Hle. cbn in Hle. lia.
Qed.

End AnalyzerClaims.

(** A Russian palindrome, read with the excerpt of the tables. *)
Lemma isPalindrome_skeleton_witness :
  IsPalindrome (@analyzeString excerptTables "А роза упала на лапу Азора") = true.
Proof.
  apply (proj1 (@isPalindrome_skeleton excerptTables excerpt_valid excerpt_class)).
  vm_compute. reflexivity.
Defined.

(** "a½": the fraction is a number and no digit.  The code keeps it, so
    the string is no palindrome, while its letters and digits, the one
    letter "a", read the same in both directions. *)
Lemma number_that_is_no_digit :
  runes "a½" = [97; 189]%Z
  /\ @Unicode.IsNumber excerptTables 189 = true
  /\ IsDigit excerptDigit 189 = false
  /\ IsPalindrome (@analyzeString excerptTables "a½") = false
  /\ @lettersAndDigits excerptTables excerptDigit "a½" = [97]%Z
  /\ @lettersAndDigits excerptTables excerptDigit "a½"
     = rev (@lettersAndDigits excerptTables excerptDigit "a½").
Proof. repeat split; vm_compute; reflexivity. Qed.

Lemma frequency_map_complete_witness :
  exists n, CharacterFrequencyMap (@analyzeString excerptTables "hello world") !! 108%Z
            = Some n /\ (1 <= n)%Z.
Proof.
  apply (proj2 (@frequency_map_complete excerptTables "hello world")).
  vm_compute. auto 10.
Defined.

Section TranslatorClaims.
Context `{UnicodeTables}.
Import Utf8 Regexp RegexpFacts.
Local Open Scope Z_scope.

(** The rules before the length rules leave the length keys alone. *)
Lemma parsePalindrome_other (lq k : string) (pf : gmap string value) :
  k <> "is_palindrome"%string -> parsePalindrome lq pf !! k = pf !! k.
Proof.
  intros Hk. unfold parsePalindrome.
  destruct (_ || _); [|reflexivity]. now rewrite lookup_insert_ne.
Qed.

Lemma parseWordCount_other (lq k : string) (pf pf' : gmap string value) :
  k <> "word_count"%string -> parseWordCount lq pf = Ok pf' -> pf' !! k = pf !! k.
Proof.
  intros Hk. unfold parseWordCount.
  repeat match goal with
         | |- context [match ?x with _ => _ end] => destruct x
         end;
  intros [= <-]; try reflexivity; now rewrite lookup_insert_ne.
Qed.

Lemma parseContainsChar_other (lq k : string) (pf : gmap string value) :
  k <> "contains_character"%string -> parseContainsChar lq pf !! k = pf !! k.
Proof.
  intros Hk. unfold parseContainsChar.
  repeat match goal with
         | |- context [match ?x with _ => _ end] => destruct x
         end;
  try reflexivity; now rewrite lookup_insert_ne.
Qed.

(** The final check on a result whose bounds cross. *)
Lemma parseFinish_crossed (pf : gmap string value) (minLen maxLen : Z) :
  pf !! "min_length"%string = Some (VInt minLen) ->
  pf !! "max_length"%string = Some (VInt maxLen) ->
  maxLen < minLen ->
  parseFinish pf = Err ConflictingMinMax.
Proof.
  intros Hmin Hmax Hlt. unfold parseFinish, checkMinMax. rewrite Hmin, Hmax.
  cbn [asInt]. apply Z.ltb_lt in Hlt. now rewrite Hlt.
Qed.

(** "longer than 10" and "shorter than 5" as the first phrases of their
    kind leave [min_length = 11] above [max_length = 4]; "exactly N"
    then conflicts with one of the two, whatever [N] is. *)
Lemma parse_longer10_shorter5 (lq m1 m2 : string) (g1 g2 : list string)
    (pf : gmap string value) :
  FindStringSubmatch reLongerThan lq = m1 :: "10"%string :: g1 ->
  FindStringSubmatch reShorterThan lq = m2 :: "5"%string :: g2 ->
  pf !! "min_length"%string = None ->
  pf !! "max_length"%string = None ->
  exists e, (pf2 <~ parseLongerThan lq pf;
             pf3 <~ parseShorterThan lq pf2;
             pf4 <~ parseExactly lq pf3;
             parseFinish (parseContainsChar lq pf4)) = Err e
            /\ ConflictingFilters e.
Proof.
  intros Hlong Hshort Hmin Hmax.
  unfold parseLongerThan. rewrite Hlong, Hmin.
  change (Strconv.Atoi "10") with (Some 10). cbn [asInt bind].
  change (GoInt.add 10 1) with 11.
  unfold parseShorterThan. rewrite Hshort.
  rewrite lookup_insert_ne by discriminate. rewrite Hmax.
  change (Strconv.Atoi "5") with (Some 5). cbn [asInt bind].
  change (GoInt.sub 5 1) with 4.
  set (pf3 := <["max_length"%string := VInt 4]> (<["min_length"%string := VInt 11]> pf)).
  assert (Hmin3 : pf3 !! "min_length"%string = Some (VInt 11)).
  { unfold pf3. rewrite lookup_insert_ne by discriminate. apply lookup_insert_eq. }
  assert (Hmax3 : pf3 !! "max_length"%string = Some (VInt 4)).
  { unfold pf3. apply lookup_insert_eq. }
  assert (Hfin : parseFinish (parseContainsChar lq pf3) = Err ConflictingMinMax).
  { apply (parseFinish_crossed _ 11 4); [| |lia];
      rewrite parseContainsChar_other by discriminate; assumption. }
  unfold parseExactly. rewrite Hmin3, Hmax3. cbn [asInt].
  destruct (FindStringSubmatch reExactlyLength lq) as [|m [|d g]]; cbn [bind].
  1,2: exists ConflictingMinMax; split; [exact Hfin|now right].
  destruct (Strconv.Atoi d) as [num|]; cbn [bind].
  2:{ exists ConflictingMinMax. split; [exact Hfin|now right]. }
  exists ConflictingLengthFilters. split; [|now left].
  destruct (num <? 11) eqn:E1; [reflexivity|].
  destruct (4 <? num) eqn:E2; [reflexivity|]. lia.
Qed.

(** C10.  Under the two facts about Go's case tables that make
    lower-casing idempotent (it maps scalar values to scalar values and a
    lower-cased rune has no further lower case), translating a query and
    translating its lower-cased text give the same predicate set or the
    same error. *)
Theorem translate_case_invariant (query : string) :
  (forall r, ValidRune r = true -> Unicode.MaxASCII < r -> ValidRune (lowerTable r) = true) ->
  (forall r, ValidRune r = true -> Unicode.MaxASCII < r ->
             Unicode.ToLower (lowerTable r) = lowerTable r) ->
  ParseNaturalLanguageQuery (Strings.ToLower query) = ParseNaturalLanguageQuery query.
Proof.
  intros Hvalid Hidem. unfold ParseNaturalLanguageQuery.
  now rewrite (ToLower_idempotent Hvalid Hidem).
Qed.

(** C1 (as the code has it).  When the leftmost match of
    [<number-word> word] in the lower-cased query names [single] or
    [one], the word-count rule sets [word_count] to 1; for [two],
    [three], [four], [five] it sets 2, 3, 4, 5; for [six] to [ten], the
    other words of the pattern, the translation fails with
    [UnsupportedWordCount].  A translation fails with
    [UnsupportedWordCount] in no other case. *)
Theorem word_count_rule_by_name :
  (forall (query m w : string) (gs : list string),
     FindStringSubmatch reWordCount (Strings.ToLower query) = m :: w :: gs ->
     let sets n := forall parsedFilters,
       parseWordCount (Strings.ToLower query) parsedFilters
       = Ok (<["word_count"%string := VInt n]> parsedFilters) in
     (In w ["single"; "one"; "two"; "three"; "four"; "five"]%string
      \/ In w unsupportedWords)
     /\ (w = "single"%string \/ w = "one"%string -> sets 1)
     /\ (w = "two"%string -> sets 2)
     /\ (w = "three"%string -> sets 3)
     /\ (w = "four"%string -> sets 4)
     /\ (w = "five"%string -> sets 5)
     /\ (In w unsupportedWords ->
         ParseNaturalLanguageQuery query = Err (UnsupportedWordCount w)))
  /\ (forall (query w : string),
        ParseNaturalLanguageQuery query = Err (UnsupportedWordCount w) ->
        In w unsupportedWords
        /\ exists m gs,
             FindStringSubmatch reWordCount (Strings.ToLower query) = m :: w :: gs).
Proof.
  split.
  - intros query m w gs Hf sets.
    assert (Hrule := fun pf => parseWordCount_named _ _ _ _ pf Hf).
    destruct (reWordCount_sound _ _ _ Hf) as (w' & Hw & _ & [= <-] & _).
    split.
    { unfold numberWords, unsupportedWords in *. cbn [In] in *. tauto. }
    repeat split; unfold sets.
    + intros [-> | ->] pf; apply Hrule.
    + intros -> pf. apply Hrule.
    + intros -> pf. apply Hrule.
    + intros -> pf. apply Hrule.
    + intros -> pf. apply Hrule.
    + intros Hun. apply ParseNaturalLanguageQuery_unsupported.
      rewrite Hrule. apply (supportedWordCount_cases w Hw) in Hun. now rewrite Hun.
  - intros query w Hfail. apply ParseNaturalLanguageQuery_unsupported in Hfail.
    apply parseWordCount_Err in Hfail.
    destruct Hfail as (m & w' & gs & Hf & [= <-] & Hnone).
    destruct (reWordCount_sound _ _ _ Hf) as (w' & Hw & _ & [= <-] & _).
    split; [now apply supportedWordCount_cases|]. now exists m, gs.
Qed.

(** C6 (as the code has it).  A query whose first "longer than N" phrase
    reads 10 and whose first "shorter than N" phrase reads 5 fails with
    [ConflictingFilters], unless its word-count rule has already failed;
    and whenever the rules end with [min_length] above [max_length], the
    translation fails with [ConflictingFilters].  Both conflict errors
    are answered with status 422. *)
Theorem conflicting_length_bounds :
  (forall (query m1 m2 : string) (g1 g2 : list string) (pf : gmap string value),
     FindStringSubmatch reLongerThan (Strings.ToLower query) = m1 :: "10"%string :: g1 ->
     FindStringSubmatch reShorterThan (Strings.ToLower query) = m2 :: "5"%string :: g2 ->
     parseWordCount (Strings.ToLower query) (parsePalindrome (Strings.ToLower query) ∅)
     = Ok pf ->
     exists e, ParseNaturalLanguageQuery query = Err e /\ ConflictingFilters e)
  /\ (forall (query : string) (pf : gmap string value) (minLen maxLen : Z),
        parseRules (Strings.ToLower query) = Ok pf ->
        pf !! "min_length"%string = Some (VInt minLen) ->
        pf !! "max_length"%string = Some (VInt maxLen) ->
        maxLen < minLen ->
        ParseNaturalLanguageQuery query = Err ConflictingMinMax
        /\ ConflictingFilters ConflictingMinMax)
  /\ (forall e, ConflictingFilters e -> parseErrorStatus e = StatusUnprocessableEntity).
Proof.
  split; [|split].
  - intros query m1 m2 g1 g2 pf Hlong Hshort Hwc.
    unfold ParseNaturalLanguageQuery, parseRules.
    set (lq := Strings.ToLower query) in *. rewrite Hwc. cbn [bind].
    destruct (parse_longer10_shorter5 lq m1 m2 g1 g2 pf Hlong Hshort) as (e & He & Hc).
    + rewrite (parseWordCount_other lq "min_length" _ _ ltac:(discriminate) Hwc).
      rewrite parsePalindrome_other by discriminate. apply lookup_empty.
    + rewrite (parseWordCount_other lq "max_length" _ _ ltac:(discriminate) Hwc).
      rewrite parsePalindrome_other by discriminate. apply lookup_empty.
    + exists e. split; [|exact Hc]. rewrite <- He.
      destruct (parseLongerThan lq pf) as [pf2|]; cbn [bind]; [|reflexivity].
      destruct (parseShorterThan lq pf2) as [pf3|]; cbn [bind]; [|reflexivity].
      destruct (parseExactly lq pf3) as [pf4|]; cbn [bind]; reflexivity.
  - intros query pf minLen maxLen Hrules Hmin Hmax Hlt.
    split; [|now right].
    unfold ParseNaturalLanguageQuery. rewrite Hrules. cbn [bind].
    now apply (parseFinish_crossed pf minLen maxLen).
  - intros e [-> | ->]; vm_compute; reflexivity.
Qed.

(** C2.  The translator finds nothing in "strings containing the letter
    z": the text holds "containing", not "contains the letter".  What
    the contains-character rule does capture is the one lower-case
    letter after "contains the letter ". *)
Theorem containing_the_letter_z :
  ParseNaturalLanguageQuery "strings containing the letter z" = Err UnparseableQuery
  /\ ParseNaturalLanguageQuery "strings that contains the letter z"
     = Ok {["contains_character"%string := VString "z"]}
  /\ (forall (lq m x : string) (gs : list string) (pf : gmap string value),
        FindStringSubmatch reContainsChar lq = m :: x :: gs ->
        parseContainsChar lq pf = <["contains_character"%string := VString x]> pf
        /\ m = "contains the letter " +:+ x
        /\ exists a, x = String a EmptyString /\ Regexp.lower a = true).
Proof.
  split; [vm_compute; reflexivity|]. split; [vm_compute; reflexivity|].
  intros lq m x gs pf Hf. split.
  - unfold parseContainsChar. now rewrite Hf.
  - apply FindStringSubmatch_sound in Hf.
    destruct Hf as (pre & s' & mm & -> & Hin & <- & Hg).
    unfold reContainsChar in Hin. apply in_matches_Seq in Hin.
    destruct Hin as (m1 & m2 & H1 & H2 & ->).
    apply in_matches_Lit in H1. destruct H1 as (t & -> & ->).
    apply in_matches_Group in H2. destruct H2 as (m0 & H0 & ->).
    cbn [rest consumed groups app] in *.
    cbn [matches] in H0. destruct t as [|a t]; [destruct H0|].
    destruct (lower a) eqn:Ha; [|destruct H0].
    destruct H0 as [<-|[]]. cbn [consumed groups] in *.
    injection Hg as <- <-. split; [reflexivity|]. now exists a.
Qed.

End TranslatorClaims.

(** The README's query "all single word palindromic strings", in capitals. *)
Lemma word_count_rule_by_name_witness :
  parseWordCount (@Strings.ToLower excerptTables "All Single Word Palindromic Strings") ∅
  = Ok (<["word_count"%string := VInt 1]> ∅).
Proof.
  destruct (proj1 (@word_count_rule_by_name excerptTables)
              "All Single Word Palindromic Strings" "single word" "single" []
              ltac:(vm_compute; reflexivity)) as (_ & Hone & _).
  apply Hone. left. reflexivity.
Defined.

(** "six" is a word of the pattern, and the translation of "six word
    strings" fails on it. *)
Lemma six_word_strings_unsupported :
  Regexp.FindStringSubmatch reWordCount
    (@Strings.ToLower excerptTables "six word strings")
  = ["six word"; "six"]%string
  /\ @ParseNaturalLanguageQuery excerptTables "six word strings"
     = Err (UnsupportedWordCount "six").
Proof. split; vm_compute; reflexivity. Qed.

Lemma conflicting_length_bounds_witness :
  exists e,
    @ParseNaturalLanguageQuery excerptTables "strings longer than 10 and shorter than 5"
    = Err e
    /\ ConflictingFilters e.
Proof.
  apply (proj1 (@conflicting_length_bounds excerptTables)
           "strings longer than 10 and shorter than 5"
           "longer than 10" "shorter than 5" [] [] ∅);
    vm_compute; reflexivity.
Defined.

(** The translator reads the first "longer than N" only: this query
    holds both "longer than 10" and "shorter than 5" and translates to
    the bounds 4 and 4. *)
Lemma first_longer_than_decides :
  Strings.Contains
    (@Strings.ToLower excerptTables "strings longer than 3 or longer than 10 but shorter than 5")
    "longer than 10" = true
  /\ Strings.Contains
       (@Strings.ToLower excerptTables "strings longer than 3 or longer than 10 but shorter than 5")
       "shorter than 5" = true
  /\ @ParseNaturalLanguageQuery excerptTables
       "strings longer than 3 or longer than 10 but shorter than 5"
     = Ok (<["max_length"%string := VInt 4]> {["min_length"%string := VInt 4]}).
Proof. repeat split; vm_compute; reflexivity. Qed.

Lemma translate_case_invariant_witness :
  @ParseNaturalLanguageQuery excerptTables
    (@Strings.ToLower excerptTables "Palindromic СТРОКИ Longer Than 3, One Word")
  = @ParseNaturalLanguageQuery excerptTables "Palindromic СТРОКИ Longer Than 3, One Word".
Proof.
  exact (@translate_case_invariant excerptTables
           "Palindromic СТРОКИ Longer Than 3, One Word"
           excerpt_valid excerpt_idempotent).
Defined.

(** On any record, a request with an invalid parameter leaves the loop
    through one of its [400] returns. *)
Lemma filterRecord_invalid (c : gmap string string) (str : AnalyzedString)
    (fs : gmap string value) :
  invalidParams c -> exists msg, filterRecord c str fs = Err (badRequest msg).
Proof.
  unfold invalidParams, filterRecord.
  generalize (Query c "is_palindrome") (Query c "min_length") (Query c "max_length")
    (Query c "word_count") (Query c "contains_character").
  intros p1 p2 p3 p4 p5 Hinv.
  destruct (String.eqb_spec p1 ""); cbn [negb bind];
    [|destruct (Strconv.ParseBool p1); cbn [bind]; [|eauto]];
  (destruct (String.eqb_spec p2 ""); cbn [negb bind];
    [|destruct (nonNegative p2); cbn [bind]; [|eauto]]);
  (destruct (String.eqb_spec p3 ""); cbn [negb bind];
    [|destruct (nonNegative p3); cbn [bind]; [|eauto]]);
  (destruct (String.eqb_spec p4 ""); cbn [negb bind];
    [|destruct (nonNegative p4); cbn [bind]; [|eauto]]);
  (destruct (String.eqb_spec p5 ""); cbn [negb bind];
    [|destruct (runes p5) as [|r [|r' rs]] eqn:E5; [eauto| |eauto]]);
  exfalso; cbn [length] in *; intuition congruence.
Qed.

Section StoreClaims.
Context `{UnicodeTables}.
Local Open Scope Z_scope.

(** C3.  On the empty store the loop of [GetFilteredStringsHandler] has
    no record to visit, and the parameters are read inside the loop: any
    request, also one with [is_palindrome=maybe], is answered [200] with
    no data and no filters.  On a store with a record, a request with an
    invalid parameter is rejected with [400] and no data. *)
Theorem invalid_filter_on_empty_store :
  (forall c : gmap string string,
     GetFilteredStringsHandler c ∅ = Response StatusOK (JFiltered [] 0 ∅))
  /\ invalidParams {["is_palindrome"%string := "maybe"%string]}
  /\ GetFilteredStringsHandler {["is_palindrome"%string := "maybe"%string]} ∅
     = Response StatusOK (JFiltered [] 0 ∅)
  /\ (forall (c : gmap string string) (stringStore : store),
        stringStore <> ∅ -> invalidParams c ->
        exists msg, GetFilteredStringsHandler c stringStore = badRequest msg).
Proof.
  assert (Hempty : forall c : gmap string string,
            GetFilteredStringsHandler c ∅ = Response StatusOK (JFiltered [] 0 ∅)).
  { intros c. unfold GetFilteredStringsHandler. now rewrite map_to_list_empty. }
  split; [exact Hempty|]. split; [|split; [apply Hempty|]].
  { left. split; [discriminate|reflexivity]. }
  intros c stringStore Hne Hinv. unfold GetFilteredStringsHandler.
  destruct (map_to_list stringStore) as [|[k str] strs] eqn:Hl.
  { apply map_to_list_empty_iff in Hl. contradiction. }
  cbn [map snd filterLoop filters].
  destruct (filterRecord_invalid c str ∅ Hinv) as (msg & ->).
  now exists msg.
Qed.

(** C4.  Two creations of "hello" on the empty store, scheduled check,
    check, insert, insert: both pass the duplicate check before either
    inserts, both answer [201 Created], and the second insertion
    replaces the record of the first. *)
Theorem concurrent_creations_both_succeed (now1 now2 : Z) :
  let first := newAnalyzedString "hello" now1 in
  let second := newAnalyzedString "hello" now2 in
  rtc step
    (∅, [AtCheck "hello" now1; AtCheck "hello" now2])
    (<[ID second := second]> (<[ID first := first]> ∅),
     [Finished (Response StatusCreated (JAnalyzed first));
      Finished (Response StatusCreated (JAnalyzed second))])
  /\ (<[ID second := second]> (<[ID first := first]> ∅) : store)
     = {[generateSHA256Hash "hello" := second]}.
Proof.
  intros first second. split.
  - eapply rtc_l.
    { apply (step_at ∅ ∅ _ 0 (AtCheck "hello" now1) (AtInsert first));
        [reflexivity|discriminate|].
      cbn [creationStep]. now rewrite lookup_empty. }
    eapply rtc_l.
    { apply (step_at ∅ ∅ _ 1 (AtCheck "hello" now2) (AtInsert second));
        [reflexivity|discriminate|].
      cbn [creationStep]. now rewrite lookup_empty. }
    eapply rtc_l.
    { apply (step_at ∅ (<[ID first := first]> ∅) _ 0 (AtInsert first)
               (Finished (Response StatusCreated (JAnalyzed first))));
        [reflexivity|discriminate|reflexivity]. }
    eapply rtc_l.
    { apply (step_at (<[ID first := first]> ∅)
               (<[ID second := second]> (<[ID first := first]> ∅)) _ 1 (AtInsert second)
               (Finished (Response StatusCreated (JAnalyzed second))));
        [reflexivity|discriminate|reflexivity]. }
    apply rtc_refl.
  - change (ID second) with (generateSHA256Hash "hello").
    change (ID first) with (generateSHA256Hash "hello").
    rewrite insert_insert_eq. apply insert_empty.
Qed.

(** C5 (as the code has it).  After a successful creation of [value],
    looking the returned [id] up finds the created record; looking
    [value] up finds it too when no record is stored under the key
    [value] itself, and finds that other record when one is. *)
Theorem create_then_get (value : string) (now : Z) (stringStore stringStore' : store)
    (a : AnalyzedString) :
  CreateStringHandler (JsonValue value) now stringStore
  = (stringStore', Response StatusCreated (JAnalyzed a)) ->
  GetSpecificStringHandler (ID a) stringStore' = Response StatusOK (JAnalyzed a)
  /\ (stringStore !! value = None ->
      GetSpecificStringHandler value stringStore' = Response StatusOK (JAnalyzed a))
  /\ (forall other, stringStore !! value = Some other ->
        GetSpecificStringHandler value stringStore' = Response StatusOK (JAnalyzed other)).
Proof.
  intros Hc.
  destruct (CreateStringHandler_cases (JsonValue value) now stringStore)
    as [[_ Hst]|(v & Hb & Hfree & E)].
  { rewrite Hc in Hst. cbn in Hst. congruence. }
  rewrite E in Hc. cbn [ShouldBindJSON] in Hb.
  destruct (String.eqb value ""); [discriminate|]. injection Hb as <-.
  injection Hc as <- <-.
  set (a := newAnalyzedString value now).
  change (ID a) with (generateSHA256Hash value).
  split; [|split].
  - unfold GetSpecificStringHandler. now rewrite lookup_insert_eq.
  - intros Hnone. unfold GetSpecificStringHandler.
    destruct (decide (generateSHA256Hash value = value)) as [Heq|Hne].
    + rewrite Heq at 1. now rewrite lookup_insert_eq.
    + rewrite lookup_insert_ne by exact Hne. rewrite Hnone.
      now rewrite lookup_insert_eq.
  - intros other Hother. unfold GetSpecificStringHandler.
    rewrite lookup_insert_ne by congruence. now rewrite Hother.
Qed.

(** Every interleaving of creations keeps the records under their ids. *)
Lemma rtc_step_StoreInv (st st' : store * list creation) :
  rtc step st st' ->
  StoreInv (fst st) /\ Forall wellFormed (snd st) ->
  StoreInv (fst st') /\ Forall wellFormed (snd st').
Proof.
  induction 1 as [st|st st1 st2 Hstep _ IH]; [auto|].
  intros H0. apply IH. exact (step_StoreInv st st1 Hstep H0).
Qed.

(** C9.  The code keeps the first half of the invariant and breaks the
    second.  Kept, after any sequence of creations, look-ups and
    deletions and under every interleaving of concurrent creations:
    every record sits under its own [id], the lower-case SHA-256 hex
    digest of its [value], so distinct records have distinct ids.  Kept
    only while the operations run one at a time: one more operation
    leaves the store as it is, inserts one new record under a key that
    was free, or deletes one record, so no stored record is changed.
    Broken by two concurrent creations of one value that read the clock
    at different times: both pass the duplicate check, the first inserts
    its record, and the insertion of the second puts another record,
    with another [created_at], in its place. *)
Theorem store_invariant :
  (forall ops : list operation,
     let stringStore := storeAfter ops in
     (forall k a, stringStore !! k = Some a ->
        ID a = k /\ ID a = generateSHA256Hash (Value a) /\ lowerHexDigest (ID a))
     /\ (forall k1 k2 a1 a2,
           stringStore !! k1 = Some a1 -> stringStore !! k2 = Some a2 ->
           k1 <> k2 -> ID a1 <> ID a2)
     /\ (forall op,
           let stringStore' := fst (perform op stringStore) in
           (stringStore' = stringStore
            \/ (exists value now,
                  stringStore !! generateSHA256Hash value = None
                  /\ stringStore'
                     = <[generateSHA256Hash value := newAnalyzedString value now]>
                         stringStore)
            \/ (exists k, is_Some (stringStore !! k)
                          /\ stringStore' = delete k stringStore))
           /\ (forall k a a', stringStore !! k = Some a -> stringStore' !! k = Some a' ->
                              a' = a)))
  /\ (forall (ops : list operation) (ts : list creation) (stringStore' : store)
             (ts' : list creation),
        Forall wellFormed ts ->
        rtc step (storeAfter ops, ts) (stringStore', ts') ->
        (forall k a, stringStore' !! k = Some a ->
           ID a = k /\ ID a = generateSHA256Hash (Value a) /\ lowerHexDigest (ID a))
        /\ (forall k1 k2 a1 a2,
              stringStore' !! k1 = Some a1 -> stringStore' !! k2 = Some a2 ->
              k1 <> k2 -> ID a1 <> ID a2))
  /\ (forall (value : string) (now1 now2 : Z),
        now1 <> now2 ->
        let first := newAnalyzedString value now1 in
        let second := newAnalyzedString value now2 in
        let inserted : store := {[generateSHA256Hash value := first]} in
        let replaced : store := {[generateSHA256Hash value := second]} in
        rtc step
          (∅, [AtCheck value now1; AtCheck value now2])
          (inserted,
           [Finished (Response StatusCreated (JAnalyzed first)); AtInsert second])
        /\ step
             (inserted,
              [Finished (Response StatusCreated (JAnalyzed first)); AtInsert second])
             (replaced,
              [Finished (Response StatusCreated (JAnalyzed first));
               Finished (Response StatusCreated (JAnalyzed second))])
        /\ inserted !! generateSHA256Hash value = Some first
        /\ replaced !! generateSHA256Hash value = Some second
        /\ second <> first
        /\ ID second = ID first /\ Value second = Value first
        /\ Properties second = Properties first).
Proof.
  assert (Hkept : forall stringStore : store,
            StoreInv stringStore ->
            (forall k a, stringStore !! k = Some a ->
               ID a = k /\ ID a = generateSHA256Hash (Value a) /\ lowerHexDigest (ID a))
            /\ (forall k1 k2 a1 a2,
                  stringStore !! k1 = Some a1 -> stringStore !! k2 = Some a2 ->
                  k1 <> k2 -> ID a1 <> ID a2)).
  { intros stringStore Hinv. split.
    - intros k a Hk. destruct (Hinv k a Hk) as [E1 E2].
      split; [exact E1|]. split; [exact E2|]. rewrite E2. apply generateSHA256Hash_shape.
    - intros k1 k2 a1 a2 H1 H2 Hne.
      destruct (Hinv k1 a1 H1) as [-> _]. destruct (Hinv k2 a2 H2) as [-> _]. exact Hne. }
  split; [|split].
  - intros ops stringStore. pose proof (storeAfter_StoreInv ops) as Hinv.
    fold stringStore in Hinv. destruct (Hkept stringStore Hinv) as [Hid Hdistinct].
    split; [exact Hid|]. split; [exact Hdistinct|].
    intros op stringStore'. pose proof (perform_cases op stringStore) as Hcases.
    fold stringStore' in Hcases. split; [exact Hcases|].
    intros k a a' Hk Hk'.
    destruct Hcases as [E|[(v & tm & Hfree & E)|(k0 & _ & E)]]; rewrite E in Hk'.
    + congruence.
    + rewrite lookup_insert_ne in Hk' by congruence. congruence.
    + apply lookup_delete_Some in Hk'. destruct Hk' as [_ Hk']. congruence.
  - intros ops ts stringStore' ts' Hwf Hrun. apply Hkept.
    exact (proj1 (rtc_step_StoreInv _ _ Hrun (conj (storeAfter_StoreInv ops) Hwf))).
  - intros value now1 now2 Hnow first second inserted replaced.
    assert (Hinserted : (<[ID first := first]> ∅ : store) = inserted).
    { change (ID first) with (generateSHA256Hash value). apply insert_empty. }
    assert (Hreplaced : (<[ID second := second]> inserted : store) = replaced).
    { change (ID second) with (generateSHA256Hash value). unfold inserted, replaced.
      rewrite <- !insert_empty. apply insert_insert_eq. }
    split; [|split; [|split; [|split; [|split]]]].
    + eapply rtc_l.
      { apply (step_at ∅ ∅ _ 0 (AtCheck value now1) (AtInsert first));
          [reflexivity|discriminate|].
        cbn [creationStep]. now rewrite lookup_empty. }
      eapply rtc_l.
      { apply (step_at ∅ ∅ _ 1 (AtCheck value now2) (AtInsert second));
          [reflexivity|discriminate|].
        cbn [creationStep]. now rewrite lookup_empty. }
      eapply rtc_l.
      { apply (step_at ∅ inserted _ 0 (AtInsert first)
                 (Finished (Response StatusCreated (JAnalyzed first))));
          [reflexivity|discriminate|].
        cbn [creationStep]. now rewrite Hinserted. }
      apply rtc_refl.
    + exact (step_at inserted replaced
               [Finished (Response StatusCreated (JAnalyzed first)); AtInsert second]
               1 (AtInsert second)
               (Finished (Response StatusCreated (JAnalyzed second)))
               eq_refl ltac:(discriminate)
               ltac:(cbn [creationStep]; now rewrite Hreplaced)).
    + apply lookup_singleton_eq.
    + apply lookup_singleton_eq.
    + intros E. apply (f_equal CreatedAt) in E. cbn in E. congruence.
    + repeat split.
Qed.

End StoreClaims.

Lemma create_then_get_witness :
  let hello := @newAnalyzedString excerptTables "hello" 7 in
  @CreateStringHandler excerptTables (JsonValue "hello") 7 ∅
  = (<[ID hello := hello]> ∅, Response StatusCreated (JAnalyzed hello))
  /\ GetSpecificStringHandler (ID hello) (<[ID hello := hello]> ∅)
     = Response StatusOK (JAnalyzed hello)
  /\ GetSpecificStringHandler "hello" (<[ID hello := hello]> ∅)
     = Response StatusOK (JAnalyzed hello).
Proof.
  intros hello.
  assert (Hc : @CreateStringHandler excerptTables (JsonValue "hello") 7 ∅
               = (<[ID hello := hello]> ∅, Response StatusCreated (JAnalyzed hello))).
  { unfold CreateStringHandler. cbn [ShouldBindJSON String.eqb Ascii.eqb].
    now rewrite lookup_empty. }
  split; [exact Hc|].
  destruct (@create_then_get excerptTables "hello" 7 ∅ _ _ Hc) as (Hid & Hvalue & _).
  split; [exact Hid|]. apply Hvalue. apply lookup_empty.
Defined.

(** The digest of "hello" stored as a value of its own: looking that
    value up finds the record of "hello", which is stored under it as
    its key, and not the record just created. *)
Lemma get_by_value_finds_other_record :
  let hello := @newAnalyzedString excerptTables "hello" 1 in
  let value := generateSHA256Hash "hello" in
  let created := @newAnalyzedString excerptTables value 2 in
  let stringStore : store := <[ID hello := hello]> ∅ in
  stringStore !! generateSHA256Hash value = None
  /\ @CreateStringHandler excerptTables (JsonValue value) 2 stringStore
     = (<[ID created := created]> stringStore, Response StatusCreated (JAnalyzed created))
  /\ GetSpecificStringHandler value (<[ID created := created]> stringStore)
     = Response StatusOK (JAnalyzed hello)
  /\ Value hello <> Value created.
Proof.
  intros hello value created stringStore.
  assert (Hne : generateSHA256Hash "hello" <> generateSHA256Hash value).
  { vm_compute. discriminate. }
  assert (Hfree : stringStore !! generateSHA256Hash value = None).
  { unfold stringStore. change (ID hello) with (generateSHA256Hash "hello").
    rewrite lookup_insert_ne by exact Hne. apply lookup_empty. }
  split; [exact Hfree|]. split; [|split].
  - unfold CreateStringHandler. cbn [ShouldBindJSON].
    replace (String.eqb value "") with false by (vm_compute; reflexivity).
    now rewrite Hfree.
  - unfold GetSpecificStringHandler.
    change (ID created) with (generateSHA256Hash value).
    rewrite lookup_insert_ne by (intros E; apply Hne; symmetry; exact E).
    unfold stringStore. change (ID hello) with value.
    now rewrite lookup_insert_eq.
  - vm_compute. discriminate.
Qed.

(** * Further properties of the handlers *)

Section Scenarios.
Context `{UnicodeTables}.
Local Open Scope Z_scope.

(** The translator's scenarios of the README and the spec. *)
Theorem translator_scenarios :
  ParseNaturalLanguageQuery "all single word palindromic strings"
  = Ok (<["word_count"%string := VInt 1]> {["is_palindrome"%string := VBool true]})
  /\ ParseNaturalLanguageQuery "strings longer than 10 characters"
     = Ok {["min_length"%string := VInt 11]}
  /\ ParseNaturalLanguageQuery "strings exactly 5 characters long"
     = Ok (<["max_length"%string := VInt 5]> {["min_length"%string := VInt 5]})
  /\ ParseNaturalLanguageQuery "strings with 3 words"
     = Ok {["word_count"%string := VInt 3]}
  /\ ParseNaturalLanguageQuery "tell me a joke" = Err UnparseableQuery.
Proof. repeat split; vm_compute; reflexivity. Qed.

(** A successful translation is never empty. *)
Theorem translation_not_empty (query : string) (parsedFilters : gmap string value) :
  ParseNaturalLanguageQuery query = Ok parsedFilters -> parsedFilters <> ∅.
Proof.
  unfold ParseNaturalLanguageQuery.
  destruct (parseRules (Strings.ToLower query)) as [pf|e]; cbn [bind]; [|discriminate].
  unfold parseFinish. destruct (checkMinMax pf); cbn [bind]; [|discriminate].
  destruct (Nat.eqb (size pf) 0) eqn:E; [discriminate|].
  intros [= <-] ->. rewrite map_size_empty in E. discriminate.
Qed.

(** Creating the same value twice, one request after the other: the
    first is answered [201], the second [409], and the second leaves
    the store as the first left it. *)
Theorem duplicate_rejected (value : string) (now1 now2 : Z) (stringStore : store) :
  value <> ""%string ->
  stringStore !! generateSHA256Hash value = None ->
  let first := CreateStringHandler (JsonValue value) now1 stringStore in
  let second := CreateStringHandler (JsonValue value) now2 (fst first) in
  status (snd first) = StatusCreated
  /\ status (snd second) = StatusConflict
  /\ fst second = fst first.
Proof.
  intros Hv Hfree first second. apply String.eqb_neq in Hv.
  assert (E1 : first
               = (<[generateSHA256Hash value := newAnalyzedString value now1]> stringStore,
                  Response StatusCreated (JAnalyzed (newAnalyzedString value now1)))).
  { unfold first, CreateStringHandler. cbn [ShouldBindJSON]. now rewrite Hv, Hfree. }
  assert (E2 : second
               = (fst first,
                  Response StatusConflict (JError "String already exists in the system"))).
  { unfold second, CreateStringHandler at 1. cbn [ShouldBindJSON]. rewrite Hv, E1.
    cbn [fst]. now rewrite lookup_insert_eq. }
  rewrite E2, E1. cbn. auto.
Qed.

End Scenarios.

Lemma translation_not_empty_witness :
  (<["word_count"%string := VInt 3]> ∅ : gmap string value) <> ∅.
Proof.
  apply (@translation_not_empty excerptTables "strings with 3 words").
  vm_compute. reflexivity.
Defined.

Lemma duplicate_rejected_witness :
  status (snd (@CreateStringHandler excerptTables (JsonValue "hello") 1 ∅)) = StatusCreated
  /\ status (snd (@CreateStringHandler excerptTables (JsonValue "hello") 2
                    (fst (@CreateStringHandler excerptTables (JsonValue "hello") 1 ∅))))
     = StatusConflict
  /\ fst (@CreateStringHandler excerptTables (JsonValue "hello") 2
            (fst (@CreateStringHandler excerptTables (JsonValue "hello") 1 ∅)))
     = fst (@CreateStringHandler excerptTables (JsonValue "hello") 1 ∅).
Proof.
  apply (@duplicate_rejected excerptTables "hello" 1 2 ∅); [discriminate|].
  apply lookup_empty.
Defined.

Section CodePoints.
Import Utf8 Utf8Facts.
Local Open Scope Z_scope.

(** [calculateLength] counts code points, not bytes: the string that
    encodes a sequence of scalar values in UTF-8 has the length of the
    sequence. *)
Theorem calculateLength_code_points (rs : list Z) :
  Forall (fun r => ValidRune r = true) rs ->
  calculateLength (Bytes.to_string (flat_map EncodeRune rs)) = Z.of_nat (length rs).
Proof.
  intros Hrs. unfold calculateLength, runes.
  rewrite of_to_string.
  - now rewrite decode_encode.
  - apply Forall_flat_map. apply Forall_forall. intros r _. apply EncodeRune_bytes.
Qed.

End CodePoints.

(** "hé€" and an emoji: four code points in ten bytes. *)
Lemma calculateLength_code_points_witness :
  calculateLength (Bytes.to_string (flat_map Utf8.EncodeRune [0x68; 0xE9; 0x20AC; 0x1F600]%Z))
  = 4%Z.
Proof.
  apply (calculateLength_code_points [0x68; 0xE9; 0x20AC; 0x1F600]%Z).
  repeat constructor.
Defined.

(** ** More of the analyzer *)

Section AnalyzerMore.
Context `{UnicodeTables}.
Local Open Scope Z_scope.

Lemma fold_countRune_count (rs : list Z) (m : gmap Z Z) (c : Z) :
  default 0 (fold_left countRune rs m !! c)
  = default 0 (m !! c) + Z.of_nat (count_occ Z.eq_dec rs c).
Proof.
  revert m. induction rs as [|r rs IH]; intros m; cbn [fold_left count_occ]; [lia|].
  rewrite IH. unfold countRune. destruct (Z.eq_dec r c) as [->|Hne].
  - rewrite lookup_insert_eq. cbn. lia.
  - rewrite lookup_insert_ne by exact Hne. lia.
Qed.

Lemma fold_countRune_dom (rs : list Z) (m : gmap Z Z) :
  dom (fold_left countRune rs m) = dom m ∪ list_to_set rs.
Proof.
  revert m. induction rs as [|r rs IH]; intros m; cbn [fold_left].
  - now rewrite list_to_set_nil, (right_id_L ∅ (∪)).
  - rewrite IH. unfold countRune. rewrite dom_insert_L, list_to_set_cons.
    now rewrite (comm_L (∪) {[r]}), (assoc_L (∪)).
Qed.

Lemma fold_seen_dom (rs : list Z) (seen : gmap Z bool) :
  dom (fold_left (fun seen char => <[char := true]> seen) rs seen)
  = dom seen ∪ list_to_set rs.
Proof.
  revert seen. induction rs as [|r rs IH]; intros seen; cbn [fold_left].
  - now rewrite list_to_set_nil, (right_id_L ∅ (∪)).
  - rewrite IH. rewrite dom_insert_L, list_to_set_cons.
    now rewrite (comm_L (∪) {[r]}), (assoc_L (∪)).
Qed.

Lemma size_list_to_set_le (rs : list Z) :
  (size (list_to_set rs : gset Z) <= length rs)%nat.
Proof.
  induction rs as [|r rs IH]; cbn [length].
  - rewrite list_to_set_nil, size_empty. lia.
  - rewrite list_to_set_cons.
    pose proof (size_union_alt {[r]} (list_to_set rs : gset Z)) as E.
    rewrite size_singleton in E.
    assert ((size ((list_to_set rs : gset Z) ∖ {[r]}) <= size (list_to_set rs : gset Z))%nat)
      by (apply subseteq_size, subseteq_difference_l; reflexivity).
    lia.
Qed.

Lemma runes_nil (s : string) : runes s = [] -> s = ""%string.
Proof.
  unfold runes. destruct s as [|a s]; [reflexivity|]. cbn. discriminate.
Qed.

(** The frequency map counts exactly: the count of a code point is the
    number of times it occurs in the string, and a code point that does
    not occur is no key. *)
Theorem frequency_map_exact (s : string) (c : Z) :
  CharacterFrequencyMap (analyzeString s) !! c
  = (if In_dec Z.eq_dec c (runes s)
     then Some (Z.of_nat (count_occ Z.eq_dec (runes s) c))
     else None).
Proof.
  cbn [analyzeString CharacterFrequencyMap]. unfold getCharacterFrequencyMap.
  change (fun (freqMap : gmap Z Z) (char : Z) =>
            <[char := default 0 (freqMap !! char) + 1]> freqMap) with countRune.
  pose proof (fold_countRune_count (runes s) ∅ c) as Hcount.
  rewrite lookup_empty in Hcount. cbn [default] in Hcount.
  destruct (In_dec Z.eq_dec c (runes s)) as [Hin|Hnot].
  - destruct (fold_countRune_lookup (runes s) ∅ c Hin) as (n & Hn & _).
    rewrite Hn in *. cbn in Hcount. f_equal. lia.
  - destruct (fold_left countRune (runes s) ∅ !! c) as [n|] eqn:Hn; [|reflexivity].
    exfalso. apply Hnot.
    assert (Hd : c ∈ dom (fold_left countRune (runes s) ∅)) by (apply elem_of_dom; eauto).
    rewrite fold_countRune_dom in Hd. rewrite dom_empty_L in Hd.
    apply elem_of_union in Hd. destruct Hd as [Hd|Hd]; [now apply not_elem_of_empty in Hd|].
    apply elem_of_list_to_set in Hd. now apply list_elem_of_In.
Qed.

(** [unique_characters] is the number of keys of the frequency map, the
    number of distinct code points of the string; it is at most the
    length, and zero for the empty string only. *)
Theorem unique_characters_distinct (s : string) :
  let p := analyzeString s in
  UniqueCharacters p = Z.of_nat (size (CharacterFrequencyMap p))
  /\ UniqueCharacters p = Z.of_nat (length (remove_dups (runes s)))
  /\ 0 <= UniqueCharacters p <= Length p
  /\ (UniqueCharacters p = 0 <-> s = ""%string).
Proof.
  cbn [analyzeString UniqueCharacters CharacterFrequencyMap Length].
  unfold countUniqueCharacters, getCharacterFrequencyMap, calculateLength.
  change (fun (freqMap : gmap Z Z) (char : Z) =>
            <[char := default 0 (freqMap !! char) + 1]> freqMap) with countRune.
  set (seen := fold_left _ (runes s) ∅).
  assert (Eseen : size seen = size (list_to_set (runes s) : gset Z)).
  { rewrite <- (size_dom (D:=gset Z) seen). unfold seen.
    rewrite fold_seen_dom, dom_empty_L. f_equal. apply (left_id_L ∅ (∪)). }
  assert (Efreq : size (fold_left countRune (runes s) ∅)
                  = size (list_to_set (runes s) : gset Z)).
  { rewrite <- (size_dom (D:=gset Z) (fold_left countRune (runes s) ∅)).
    rewrite fold_countRune_dom, dom_empty_L. f_equal. apply (left_id_L ∅ (∪)). }
  assert (Edups : size (list_to_set (runes s) : gset Z) = length (remove_dups (runes s))).
  { rewrite <- (size_list_to_set (C:=gset Z) (remove_dups (runes s)))
      by apply NoDup_remove_dups.
    f_equal. apply set_eq. intros x.
    now rewrite !elem_of_list_to_set, elem_of_remove_dups. }
  pose proof (size_list_to_set_le (runes s)) as Hle.
  rewrite Eseen. split; [now rewrite Efreq|]. split; [now rewrite Edups|].
  split; [lia|]. split.
  - intros E. apply runes_nil.
    assert (E0 : size (list_to_set (runes s) : gset Z) = 0%nat) by lia.
    apply size_empty_inv in E0. destruct (runes s) as [|r rs]; [reflexivity|].
    exfalso. destruct (E0 r) as [Hd _]. apply (not_elem_of_empty (C:=gset Z) r), Hd.
    rewrite list_to_set_cons. now apply elem_of_union_l, elem_of_singleton.
  - intros ->. reflexivity.
Qed.

End AnalyzerMore.

(** *** Words *)

Module WordFacts.
Import Regexp.
Local Open Scope Z_scope.
#[local] Arguments String.append !_ _ / : simpl nomatch.

Lemma countNonEmpty_acc (words : list string) (count : Z) :
  countNonEmpty words count = count + countNonEmpty words 0.
Proof.
  unfold countNonEmpty. revert count.
  induction words as [|w ws IH]; intros count; cbn [fold_left]; [lia|].
  destruct (negb (String.eqb w "")).
  - rewrite (IH (count + 1)), (IH (0 + 1)). lia.
  - apply IH.
Qed.

Lemma countNonEmpty_cons (w : string) (ws : list string) :
  countNonEmpty (w :: ws) 0
  = (if String.eqb w "" then 0 else 1) + countNonEmpty ws 0.
Proof.
  unfold countNonEmpty at 1. cbn [fold_left]. fold (countNonEmpty ws).
  destruct (String.eqb w ""); cbn [negb]; [reflexivity|].
  now rewrite countNonEmpty_acc.
Qed.

Lemma greedy_spaces (s u t : string) :
  In (u, t) (greedy space s) -> spacesAt (String.length u) s.
Proof.
  revert u t. induction s as [|a s IH]; intros u t; cbn [greedy]; [intros []|].
  destruct (space a) eqn:Ha; [|intros []].
  rewrite in_app_iff. intros [Hin|[[= <- <-]|[]]].
  - apply in_map_iff in Hin. destruct Hin as ([u' t'] & [= <- <-] & Hin).
    cbn [String.length spacesAt fst]. split; [exact Ha|]. now apply (IH u' t').
  - cbn. auto.
Qed.

Lemma append_nonempty (piece : string) (a : ascii) :
  String.eqb (piece +:+ String a EmptyString) "" = false.
Proof. destruct piece; reflexivity. Qed.

(** The pieces that are not empty are the maximal runs outside [\s]. *)
Lemma splitFrom_runs (s : string) (skip : nat) (piece : string) :
  spacesAt skip s ->
  (skip <> 0%nat -> piece = ""%string) ->
  countNonEmpty (splitFrom reSpaces skip piece s) 0
  = (if String.eqb piece "" then 0 else 1)
    + Z.of_nat (wordRuns (negb (String.eqb piece "")) s).
Proof.
  revert skip piece. induction s as [|a s IH]; intros skip piece Hsp Hpiece.
  - cbn [splitFrom wordRuns]. rewrite countNonEmpty_cons.
    unfold countNonEmpty. cbn. lia.
  - destruct skip as [|k].
    + cbn [splitFrom]. unfold reSpaces at 1. cbn [matches greedy].
      destruct (space a) eqn:Ha.
      * cbn [wordRuns]. rewrite Ha.
        destruct (map (fun ut => Submatch (fst ut) (snd ut) [])
                      (map (fun ut => (String a (fst ut), snd ut)) (greedy space s)
                       ++ [(String a EmptyString, s)])) as [|m ms] eqn:Hm.
        { apply (f_equal (@length _)) in Hm. rewrite length_map, length_app in Hm.
          cbn in Hm. lia. }
        assert (Hin : In (consumed m, rest m)
                         (map (fun ut => (String a (fst ut), snd ut)) (greedy space s)
                          ++ [(String a EmptyString, s)])).
        { assert (Hin : In m (m :: ms)) by now left. rewrite <- Hm in Hin.
          apply in_map_iff in Hin. destruct Hin as ([u t] & <- & Hin). exact Hin. }
        assert (Hrun : spacesAt (String.length (consumed m) - 1) s).
        { apply in_app_iff in Hin. destruct Hin as [Hin|[[= <- _]|[]]].
          - apply in_map_iff in Hin. destruct Hin as ([u t] & [= <- _] & Hin).
            cbn [String.length fst]. replace (S (String.length u) - 1)%nat
              with (String.length u) by lia.
            now apply (greedy_spaces s u t).
          - cbn. exact I. }
        rewrite countNonEmpty_cons.
        rewrite (IH _ EmptyString Hrun) by reflexivity.
        cbn [String.eqb negb]. lia.
      * cbn [map app]. cbn [wordRuns]. rewrite Ha.
        rewrite (IH 0%nat (piece +:+ String a EmptyString)) by (cbn; auto; congruence).
        rewrite append_nonempty. cbn [negb].
        destruct (String.eqb piece ""); cbn [negb]; lia.
    + cbn [splitFrom]. cbn [spacesAt] in Hsp. destruct Hsp as [Ha Hsp].
      rewrite (Hpiece ltac:(discriminate)). cbn [String.eqb negb wordRuns]. rewrite Ha.
      rewrite (IH k EmptyString Hsp) by reflexivity. reflexivity.
Qed.

Lemma Split_runs (s : string) :
  countNonEmpty (Split reSpaces s) 0 = Z.of_nat (wordRuns false s).
Proof.
  unfold Split. rewrite (splitFrom_runs s 0 EmptyString) by (cbn; auto; congruence).
  reflexivity.
Qed.

End WordFacts.

Section TrimFacts.
Context `{UnicodeTables}.
Import Utf8 Utf8Facts WordFacts.
Local Open Scope Z_scope.

Lemma DecodeRune_ascii (p : list Z) :
  0 <= fst (DecodeRune p) < RuneSelf ->
  exists p', p = fst (DecodeRune p) :: p' /\ snd (DecodeRune p) = 1%nat.
Proof.
  unfold DecodeRune.
  repeat match goal with
         | |- context [match ?l with [] => _ | _ :: _ => _ end] => destruct l
         | |- context [if ?c then _ else _] => destruct c eqn:?
         end;
  cbn [fst snd]; intros Hr; try (exfalso; blia); eauto.
Qed.

Lemma chunks_fst (ws : list (Z * nat)) (p : list Z) :
  map fst (Strings.chunks ws p) = map fst ws.
Proof.
  revert p. induction ws as [|[r n] ws IH]; intros p; cbn; [reflexivity|].
  now rewrite IH.
Qed.

Lemma chunks_decode_flat (p : list Z) :
  flat_map snd (Strings.chunks (decode p) p) = p.
Proof.
  remember (length p) as n eqn:Hn. revert p Hn.
  induction n as [n IH] using lt_wf_ind. intros p Hn.
  destruct p as [|b0 p1]; [reflexivity|].
  rewrite decode_unfold by congruence.
  pose proof (DecodeRune_width (b0 :: p1) ltac:(congruence)) as Hw.
  destruct (DecodeRune (b0 :: p1)) as [r w] eqn:Hd. cbn [snd] in *.
  cbn [Strings.chunks flat_map snd].
  rewrite (IH (length (skipn w (b0 :: p1)))); [apply firstn_skipn| |reflexivity].
  subst n. rewrite length_skipn. lia.
Qed.

Lemma chunks_decode_plain (p : list Z) :
  Forall (fun r => Unicode.IsSpace r = true ->
                   r = 0x09 \/ r = 0x0A \/ r = 0x0C \/ r = 0x0D \/ r = 0x20)
         (map fst (decode p)) ->
  Forall plainChunk (Strings.chunks (decode p) p).
Proof.
  remember (length p) as n eqn:Hn. revert p Hn.
  induction n as [n IH] using lt_wf_ind. intros p Hn.
  destruct p as [|b0 p1]; [constructor|].
  rewrite decode_unfold by congruence.
  pose proof (DecodeRune_width (b0 :: p1) ltac:(congruence)) as Hw.
  pose proof (DecodeRune_ascii (b0 :: p1)) as Hascii.
  destruct (DecodeRune (b0 :: p1)) as [r w] eqn:Hd. cbn [fst snd] in *.
  cbn [map fst Strings.chunks]. intros Hall.
  apply Forall_cons in Hall. destruct Hall as [Hr Hall].
  constructor.
  - intros Hsp. cbn [fst snd] in *. specialize (Hr Hsp).
    destruct Hascii as (p' & Ep & ->); [unfold RuneSelf; lia|].
    rewrite Ep. cbn [firstn]. constructor; [exact Hr|constructor].
  - apply (IH (length (skipn w (b0 :: p1)))); [|reflexivity|exact Hall].
    subst n. rewrite length_skipn. lia.
Qed.

Lemma dropSpace_split (cs : list (Z * list Z)) :
  exists sp, cs = sp ++ Strings.dropSpace cs
             /\ Forall (fun c => Unicode.IsSpace (fst c) = true) sp.
Proof.
  induction cs as [|c cs IH]; cbn [Strings.dropSpace].
  - exists []. split; [reflexivity|constructor].
  - destruct (Unicode.IsSpace (fst c)) eqn:Hc.
    + destruct IH as (sp & E & Hsp). exists (c :: sp). split.
      * cbn. now rewrite <- E.
      * now constructor.
    + exists []. split; [reflexivity|constructor].
Qed.

Lemma spaceBytes_flat (sp : list (Z * list Z)) :
  Forall plainChunk sp ->
  Forall (fun c => Unicode.IsSpace (fst c) = true) sp ->
  spaceBytes (flat_map snd sp).
Proof.
  intros Hplain Hsp. induction sp as [|c sp IH]; cbn [flat_map]; [constructor|].
  apply Forall_cons in Hplain. destruct Hplain as [Hc Hplain].
  apply Forall_cons in Hsp. destruct Hsp as [Hs Hsp].
  apply Forall_app. split; [now apply Hc|now apply IH].
Qed.

Lemma to_string_app (l q : list Z) :
  Bytes.to_string (l ++ q) = (Bytes.to_string l +:+ Bytes.to_string q)%string.
Proof. induction l as [|b l IH]; cbn; [reflexivity|]. now rewrite IH. Qed.

Lemma space_byte (b : Z) :
  b = 0x09 \/ b = 0x0A \/ b = 0x0C \/ b = 0x0D \/ b = 0x20 ->
  Regexp.space (Bytes.ascii_of_byte b) = true.
Proof. intros [->|[->|[->|[->| ->]]]]; reflexivity. Qed.

Lemma wordRuns_leading (l q : list Z) :
  spaceBytes l ->
  wordRuns false (Bytes.to_string (l ++ q)) = wordRuns false (Bytes.to_string q).
Proof.
  induction 1 as [|b l Hb _ IH]; cbn [app Bytes.to_string wordRuns]; [reflexivity|].
  now rewrite (space_byte b Hb).
Qed.

Lemma wordRuns_spaces (l : list Z) (inWord : bool) :
  spaceBytes l -> wordRuns inWord (Bytes.to_string l) = 0%nat.
Proof.
  intros Hl. revert inWord.
  induction Hl as [|b l Hb _ IH]; intros inWord; cbn [Bytes.to_string wordRuns];
    [reflexivity|].
  rewrite (space_byte b Hb). apply IH.
Qed.

Lemma wordRuns_trailing (l q : list Z) (inWord : bool) :
  spaceBytes l ->
  wordRuns inWord (Bytes.to_string (q ++ l)) = wordRuns inWord (Bytes.to_string q).
Proof.
  intros Hl. revert inWord.
  induction q as [|b q IH]; intros inWord; cbn [app Bytes.to_string wordRuns].
  - now apply wordRuns_spaces.
  - destruct (Regexp.space (Bytes.ascii_of_byte b)); now rewrite IH.
Qed.

(** Trimming white space that [\s] matches too keeps the runs. *)
Lemma TrimSpace_runs (s : string) :
  plainSpaces s -> wordRuns false (Strings.TrimSpace s) = wordRuns false s.
Proof.
  intros Hplain. unfold Strings.TrimSpace. cbv zeta.
  set (p := Bytes.of_string s).
  set (cs := Strings.chunks (decode p) p).
  assert (Hcs : Forall plainChunk cs) by now apply chunks_decode_plain.
  assert (Hflat : flat_map snd cs = p) by apply chunks_decode_flat.
  destruct (dropSpace_split cs) as (sp1 & E1 & Hsp1).
  set (cs1 := Strings.dropSpace cs) in *.
  destruct (dropSpace_split (rev cs1)) as (sp2 & E2 & Hsp2).
  set (cs2 := Strings.dropSpace (rev cs1)) in *.
  assert (E1' : cs1 = rev cs2 ++ rev sp2).
  { rewrite <- (rev_involutive cs1), E2. apply rev_app_distr. }
  assert (Hplain1 : Forall plainChunk sp1 /\ Forall plainChunk cs1).
  { rewrite E1 in Hcs. now apply Forall_app in Hcs. }
  destruct Hplain1 as [Hp1 Hpcs1].
  assert (Hp2 : Forall plainChunk (rev sp2)).
  { rewrite E1' in Hpcs1. apply Forall_app in Hpcs1. tauto. }
  transitivity (wordRuns false (Bytes.to_string p));
    [|unfold p; now rewrite to_of_string].
  rewrite <- Hflat, E1, E1'. rewrite !flat_map_app.
  rewrite wordRuns_leading by now apply spaceBytes_flat.
  rewrite wordRuns_trailing; [reflexivity|].
  apply spaceBytes_flat; [exact Hp2|]. now apply Forall_rev.
Qed.

(** [countWords] counts the maximal runs outside [\s] of the trimmed
    string. *)
Lemma countWords_TrimSpace (s : string) :
  countWords s = Z.of_nat (wordRuns false (Strings.TrimSpace s)).
Proof.
  unfold countWords. destruct (String.eqb_spec s "") as [->|_]; [reflexivity|].
  cbv zeta. apply Split_runs.
Qed.

(** [word_count] is the number of maximal runs of characters other than
    tab, line feed, form feed, carriage return and space, for every
    string that holds no other white space (no vertical tab, no white
    space beyond ASCII). *)
Theorem countWords_runs (s : string) :
  plainSpaces s -> WordCount (analyzeString s) = Z.of_nat (wordRuns false s).
Proof.
  intros Hplain. cbn [analyzeString WordCount].
  rewrite countWords_TrimSpace. now rewrite TrimSpace_runs.
Qed.

End TrimFacts.

(** ** More of the store *)


Section StoreMore.
Context `{UnicodeTables}.
Local Open Scope Z_scope.

(** Deleting resolves its token as looking up does: it removes the
    record the look-up returns, and answers [404] when the look-up does. *)
Theorem delete_resolves_like_get (stringValue : string) (stringStore : store) :
  StoreInv stringStore ->
  (forall a,
     GetSpecificStringHandler stringValue stringStore = Response StatusOK (JAnalyzed a) ->
     DeleteStringHandler stringValue stringStore
     = (delete (ID a) stringStore, Response StatusNoContent JNone)
     /\ stringStore !! ID a = Some a)
  /\ (status (GetSpecificStringHandler stringValue stringStore) = StatusNotFound ->
      DeleteStringHandler stringValue stringStore
      = (stringStore, Response StatusNotFound (JError "String not found in the system")))
  /\ (status (GetSpecificStringHandler stringValue stringStore) = StatusOK
      \/ status (GetSpecificStringHandler stringValue stringStore) = StatusNotFound).
Proof.
  intros Hinv. unfold GetSpecificStringHandler, DeleteStringHandler.
  destruct (stringStore !! stringValue) as [a1|] eqn:H1.
  - split; [|split; [discriminate|now left]].
    intros a [= <-]. destruct (Hinv _ _ H1) as [-> _]. auto.
  - destruct (stringStore !! generateSHA256Hash stringValue) as [a2|] eqn:H2.
    + split; [|split; [discriminate|now left]].
      intros a [= <-]. destruct (Hinv _ _ H2) as [-> _]. auto.
    + split; [discriminate|]. split; [reflexivity|now right].
Qed.

(** Creating a value and then deleting the returned id leaves the store
    as it was before the creation. *)
Theorem create_then_delete (value : string) (now : Z) (stringStore stringStore' : store)
    (a : AnalyzedString) :
  CreateStringHandler (JsonValue value) now stringStore
  = (stringStore', Response StatusCreated (JAnalyzed a)) ->
  DeleteStringHandler (ID a) stringStore'
  = (stringStore, Response StatusNoContent JNone).
Proof.
  intros Hc.
  destruct (CreateStringHandler_cases (JsonValue value) now stringStore)
    as [[_ Hst]|(v & Hb & Hfree & E)].
  { rewrite Hc in Hst. cbn in Hst. congruence. }
  rewrite E in Hc. injection Hc as <- <-.
  change (ID (newAnalyzedString v now)) with (generateSHA256Hash v).
  unfold DeleteStringHandler. rewrite lookup_insert_eq.
  rewrite delete_insert_id by exact Hfree. reflexivity.
Qed.

(** After a successful deletion the same token finds nothing and cannot
    be deleted again, except when the deleted record was shadowing
    another: stored under the token itself while the other is stored
    under the digest of the token; that other record is found next. *)
Theorem delete_then_get (stringValue : string) (stringStore stringStore' : store) :
  DeleteStringHandler stringValue stringStore
  = (stringStore', Response StatusNoContent JNone) ->
  (stringStore !! stringValue = None
   \/ stringStore !! generateSHA256Hash stringValue = None
   \/ stringValue = generateSHA256Hash stringValue ->
   GetSpecificStringHandler stringValue stringStore'
   = Response StatusNotFound (JError "String not found in the system")
   /\ DeleteStringHandler stringValue stringStore'
      = (stringStore', Response StatusNotFound (JError "String not found in the system")))
  /\ (forall shadowed,
        is_Some (stringStore !! stringValue) ->
        stringValue <> generateSHA256Hash stringValue ->
        stringStore !! generateSHA256Hash stringValue = Some shadowed ->
        GetSpecificStringHandler stringValue stringStore'
        = Response StatusOK (JAnalyzed shadowed)).
Proof.
  unfold DeleteStringHandler at 1.
  destruct (stringStore !! stringValue) as [a1|] eqn:H1.
  - intros [= <-]. split.
    + intros Hcase. unfold GetSpecificStringHandler, DeleteStringHandler.
      rewrite lookup_delete_eq.
      destruct (decide (stringValue = generateSHA256Hash stringValue)) as [E|Hne].
      * rewrite <- E. rewrite lookup_delete_eq. auto.
      * rewrite lookup_delete_ne by exact Hne.
        destruct Hcase as [Hc|[Hc|Hc]]; [discriminate| |contradiction].
        rewrite Hc. auto.
    + intros shadowed _ Hne H2. unfold GetSpecificStringHandler.
      rewrite lookup_delete_eq. rewrite lookup_delete_ne by exact Hne. now rewrite H2.
  - destruct (stringStore !! generateSHA256Hash stringValue) as [a2|] eqn:H2;
      [|discriminate].
    intros [= <-]. split.
    + intros _. unfold GetSpecificStringHandler, DeleteStringHandler.
      assert (Hne : generateSHA256Hash stringValue <> stringValue) by congruence.
      rewrite lookup_delete_ne by exact Hne. rewrite H1.
      rewrite lookup_delete_eq. auto.
    + intros shadowed [? Hs]. discriminate.
Qed.

Lemma Analyzed_perform (op : operation) (stringStore : store) :
  Analyzed stringStore -> Analyzed (fst (perform op stringStore)).
Proof.
  intros Ha.
  destruct (perform_cases op stringStore) as [->|[(v & tm & _ & ->)|(k & _ & ->)]];
    [exact Ha| |].
  - intros k a Hk. destruct (decide (generateSHA256Hash v = k)) as [<-|Hne].
    + rewrite lookup_insert_eq in Hk. injection Hk as <-. reflexivity.
    + rewrite lookup_insert_ne in Hk by exact Hne. eapply Ha; eauto.
  - intros k' a Hk. apply lookup_delete_Some in Hk. destruct Hk as [_ Hk].
    eapply Ha; eauto.
Qed.

Lemma storeAfter_Analyzed (ops : list operation) : Analyzed (storeAfter ops).
Proof.
  induction ops as [|op ops IH] using rev_ind.
  - intros k a Hk. unfold storeAfter in Hk. cbn in Hk.
    rewrite lookup_empty in Hk. discriminate.
  - rewrite storeAfter_snoc. now apply Analyzed_perform.
Qed.

(** In every store the handlers can build, a record holds the properties
    of its own value, computed by [analyzeString], under the digest of
    that value as its [sha256_hash] and [id]. *)
Theorem stored_records_analyzed (ops : list operation) (k : string) (a : AnalyzedString) :
  storeAfter ops !! k = Some a ->
  Properties a = analyzeString (Value a)
  /\ SHA256Hash (Properties a) = ID a
  /\ Length (Properties a) = calculateLength (Value a).
Proof.
  intros Hk. pose proof (storeAfter_Analyzed ops k a Hk) as E.
  destruct (storeAfter_StoreInv ops k a Hk) as [_ E2].
  split; [exact E|]. rewrite E, E2. split; reflexivity.
Qed.

End StoreMore.

(** *** Schedules of concurrent creations *)


Section Schedules.
Context `{UnicodeTables}.
Local Open Scope Z_scope.

Lemma raceInv_step (value : string) (st st' : store * list creation) :
  step st st' -> raceInv value st -> raceInv value st'.
Proof.
  intros Hstep (Hne & Hshape & Hstore & Hwin & Hkey).
  destruct Hstep as [s s' ts i t t' Hi Hrun Hs]. cbn [fst snd] in *.
  assert (Hlt : (i < length ts)%nat) by (eapply lookup_lt_Some; eauto).
  assert (Ht := Forall_lookup_1 _ _ _ _ Hshape Hi). cbn beta in Ht.
  assert (Hne' : <[i := t']> ts <> []).
  { intros E. apply (f_equal length) in E. rewrite length_insert in E.
    destruct ts; cbn in *; [congruence|lia]. }
  assert (Hhere : forall t0, <[i := t0]> ts !! i = Some t0)
    by (intros t0; now apply list_lookup_insert_eq).
  unfold raceInv. cbn [fst snd].
  destruct Ht as [(tm & ->)|[(tm & ->)|(r & ->)]]; cbn [creationStep] in Hs.
  - (* the duplicate check *)
    destruct (s !! generateSHA256Hash value) as [a|] eqn:Hl; injection Hs as <- <-.
    + (* a duplicate: some other creation is past its check *)
      split; [exact Hne'|]. split; [|split; [|split]].
      * apply Forall_insert; [exact Hshape|]. right. right. now eexists.
      * rewrite Hl. exact Hstore.
      * destruct Hwin as [Hex|[Hnone _]]; [|congruence]. left.
        apply Exists_exists in Hex. destruct Hex as (t0 & Hin & Hpast).
        apply list_elem_of_lookup in Hin. destruct Hin as (j & Hj).
        apply Exists_exists. exists t0. split; [|exact Hpast].
        apply list_elem_of_lookup. exists j.
        rewrite list_lookup_insert_ne; [exact Hj|].
        intros ->. rewrite Hi in Hj. injection Hj as <-.
        destruct Hpast as [(new & E)|(a0 & E)]; discriminate.
      * intros _. rewrite Hl. eauto.
    + split; [exact Hne'|]. split; [|split; [|split]].
      * apply Forall_insert; [exact Hshape|]. right. left. now exists tm.
      * left. exact Hl.
      * left. apply Exists_exists. exists (AtInsert (newAnalyzedString value tm)).
        split; [|left; now eexists].
        apply list_elem_of_lookup. exists i. apply Hhere.
      * intros Hex. exfalso.
        apply Exists_exists in Hex. destruct Hex as (t0 & Hin & (a0 & ->)).
        apply list_elem_of_lookup in Hin. destruct Hin as (j & Hj).
        destruct (decide (i = j)) as [<-|Hij].
        -- rewrite Hhere in Hj. discriminate.
        -- rewrite list_lookup_insert_ne in Hj by exact Hij.
           assert (Hc : Exists created ts).
           { apply Exists_exists. eexists. split; [|now eexists].
             apply list_elem_of_lookup. eauto. }
           apply Hkey in Hc. destruct Hc as [? Hc]. discriminate.
  - (* the insertion *)
    injection Hs as <- <-.
    change (ID (newAnalyzedString value tm)) with (generateSHA256Hash value).
    split; [exact Hne'|]. split; [|split; [|split]].
    + apply Forall_insert; [exact Hshape|]. right. right. now eexists.
    + right. exists tm. apply lookup_insert_eq.
    + left. apply Exists_exists. eexists. split; [|right; now eexists].
      apply list_elem_of_lookup. exists i. apply Hhere.
    + intros _. rewrite lookup_insert_eq. eauto.
  - exfalso. now apply (Hrun r).
Qed.

(** Concurrent creations of one new value never all fail: under every
    schedule that runs them to completion, at least one answers
    [201 Created], and the store then holds a record of the value under
    its digest. *)
Theorem some_creation_wins (value : string) (stringStore stringStore' : store)
    (ts ts' : list creation) :
  stringStore !! generateSHA256Hash value = None ->
  ts <> [] ->
  Forall (waitingFor value) ts ->
  rtc step (stringStore, ts) (stringStore', ts') ->
  Forall finished ts' ->
  Exists created ts'
  /\ exists a, stringStore' !! generateSHA256Hash value = Some a /\ Value a = value.
Proof.
  intros Hfree Hne Hwait Hrun Hdone.
  assert (Hinv : raceInv value (stringStore', ts')).
  { remember (stringStore, ts) as st eqn:Est.
    remember (stringStore', ts') as st' eqn:Est'.
    assert (H0 : raceInv value st).
    { subst st. unfold raceInv. cbn [fst snd].
      split; [exact Hne|]. split; [|split; [|split]]; auto.
      - eapply Forall_impl; [exact Hwait|]. cbn. auto.
      - intros Hex. exfalso. apply Exists_exists in Hex.
        destruct Hex as (t0 & Hin & (a0 & ->)).
        eapply Forall_forall in Hwait; [|exact Hin].
        destruct Hwait as (tm & E). discriminate. }
    clear Est Est' Hfree Hne Hwait Hdone.
    induction Hrun as [st|st st1 st2 Hstep _ IH]; [exact H0|].
    apply IH. now apply (raceInv_step value st st1). }
  destruct Hinv as (Hne' & Hshape & Hstore & Hwin & Hkey). cbn [fst snd] in *.
  assert (Hc : Exists created ts').
  { destruct Hwin as [Hex|[_ Hall]].
    - apply Exists_exists in Hex. destruct Hex as (t0 & Hin & Hpast).
      apply Exists_exists. exists t0. split; [exact Hin|].
      destruct Hpast as [(new & ->)|Hcr]; [|exact Hcr].
      eapply Forall_forall in Hdone; [|exact Hin]. destruct Hdone as (r & E).
      discriminate.
    - destruct ts' as [|t0 ts0]; [congruence|].
      apply Forall_cons in Hall. destruct Hall as [(tm & E1) _].
      apply Forall_cons in Hdone. destruct Hdone as [(r & E2) _]. congruence. }
  split; [exact Hc|].
  destruct (Hkey Hc) as [a Ha]. destruct Hstore as [Hnone|(tm & Hsome)]; [congruence|].
  exists a. split; [exact Ha|]. rewrite Hsome in Ha. injection Ha as <-. reflexivity.
Qed.

(** Whatever the schedule of concurrent creations, every stored record
    stays under the digest of its value, and no record of the store is
    removed. *)
Theorem schedules_keep_invariant (stringStore stringStore' : store)
    (ts ts' : list creation) :
  StoreInv stringStore ->
  Forall wellFormed ts ->
  rtc step (stringStore, ts) (stringStore', ts') ->
  StoreInv stringStore'
  /\ forall k, is_Some (stringStore !! k) -> is_Some (stringStore' !! k).
Proof.
  intros Hinv Hwf Hrun.
  remember (stringStore, ts) as st eqn:Est.
  remember (stringStore', ts') as st' eqn:Est'.
  assert (H0 : StoreInv (fst st) /\ Forall wellFormed (snd st)) by (subst st; auto).
  assert (Hgoal : (StoreInv (fst st') /\ Forall wellFormed (snd st'))
                  /\ forall k, is_Some (fst st !! k) -> is_Some (fst st' !! k)).
  { clear Est Est' Hinv Hwf.
    induction Hrun as [st|st st1 st2 Hstep _ IH]; [auto|].
    pose proof (step_StoreInv st st1 Hstep H0) as H1.
    destruct (IH H1) as [H2 Hkeep]. split; [exact H2|].
    intros k Hk. apply Hkeep.
    destruct Hstep as [s s' ts0 i t t' Hi Hnf Hs]. cbn [fst] in *.
    destruct t as [v tm|new|r]; cbn [creationStep] in Hs.
    - destruct (s !! generateSHA256Hash v); injection Hs as <- <-; exact Hk.
    - injection Hs as <- <-. rewrite lookup_insert. case_decide; [eauto|exact Hk].
    - injection Hs as <- <-. exact Hk. }
  subst st st'. cbn [fst snd] in Hgoal. tauto.
Qed.

End Schedules.

(** *** The lock *)

Section Locks.
Context `{UnicodeTables}.

Lemma tally_insert (f : goroutine -> bool) (gs : list goroutine) (i : nat)
    (g g' : goroutine) :
  gs !! i = Some g ->
  (tally f (<[i := g']> gs) + Nat.b2n (f g) = tally f gs + Nat.b2n (f g'))%nat.
Proof.
  unfold tally. revert i.
  induction gs as [|g0 gs IH]; intros [|i] Hi; try discriminate.
  - injection Hi as ->. change (<[0%nat := g']> (g :: gs)) with (g' :: gs).
    cbn [List.filter]. destruct (f g), (f g'); cbn [length Nat.b2n]; lia.
  - change (<[S i := g']> (g0 :: gs)) with (g0 :: <[i := g']> gs).
    specialize (IH i Hi). cbn [List.filter]. destruct (f g0); cbn [length]; lia.
Qed.

Lemma tally_lookup (f : goroutine -> bool) (gs : list goroutine) (i : nat) (g : goroutine) :
  gs !! i = Some g -> f g = true -> (0 < tally f gs)%nat.
Proof.
  intros Hi Hf. unfold tally.
  assert (Hin : In g (List.filter f gs)).
  { apply filter_In. split; [|exact Hf]. apply list_elem_of_In.
    eapply list_elem_of_lookup_2; eauto. }
  destruct (List.filter f gs); [destruct Hin|cbn; lia].
Qed.

Lemma tally_positive (f : goroutine -> bool) (gs : list goroutine) :
  (0 < tally f gs)%nat -> exists i g, gs !! i = Some g /\ f g = true.
Proof.
  unfold tally. intros Hpos.
  destruct (List.filter f gs) as [|g l] eqn:E; [cbn in Hpos; lia|].
  assert (Hin : In g (List.filter f gs)) by (rewrite E; now left).
  apply filter_In in Hin. destruct Hin as [Hin Hf].
  apply list_elem_of_In, list_elem_of_lookup in Hin. destruct Hin as (i & Hi).
  now exists i, g.
Qed.

Lemma tally_Called (f : goroutine -> bool) (rqs : list request) :
  (forall rq, f (Called rq) = false) -> tally f (Called <$> rqs) = 0%nat.
Proof.
  intros Hf. unfold tally. induction rqs as [|rq rqs IH]; [reflexivity|].
  cbn [fmap list_fmap List.filter]. rewrite Hf. exact IH.
Qed.

Lemma readSection_free (r : reader) (stringStore : store) :
  isReading (readSection r stringStore) = false
  /\ isLocking (readSection r stringStore) = false
  /\ isWriting (readSection r stringStore) = false.
Proof.
  destruct r as [v tm|v|c|c]; cbn [readSection]; try (repeat split; reflexivity).
  destruct (stringStore !! generateSHA256Hash v); repeat split; reflexivity.
Qed.

Lemma writeSection_returned (u : updater) (stringStore : store) :
  exists a, snd (writeSection u stringStore) = Returned a.
Proof.
  destruct u as [new|v]; cbn [writeSection]; [now eexists|].
  destruct (DeleteStringHandler v stringStore). now eexists.
Qed.

(** Every step keeps [mu] in agreement with the goroutines. *)
Lemma lockedStep_lockInv (mu mu' : RWMutex) (stringStore stringStore' : store)
    (gs gs' : list goroutine) :
  lockedStep (mu, stringStore, gs) (mu', stringStore', gs') ->
  lockInv mu gs -> lockInv mu' gs'.
Proof.
  intros Hstep [Hreaders Hwriter].
  inversion Hstep as [mu0 mu1 s0 s1 gs0 i g g' Hi Hs]; subst. clear Hstep.
  pose proof (tally_insert isReading gs i g g' Hi) as Er.
  pose proof (tally_insert isLocking gs i g g' Hi) as El.
  pose proof (tally_insert isWriting gs i g g' Hi) as Ew.
  pose proof (fun Hf => tally_lookup isReading gs i g Hi Hf) as Pr.
  pose proof (fun Hf => tally_lookup isLocking gs i g Hi Hf) as Pl.
  pose proof (fun Hf => tally_lookup isWriting gs i g Hi Hf) as Pw.
  unfold lockInv.
  destruct g as [rq|r|new|u|u|a]; cbn [lockStep] in Hs.
  - destruct (enter rq) as [a|r|u].
    + injection Hs as <- <- <-. cbn [isReading isLocking isWriting Nat.b2n] in *.
      split; [lia|]. destruct (writer mu); lia.
    + unfold RLock in Hs. destruct (writer mu) eqn:Hw; try discriminate.
      cbn in Hs. injection Hs as <- <- <-.
      cbn [isReading isLocking isWriting Nat.b2n readerCount writer] in *. lia.
    + unfold Lock1 in Hs. destruct (writer mu) eqn:Hw; try discriminate.
      cbn in Hs. injection Hs as <- <- <-.
      cbn [isReading isLocking isWriting Nat.b2n readerCount writer] in *. lia.
  - injection Hs as <- <- <-.
    destruct (readSection_free r stringStore) as (E1 & E2 & E3).
    rewrite E1 in Er. rewrite E2 in El. rewrite E3 in Ew.
    specialize (Pr eq_refl).
    cbn [isReading isLocking isWriting Nat.b2n RUnlock readerCount writer] in *.
    split; [lia|]. destruct (writer mu); lia.
  - unfold Lock1 in Hs. destruct (writer mu) eqn:Hw; try discriminate.
    cbn in Hs. injection Hs as <- <- <-.
    cbn [isReading isLocking isWriting Nat.b2n readerCount writer] in *. lia.
  - unfold Lock2 in Hs. destruct (readerCount mu) eqn:Hr; try discriminate.
    cbn in Hs. injection Hs as <- <- <-. specialize (Pl eq_refl).
    cbn [isReading isLocking isWriting Nat.b2n readerCount writer] in *.
    destruct (writer mu); lia.
  - destruct (writeSection_returned u stringStore) as (a & Ea).
    destruct (writeSection u stringStore) as [s2 g2]. cbn [snd] in Ea. subst g2.
    injection Hs as <- <- <-. specialize (Pw eq_refl).
    cbn [isReading isLocking isWriting Nat.b2n Unlock readerCount writer] in *.
    destruct (writer mu); lia.
  - discriminate.
Qed.

Lemma stepsLeftAll_insert (gs : list goroutine) (i : nat) (g g' : goroutine) :
  gs !! i = Some g ->
  (stepsLeftAll (<[i := g']> gs) + stepsLeft g = stepsLeftAll gs + stepsLeft g')%nat.
Proof.
  revert i. induction gs as [|g0 gs IH]; intros [|i] Hi; try discriminate.
  - injection Hi as ->. change (<[0%nat := g']> (g :: gs)) with (g' :: gs).
    cbn [stepsLeftAll]. lia.
  - change (<[S i := g']> (g0 :: gs)) with (g0 :: <[i := g']> gs).
    cbn [stepsLeftAll]. specialize (IH i Hi). lia.
Qed.

(** Every step brings some goroutine nearer to its return. *)
Lemma lockedStep_stepsLeft (mu mu' : RWMutex) (stringStore stringStore' : store)
    (gs gs' : list goroutine) :
  lockedStep (mu, stringStore, gs) (mu', stringStore', gs') ->
  (stepsLeftAll gs' < stepsLeftAll gs)%nat /\ length gs' = length gs.
Proof.
  intros Hstep.
  inversion Hstep as [mu0 mu1 s0 s1 gs0 i g g' Hi Hs]; subst. clear Hstep.
  split; [|apply length_insert].
  pose proof (stepsLeftAll_insert gs i g g' Hi) as E.
  destruct g as [rq|r|new|u|u|a]; cbn [lockStep] in Hs.
  - destruct (enter rq) as [a|r|u].
    + injection Hs as <- <- <-. cbn [stepsLeft] in E. lia.
    + destruct (RLock mu); [|discriminate]. cbn in Hs. injection Hs as <- <- <-.
      cbn [stepsLeft] in E. lia.
    + destruct (Lock1 mu); [|discriminate]. cbn in Hs. injection Hs as <- <- <-.
      cbn [stepsLeft] in E. lia.
  - injection Hs as <- <- <-.
    assert (stepsLeft (readSection r stringStore) <= 3)%nat.
    { destruct r as [v tm|v|c|c]; cbn [readSection stepsLeft]; try lia.
      destruct (stringStore !! generateSHA256Hash v); cbn [stepsLeft]; lia. }
    cbn [stepsLeft] in E. lia.
  - destruct (Lock1 mu); [|discriminate]. cbn in Hs. injection Hs as <- <- <-.
    cbn [stepsLeft] in E. lia.
  - destruct (Lock2 mu); [|discriminate]. cbn in Hs. injection Hs as <- <- <-.
    cbn [stepsLeft] in E. lia.
  - destruct (writeSection_returned u stringStore) as (a & Ea).
    destruct (writeSection u stringStore) as [s2 g2]. cbn [snd] in Ea. subst g2.
    injection Hs as <- <- <-. cbn [stepsLeft] in E. lia.
  - discriminate.
Qed.

Lemma stepsLeftAll_Called (rqs : list request) :
  stepsLeftAll (Called <$> rqs) = (5 * length rqs)%nat.
Proof.
  induction rqs as [|rq rqs IH]; [reflexivity|].
  cbn [fmap list_fmap stepsLeftAll stepsLeft length]. fold (Called <$> rqs).
  rewrite IH. lia.
Qed.

(** Where [mu] agrees with the goroutines, some goroutine can run as
    long as one has not returned. *)
Lemma lockInv_progress (mu : RWMutex) (stringStore : store) (gs : list goroutine) :
  lockInv mu gs ->
  (exists g, In g gs /\ hasReturned g = false) ->
  exists st', lockedStep (mu, stringStore, gs) st'.
Proof.
  intros [Hreaders Hwriter] (g0 & Hin0 & Hg0).
  assert (Hrun : forall i g mu' s' g',
            gs !! i = Some g -> lockStep mu stringStore g = Some (mu', s', g') ->
            exists st', lockedStep (mu, stringStore, gs) st').
  { intros i g mu' s' g' Hi Hs. eexists. exact (locked_at _ _ _ _ _ _ _ _ Hi Hs). }
  destruct (Nat.eq_dec (tally isReading gs) 0) as [Hr0|Hr].
  2:{ (* a reader leaves *)
      destruct (tally_positive isReading gs ltac:(lia)) as (i & g & Hi & Hg).
      destruct g; try discriminate. eapply Hrun; [exact Hi|reflexivity]. }
  destruct (Nat.eq_dec (tally isWriting gs) 0) as [Hw0|Hw].
  2:{ (* the writer leaves *)
      destruct (tally_positive isWriting gs ltac:(lia)) as (i & g & Hi & Hg).
      destruct g as [| | | |u|]; try discriminate.
      destruct (writeSection u stringStore) as [s2 g2] eqn:E.
      eapply Hrun; [exact Hi|]. cbn [lockStep]. rewrite E. reflexivity. }
  destruct (writer mu) eqn:Hw.
  - (* the lock is free: whoever has not returned can go on *)
    apply list_elem_of_In, list_elem_of_lookup in Hin0. destruct Hin0 as (i & Hi).
    destruct g0 as [rq|r|new|u|u|a]; try discriminate.
    + destruct (enter rq) as [a|r|u] eqn:E.
      * eapply Hrun; [exact Hi|]. cbn [lockStep]. rewrite E. reflexivity.
      * eapply Hrun; [exact Hi|]. cbn [lockStep]. rewrite E. unfold RLock. rewrite Hw.
        reflexivity.
      * eapply Hrun; [exact Hi|]. cbn [lockStep]. rewrite E. unfold Lock1. rewrite Hw.
        reflexivity.
    + eapply Hrun; [exact Hi|reflexivity].
    + eapply Hrun; [exact Hi|]. cbn [lockStep]. unfold Lock1. rewrite Hw. reflexivity.
    + pose proof (tally_lookup isLocking gs i _ Hi eq_refl). lia.
    + pose proof (tally_lookup isWriting gs i _ Hi eq_refl). lia.
  - (* the waiting writer gets the lock: the readers have left *)
    destruct (tally_positive isLocking gs ltac:(lia)) as (i & g & Hi & Hg).
    destruct g as [| | |u| |]; try discriminate.
    eapply Hrun; [exact Hi|]. cbn [lockStep]. unfold Lock2. rewrite Hreaders, Hr0.
    reflexivity.
  - lia.
Qed.

(** The service never deadlocks.  From any store and a free lock, let
    any requests to the five handlers run, their lock operations and
    critical sections interleaved in any way.  At every point [mu]
    agrees with the goroutines (the write lock excludes every other
    lock), some goroutine can take a step as long as one has not
    returned, at most five steps per request have been taken, and once
    all have returned the lock is free. *)
Theorem handlers_never_deadlock (rqs : list request) (stringStore stringStore' : store)
    (mu : RWMutex) (gs : list goroutine) (k : nat) :
  nsteps lockedStep k (unlocked, stringStore, Called <$> rqs) (mu, stringStore', gs) ->
  lockInv mu gs
  /\ ((exists st', lockedStep (mu, stringStore', gs) st')
      <-> exists g, In g gs /\ hasReturned g = false)
  /\ (k <= 5 * length rqs)%nat
  /\ length gs = length rqs
  /\ ((forall g, In g gs -> hasReturned g = true) -> mu = unlocked).
Proof.
  intros Hrun.
  assert (Hgen : forall st st',
            nsteps lockedStep k st st' ->
            lockInv (fst (fst st)) (snd st) ->
            lockInv (fst (fst st')) (snd st')
            /\ (k + stepsLeftAll (snd st') <= stepsLeftAll (snd st))%nat
            /\ length (snd st') = length (snd st)).
  { clear. intros st st' Hrun.
    induction Hrun as [st|k st st1 st2 Hstep _ IH]; intros Hinv.
    - split; [exact Hinv|]. split; [lia|reflexivity].
    - destruct st as [[mu s] gs], st1 as [[mu1 s1] gs1]. cbn [fst snd] in *.
      pose proof (lockedStep_lockInv _ _ _ _ _ _ Hstep Hinv) as Hinv1.
      destruct (lockedStep_stepsLeft _ _ _ _ _ _ Hstep) as [Hlt Hlen].
      destruct (IH Hinv1) as (Hinv2 & Hle & Hlen2).
      split; [exact Hinv2|]. split; [lia|congruence]. }
  destruct (Hgen _ _ Hrun) as (Hinv & Hle & Hlen); cbn [fst snd] in *.
  { unfold lockInv, unlocked. cbn [readerCount writer].
    rewrite !tally_Called by reflexivity. auto. }
  rewrite stepsLeftAll_Called in Hle. rewrite length_fmap in Hlen.
  split; [exact Hinv|]. split; [|split; [lia|split; [exact Hlen|]]].
  - split; [|now apply lockInv_progress].
    intros (st' & Hstep).
    inversion Hstep as [mu0 mu1 s0 s1 gs0 i g g' Hi Hs]; subst.
    exists g. split.
    + apply list_elem_of_In. eapply list_elem_of_lookup_2; eauto.
    + destruct g; try reflexivity. discriminate.
  - intros Hall. destruct Hinv as [Hreaders Hwriter].
    assert (Hnone : forall f, (forall g, f g = true -> hasReturned g = false) ->
                              tally f gs = 0%nat).
    { intros f Hf. destruct (Nat.eq_dec (tally f gs) 0) as [E|Hne]; [exact E|].
      destruct (tally_positive f gs ltac:(lia)) as (i & g & Hi & Hg).
      assert (Hin : In g gs)
        by (apply list_elem_of_In; eapply list_elem_of_lookup_2; eauto).
      apply Hall in Hin. apply Hf in Hg. congruence. }
    assert (Er : tally isReading gs = 0%nat) by (apply Hnone; now intros []).
    assert (El : tally isLocking gs = 0%nat) by (apply Hnone; now intros []).
    assert (Ew : tally isWriting gs = 0%nat) by (apply Hnone; now intros []).
    destruct mu as [n w]. cbn [readerCount writer] in *. unfold unlocked.
    destruct w; [f_equal; lia|lia|lia].
Qed.

End Locks.

Section Alone.
Context `{UnicodeTables}.

(** The early returns of [NaturalLanguageFilterHandler] are its answers
    whatever the store holds. *)
Lemma beforeRLock_answer (c : queryParams) (r : naturalResponse) (stringStore : store) :
  beforeRLock c = Some r -> NaturalLanguageFilterHandler c stringStore = r.
Proof.
  unfold beforeRLock, NaturalLanguageFilterHandler. cbv zeta.
  destruct (String.eqb (Query c "query") ""); [congruence|].
  destruct (ParseNaturalLanguageQuery (Query c "query")) as [pf|e]; [discriminate|].
  destruct (Strings.Contains (Error e) "conflicting"); congruence.
Qed.

Lemma alone_step (mu mu' : RWMutex) (stringStore stringStore' : store) (g g' : goroutine) :
  lockStep mu stringStore g = Some (mu', stringStore', g') ->
  lockedStep (mu, stringStore, [g]) (mu', stringStore', [g']).
Proof. intros Hs. exact (locked_at mu mu' stringStore stringStore' [g] 0 g g' eq_refl Hs). Qed.

Lemma read_alone (r : reader) (rq : request) (stringStore : store) :
  enter rq = Reads r ->
  nsteps lockedStep 2 (unlocked, stringStore, [Called rq])
         (unlocked, stringStore, [readSection r stringStore]).
Proof.
  intros E. eapply nsteps_l.
  { apply alone_step. cbn [lockStep]. rewrite E. reflexivity. }
  eapply nsteps_l; [apply alone_step; reflexivity|]. apply nsteps_O.
Qed.

Lemma write_alone (u : updater) (stringStore : store) (g : goroutine) :
  lockStep unlocked stringStore g
  = Some ({| readerCount := 0; writer := WriterWaiting |}, stringStore, Locking u) ->
  nsteps lockedStep 3 (unlocked, stringStore, [g])
         (unlocked, fst (writeSection u stringStore), [snd (writeSection u stringStore)]).
Proof.
  intros E. eapply nsteps_l; [apply alone_step; exact E|].
  eapply nsteps_l; [apply alone_step; reflexivity|].
  eapply nsteps_l; [|apply nsteps_O].
  apply alone_step. cbn [lockStep]. now destruct (writeSection u stringStore).
Qed.

(** A request that runs alone, from a free lock, ends with the store
    and the answer of its handler, and with the lock free. *)
Lemma request_alone (rq : request) (stringStore : store) :
  exists k, nsteps lockedStep k (unlocked, stringStore, [Called rq])
                   (unlocked, fst (serve rq stringStore),
                    [Returned (snd (serve rq stringStore))]).
Proof.
  destruct rq as [b now|v|c|c|v]; cbn [serve].
  - unfold CreateStringHandler.
    destruct (ShouldBindJSON b) as [value|r] eqn:Eb; cbn [fst snd].
    + destruct (stringStore !! generateSHA256Hash value) as [a|] eqn:El; cbn [fst snd].
      * exists 2%nat.
        pose proof (read_alone (RCheck value now) (RqCreate b now) stringStore) as Hr.
        cbn [enter readSection] in Hr. rewrite Eb, El in Hr. now apply Hr.
      * exists 5%nat.
        pose proof (read_alone (RCheck value now) (RqCreate b now) stringStore) as Hr.
        cbn [enter readSection] in Hr. rewrite Eb, El in Hr.
        change 5%nat with (2 + 3)%nat. eapply nsteps_trans; [now apply Hr|].
        exact (write_alone (PutRecord (newAnalyzedString value now)) stringStore
                 (Computing (newAnalyzedString value now)) eq_refl).
    + exists 1%nat. eapply nsteps_l; [|apply nsteps_O].
      apply alone_step. cbn [lockStep enter]. now rewrite Eb.
  - exists 2%nat. exact (read_alone (RLookup v) (RqGet v) stringStore eq_refl).
  - exists 2%nat. exact (read_alone (RFilter c) (RqFiltered c) stringStore eq_refl).
  - destruct (beforeRLock c) as [r|] eqn:Ec.
    + exists 1%nat. rewrite (beforeRLock_answer c r stringStore Ec).
      eapply nsteps_l; [|apply nsteps_O].
      apply alone_step. cbn [lockStep enter]. now rewrite Ec.
    + exists 2%nat. apply (read_alone (RNaturalFilter c)). cbn [enter]. now rewrite Ec.
  - exists 3%nat.
    pose proof (write_alone (DropRecord v) stringStore (Called (RqDelete v))
                  eq_refl) as Hw.
    cbn [writeSection] in Hw. destruct (DeleteStringHandler v stringStore). exact Hw.
Qed.

End Alone.

(** ** More of the translator *)

Section Digits.
Import Regexp RegexpFacts.
Local Open Scope Z_scope.
#[local] Arguments String.append !_ _ / : simpl nomatch.

Lemma greedy_class (c : ascii -> bool) (s u t : string) :
  In (u, t) (greedy c s) ->
  u <> ""%string /\ Forall (fun a => c a = true) (list_ascii_of_string u).
Proof.
  revert u t. induction s as [|a s IH]; intros u t; cbn [greedy]; [intros []|].
  destruct (c a) eqn:Ha; [|intros []].
  rewrite in_app_iff. intros [Hin|[[= <- <-]|[]]].
  - apply in_map_iff in Hin. destruct Hin as ([u' t'] & [= <- <-] & Hin).
    destruct (IH _ _ Hin) as [_ Hall]. split; [discriminate|].
    cbn. now constructor.
  - split; [discriminate|]. cbn. now repeat constructor.
Qed.

(** The group of [<literal>(\d+)] holds decimal digits. *)
Lemma digits_after_sound (l s m d : string) (gs : list string) :
  FindStringSubmatch (Seq (Lit l) (Group (Plus digit))) s = m :: d :: gs -> decimal d.
Proof.
  intros Hf. apply FindStringSubmatch_sound in Hf.
  destruct Hf as (pre & s' & mm & -> & Hin & _ & Hg).
  apply in_matches_Seq in Hin. destruct Hin as (m1 & m2 & H1 & H2 & ->).
  apply in_matches_Lit in H1. destruct H1 as (t & -> & ->).
  apply in_matches_Group in H2. destruct H2 as (m0 & H0 & ->).
  cbn [rest consumed groups app] in *. injection Hg as <- _.
  cbn [matches] in H0. apply in_map_iff in H0. destruct H0 as ([u t'] & <- & Hin).
  cbn [consumed fst]. exact (greedy_class _ _ _ _ Hin).
Qed.

(** The group of [(\d+) words?] holds decimal digits. *)
Lemma reWordCountNum_sound (s m d : string) (gs : list string) :
  FindStringSubmatch reWordCountNum s = m :: d :: gs -> decimal d.
Proof.
  intros Hf. apply FindStringSubmatch_sound in Hf.
  destruct Hf as (pre & s' & mm & -> & Hin & _ & Hg).
  unfold reWordCountNum in Hin.
  apply in_matches_Seq in Hin. destruct Hin as (m1 & m2 & H1 & H2 & ->).
  apply in_matches_Seq in H1. destruct H1 as (m3 & m4 & H3 & H4 & ->).
  apply in_matches_Group in H3. destruct H3 as (m0 & H0 & ->).
  cbn [rest consumed groups app] in *. injection Hg as <- _.
  cbn [matches] in H0. apply in_map_iff in H0. destruct H0 as ([u t'] & <- & Hin).
  cbn [consumed fst]. exact (greedy_class _ _ _ _ Hin).
Qed.

Lemma digits_lower_bound (s : string) (acc n : Z) :
  Strconv.digits acc s = Some n -> 0 <= acc -> acc <= n.
Proof.
  revert acc. induction s as [|a s IH]; intros acc; cbn [Strconv.digits].
  - intros [= <-] _. lia.
  - destruct (Strconv.isDigit a) eqn:Ha; [|discriminate].
    intros Hd Hacc. apply IH in Hd.
    + unfold Strconv.isDigit in Ha. lia.
    + unfold Strconv.isDigit in Ha. lia.
Qed.

(** [strconv.Atoi] on decimal digits yields a non-negative [int]. *)
Lemma Atoi_decimal (d : string) (n : Z) :
  decimal d -> Strconv.Atoi d = Some n -> 0 <= n <= GoInt.MaxInt.
Proof.
  intros [Hne Hall]. destruct d as [|a d]; [congruence|].
  apply Forall_cons in Hall. destruct Hall as [Ha _].
  unfold Strconv.Atoi.
  assert (Hsign : a <> "-"%char /\ a <> "+"%char).
  { split; intros ->; vm_compute in Ha; discriminate. }
  destruct Hsign as [Hm Hp].
  replace (match String a d with
           | String "-"%char s' => (true, s')
           | String "+"%char s' => (false, s')
           | _ => (false, String a d)
           end) with (false, String a d).
  2:{ destruct a as [[] [] [] [] [] [] [] []]; try reflexivity; congruence. }
  destruct (Strconv.digits 0 (String a d)) as [v|] eqn:Hd; [|discriminate].
  apply digits_lower_bound in Hd; [|lia].
  destruct ((GoInt.MinInt <=? v) && (v <=? GoInt.MaxInt)) eqn:Hr; [|discriminate].
  intros [= <-]. lia.
Qed.

End Digits.

Section Shape.
Context `{UnicodeTables}.
Import Regexp RegexpFacts.
Local Open Scope Z_scope.

Lemma wellTyped_insert (k : string) (v : value) (pf : gmap string value) :
  typed k v -> wellTyped pf -> wellTyped (<[k := v]> pf).
Proof.
  intros Hv Hpf k' v' Hl. apply lookup_insert_Some in Hl.
  destruct Hl as [[<- <-]|[_ Hl]]; [exact Hv|now apply Hpf].
Qed.

Lemma wrap_succ (n : Z) :
  0 <= n <= GoInt.MaxInt ->
  0 <= GoInt.add n 1 <= GoInt.MaxInt \/ GoInt.add n 1 = GoInt.MinInt.
Proof.
  unfold GoInt.add, GoInt.wrap, GoInt.MaxInt, GoInt.MinInt. intros Hn.
  destruct (Z.eq_dec n (2 ^ 63 - 1)) as [->|Hne].
  - right. reflexivity.
  - left. rewrite Z.mod_small by lia. lia.
Qed.

Lemma wrap_pred (n : Z) :
  0 <= n <= GoInt.MaxInt -> GoInt.sub n 1 = n - 1.
Proof.
  unfold GoInt.sub, GoInt.wrap, GoInt.MaxInt. intros Hn.
  rewrite Z.mod_small by lia. lia.
Qed.

Lemma parsePalindrome_typed (lq : string) (pf : gmap string value) :
  wellTyped pf -> wellTyped (parsePalindrome lq pf).
Proof.
  intros Hpf. unfold parsePalindrome. destruct (_ || _); [|exact Hpf].
  apply wellTyped_insert; [|exact Hpf]. left. auto.
Qed.

Lemma parseWordCount_typed (lq : string) (pf pf' : gmap string value) :
  parseWordCount lq pf = Ok pf' -> wellTyped pf -> wellTyped pf'.
Proof.
  intros Hp Hpf. unfold parseWordCount in Hp.
  assert (Hset : forall n, 0 <= n <= GoInt.MaxInt ->
                           wellTyped (<["word_count"%string := VInt n]> pf)).
  { intros n Hn. apply wellTyped_insert; [|exact Hpf]. right. left. eauto. }
  assert (Hnum : forall pf',
            match FindStringSubmatch reWordCountNum lq with
            | _ :: d :: _ =>
                match Strconv.Atoi d with
                | Some num => Ok (<["word_count"%string := VInt num]> pf)
                | None => Ok pf
                end
            | _ => Ok pf
            end = (Ok pf' : result _ parseError) -> wellTyped pf').
  { intros pf0.
    destruct (FindStringSubmatch reWordCountNum lq) as [|m [|d gs]] eqn:Hf;
      try (intros [= <-]; exact Hpf).
    destruct (Strconv.Atoi d) as [num|] eqn:Ha; intros [= <-]; [|exact Hpf].
    apply Hset. eapply Atoi_decimal; [|exact Ha]. eapply reWordCountNum_sound; eauto. }
  destruct (FindStringSubmatch reWordCount lq) as [|m [|w gs]]; try (now apply Hnum).
  repeat match type of Hp with
         | (if ?c then _ else _) = _ => destruct c
         end;
    try discriminate; injection Hp as <-; apply Hset; vm_compute; split; discriminate.
Qed.

Lemma parseLongerThan_typed (lq : string) (pf pf' : gmap string value) :
  parseLongerThan lq pf = Ok pf' -> wellTyped pf -> wellTyped pf'.
Proof.
  intros Hp Hpf. unfold parseLongerThan in Hp.
  destruct (FindStringSubmatch reLongerThan lq) as [|m [|d gs]] eqn:Hf;
    try (injection Hp as <-; exact Hpf).
  destruct (Strconv.Atoi d) as [num|] eqn:Ha; [|injection Hp as <-; exact Hpf].
  assert (Hn : 0 <= num <= GoInt.MaxInt).
  { eapply Atoi_decimal; [|exact Ha]. eapply digits_after_sound; eauto. }
  assert (Hset : wellTyped (<["min_length"%string := VInt (GoInt.add num 1)]> pf)).
  { apply wellTyped_insert; [|exact Hpf]. right. right. left.
    split; [reflexivity|]. eexists. split; [reflexivity|]. now apply wrap_succ. }
  destruct (asInt (pf !! "min_length"%string)) as [existingMin|];
    [destruct (GoInt.add num 1 <? existingMin); [discriminate|]|];
    injection Hp as <-; exact Hset.
Qed.

Lemma parseShorterThan_typed (lq : string) (pf pf' : gmap string value) :
  parseShorterThan lq pf = Ok pf' -> wellTyped pf -> wellTyped pf'.
Proof.
  intros Hp Hpf. unfold parseShorterThan in Hp.
  destruct (FindStringSubmatch reShorterThan lq) as [|m [|d gs]] eqn:Hf;
    try (injection Hp as <-; exact Hpf).
  destruct (Strconv.Atoi d) as [num|] eqn:Ha; [|injection Hp as <-; exact Hpf].
  assert (Hn : 0 <= num <= GoInt.MaxInt).
  { eapply Atoi_decimal; [|exact Ha]. eapply digits_after_sound; eauto. }
  assert (Hset : wellTyped (<["max_length"%string := VInt (GoInt.sub num 1)]> pf)).
  { apply wellTyped_insert; [|exact Hpf]. right. right. right. left.
    split; [reflexivity|]. eexists. split; [reflexivity|]. rewrite wrap_pred by exact Hn.
    lia. }
  destruct (asInt (pf !! "max_length"%string)) as [existingMax|];
    [destruct (existingMax <? GoInt.sub num 1); [discriminate|]|];
    injection Hp as <-; exact Hset.
Qed.

Lemma parseExactly_typed (lq : string) (pf pf' : gmap string value) :
  parseExactly lq pf = Ok pf' -> wellTyped pf -> wellTyped pf'.
Proof.
  intros Hp Hpf. unfold parseExactly in Hp.
  destruct (FindStringSubmatch reExactlyLength lq) as [|m [|d gs]] eqn:Hf;
    try (injection Hp as <-; exact Hpf).
  destruct (Strconv.Atoi d) as [num|] eqn:Ha; [|injection Hp as <-; exact Hpf].
  assert (Hn : 0 <= num <= GoInt.MaxInt).
  { eapply Atoi_decimal; [|exact Ha]. eapply digits_after_sound; eauto. }
  cbv zeta in Hp.
  repeat match type of Hp with
         | (if ?c then _ else _) = _ => destruct c; [discriminate|]
         end.
  injection Hp as <-.
  apply wellTyped_insert.
  { right. right. right. left. split; [reflexivity|]. eexists. split; [reflexivity|]. lia. }
  apply wellTyped_insert; [|exact Hpf].
  right. right. left. split; [reflexivity|]. eexists. split; [reflexivity|]. now left.
Qed.

Lemma parseContainsChar_typed (lq : string) (pf : gmap string value) :
  wellTyped pf -> wellTyped (parseContainsChar lq pf).
Proof.
  intros Hpf. unfold parseContainsChar.
  destruct (FindStringSubmatch reContainsChar lq) as [|m [|x gs]] eqn:Hf.
  1,2: destruct (Strings.Contains lq "contains the first vowel"); [|exact Hpf];
       apply wellTyped_insert; [|exact Hpf];
       do 4 right; split; [reflexivity|]; exists "a"%char; split; reflexivity.
  apply wellTyped_insert; [|exact Hpf]. do 4 right. split; [reflexivity|].
  apply FindStringSubmatch_sound in Hf.
  destruct Hf as (pre & s' & mm & -> & Hin & _ & Hg).
  unfold reContainsChar in Hin. apply in_matches_Seq in Hin.
  destruct Hin as (m1 & m2 & H1 & H2 & ->).
  apply in_matches_Lit in H1. destruct H1 as (t & -> & ->).
  apply in_matches_Group in H2. destruct H2 as (m0 & H0 & ->).
  cbn [rest consumed groups app] in *.
  cbn [matches] in H0. destruct t as [|a t]; [destruct H0|].
  destruct (lower a) eqn:Hlow; [|destruct H0].
  destruct H0 as [<-|[]]. cbn [consumed groups] in *.
  injection Hg as <- _. now exists a.
Qed.

Lemma parseRules_typed (lq : string) (pf : gmap string value) :
  parseRules lq = Ok pf -> wellTyped pf.
Proof.
  unfold parseRules.
  destruct (parseWordCount lq (parsePalindrome lq ∅)) as [pf1|] eqn:E1; cbn [bind];
    [|discriminate].
  destruct (parseLongerThan lq pf1) as [pf2|] eqn:E2; cbn [bind]; [|discriminate].
  destruct (parseShorterThan lq pf2) as [pf3|] eqn:E3; cbn [bind]; [|discriminate].
  destruct (parseExactly lq pf3) as [pf4|] eqn:E4; cbn [bind]; [|discriminate].
  intros [= <-]. apply parseContainsChar_typed.
  apply (parseExactly_typed _ _ _ E4), (parseShorterThan_typed _ _ _ E3),
    (parseLongerThan_typed _ _ _ E2), (parseWordCount_typed _ _ _ E1),
    parsePalindrome_typed.
  intros k v Hl. rewrite lookup_empty in Hl. discriminate.
Qed.

(** What a successful translation holds: under each key a value of the
    key's kind, and bounds that do not cross.  The bounds are those of
    the [int] arithmetic: "longer than 9223372036854775807" yields the
    least [int] as [min_length], "shorter than 0" yields [-1] as
    [max_length]. *)
Theorem translation_well_typed :
  (forall (query : string) (parsedFilters : gmap string value),
     ParseNaturalLanguageQuery query = Ok parsedFilters ->
     (forall k v, parsedFilters !! k = Some v -> typed k v)
     /\ (forall minLen maxLen,
           parsedFilters !! "min_length"%string = Some (VInt minLen) ->
           parsedFilters !! "max_length"%string = Some (VInt maxLen) ->
           minLen <= maxLen))
  /\ ParseNaturalLanguageQuery "longer than 9223372036854775807"
     = Ok {["min_length"%string := VInt GoInt.MinInt]}
  /\ ParseNaturalLanguageQuery "shorter than 0" = Ok {["max_length"%string := VInt (-1)]}.
Proof.
  split; [|split; vm_compute; reflexivity].
  intros query pf. unfold ParseNaturalLanguageQuery.
  destruct (parseRules (Strings.ToLower query)) as [pf0|] eqn:Hr; cbn [bind]; [|discriminate].
  unfold parseFinish. destruct (checkMinMax pf0) eqn:Hc; cbn [bind]; [|discriminate].
  destruct (Nat.eqb (size pf0) 0); [discriminate|]. intros [= <-].
  split; [exact (parseRules_typed _ _ Hr)|].
  intros minLen maxLen Hmin Hmax. unfold checkMinMax in Hc. rewrite Hmin, Hmax in Hc.
  cbn [asInt] in Hc. destruct (maxLen <? minLen) eqn:E; [discriminate|]. lia.
Qed.

End Shape.

Section LengthRules.
Context `{UnicodeTables}.
Local Open Scope Z_scope.

Lemma parseLongerThan_fresh (lq : string) (pf : gmap string value) :
  pf !! "min_length"%string = None ->
  parseLongerThan lq pf
  = Ok (match firstNumber reLongerThan lq with
        | Some n => <["min_length"%string := VInt (GoInt.add n 1)]> pf
        | None => pf
        end).
Proof.
  intros Hmin. unfold parseLongerThan, firstNumber. rewrite Hmin. cbn [asInt].
  destruct (Regexp.FindStringSubmatch reLongerThan lq) as [|m [|d gs]]; try reflexivity.
  destruct (Strconv.Atoi d); reflexivity.
Qed.

Lemma parseShorterThan_fresh (lq : string) (pf : gmap string value) :
  pf !! "max_length"%string = None ->
  parseShorterThan lq pf
  = Ok (match firstNumber reShorterThan lq with
        | Some n => <["max_length"%string := VInt (GoInt.sub n 1)]> pf
        | None => pf
        end).
Proof.
  intros Hmax. unfold parseShorterThan, firstNumber. rewrite Hmax. cbn [asInt].
  destruct (Regexp.FindStringSubmatch reShorterThan lq) as [|m [|d gs]]; try reflexivity.
  destruct (Strconv.Atoi d); reflexivity.
Qed.

Lemma parseExactly_firstNumber (lq : string) (pf : gmap string value) :
  parseExactly lq pf
  = match firstNumber reExactlyLength lq with
    | Some num =>
        if match asInt (pf !! "min_length"%string) with
           | Some existingMin => num <? existingMin
           | None => false
           end
        then Err ConflictingLengthFilters
        else if match asInt (pf !! "max_length"%string) with
                | Some existingMax => existingMax <? num
                | None => false
                end
        then Err ConflictingLengthFilters
        else Ok (<["max_length"%string := VInt num]>
                   (<["min_length"%string := VInt num]> pf))
    | None => Ok pf
    end.
Proof.
  unfold parseExactly, firstNumber.
  destruct (Regexp.FindStringSubmatch reExactlyLength lq) as [|m [|d gs]]; try reflexivity.
Qed.

(** The length rules after a word-count rule that left [pf1]: the
    bounds "longer than" and "shorter than" set, and what "exactly"
    makes of them. *)
Lemma length_rules (lq : string) (pf1 : gmap string value) :
  pf1 !! "min_length"%string = None ->
  pf1 !! "max_length"%string = None ->
  let lower := (fun n => GoInt.add n 1) <$> firstNumber reLongerThan lq in
  let upper := (fun n => GoInt.sub n 1) <$> firstNumber reShorterThan lq in
  match firstNumber reExactlyLength lq with
  | Some num =>
      if match lower with Some a => num <? a | None => false end
         || match upper with Some b => b <? num | None => false end
      then (pf2 <~ parseLongerThan lq pf1;
            pf3 <~ parseShorterThan lq pf2;
            parseExactly lq pf3) = Err ConflictingLengthFilters
      else exists pf4,
          (pf2 <~ parseLongerThan lq pf1;
           pf3 <~ parseShorterThan lq pf2;
           parseExactly lq pf3) = Ok pf4
          /\ pf4 !! "min_length"%string = Some (VInt num)
          /\ pf4 !! "max_length"%string = Some (VInt num)
  | None =>
      exists pf4,
        (pf2 <~ parseLongerThan lq pf1;
         pf3 <~ parseShorterThan lq pf2;
         parseExactly lq pf3) = Ok pf4
        /\ pf4 !! "min_length"%string = VInt <$> lower
        /\ pf4 !! "max_length"%string = VInt <$> upper
  end.
Proof.
  intros Hmin Hmax lower upper. subst lower upper.
  rewrite (parseLongerThan_fresh lq pf1 Hmin). cbn [bind].
  set (pf2 := match firstNumber reLongerThan lq with
              | Some n => <["min_length"%string := VInt (GoInt.add n 1)]> pf1
              | None => pf1
              end).
  assert (Hmin2 : pf2 !! "min_length"%string
                  = VInt <$> ((fun n => GoInt.add n 1) <$> firstNumber reLongerThan lq)).
  { unfold pf2. destruct (firstNumber reLongerThan lq); cbn; [|exact Hmin].
    apply lookup_insert_eq. }
  assert (Hmax2 : pf2 !! "max_length"%string = None).
  { unfold pf2. destruct (firstNumber reLongerThan lq); [|exact Hmax].
    rewrite lookup_insert_ne by discriminate. exact Hmax. }
  rewrite (parseShorterThan_fresh lq pf2 Hmax2). cbn [bind].
  set (pf3 := match firstNumber reShorterThan lq with
              | Some n => <["max_length"%string := VInt (GoInt.sub n 1)]> pf2
              | None => pf2
              end).
  assert (Hmin3 : pf3 !! "min_length"%string
                  = VInt <$> ((fun n => GoInt.add n 1) <$> firstNumber reLongerThan lq)).
  { unfold pf3. destruct (firstNumber reShorterThan lq); [|exact Hmin2].
    rewrite lookup_insert_ne by discriminate. exact Hmin2. }
  assert (Hmax3 : pf3 !! "max_length"%string
                  = VInt <$> ((fun n => GoInt.sub n 1) <$> firstNumber reShorterThan lq)).
  { unfold pf3. destruct (firstNumber reShorterThan lq); cbn; [|exact Hmax2].
    apply lookup_insert_eq. }
  rewrite parseExactly_firstNumber, Hmin3, Hmax3.
  destruct (firstNumber reExactlyLength lq) as [num|].
  - destruct (firstNumber reLongerThan lq) as [n1|];
      destruct (firstNumber reShorterThan lq) as [n2|];
      cbn [fmap option_fmap option_map asInt orb];
      repeat match goal with
             | |- context [?a <? ?b] => destruct (a <? b); cbn [orb]
             end;
      try reflexivity;
      (eexists; split; [reflexivity|]; split;
       [rewrite lookup_insert_ne by discriminate|]; apply lookup_insert_eq).
  - exists pf3. auto.
Qed.

(** The rules before the length rules leave both bounds unset. *)
Lemma before_length_rules (lq : string) (pf1 : gmap string value) :
  parseWordCount lq (parsePalindrome lq ∅) = Ok pf1 ->
  pf1 !! "min_length"%string = None /\ pf1 !! "max_length"%string = None.
Proof.
  intros Hwc. split.
  - rewrite (parseWordCount_other lq "min_length" _ _ ltac:(discriminate) Hwc).
    rewrite parsePalindrome_other by discriminate. apply lookup_empty.
  - rewrite (parseWordCount_other lq "max_length" _ _ ltac:(discriminate) Hwc).
    rewrite parsePalindrome_other by discriminate. apply lookup_empty.
Qed.

(** The translator as word-count rule, length rules and final checks. *)
Lemma ParseNaturalLanguageQuery_stages (query : string) :
  let lq := Strings.ToLower query in
  ParseNaturalLanguageQuery query
  = (pf1 <~ parseWordCount lq (parsePalindrome lq ∅);
     pf4 <~ (pf2 <~ parseLongerThan lq pf1;
             pf3 <~ parseShorterThan lq pf2;
             parseExactly lq pf3);
     parseFinish (parseContainsChar lq pf4)).
Proof.
  intros lq. unfold ParseNaturalLanguageQuery, parseRules. fold lq.
  destruct (parseWordCount lq (parsePalindrome lq ∅)) as [pf1|]; cbn [bind]; [|reflexivity].
  destruct (parseLongerThan lq pf1) as [pf2|]; cbn [bind]; [|reflexivity].
  destruct (parseShorterThan lq pf2) as [pf3|]; cbn [bind]; [|reflexivity].
  destruct (parseExactly lq pf3) as [pf4|]; cbn [bind]; reflexivity.
Qed.

(** The bounds of a successful translation: "exactly N" sets both to
    [N] and overrides the other two phrases; without it "longer than N"
    sets [min_length] to [N + 1] and "shorter than N" sets [max_length]
    to [N - 1]; a phrase that is absent sets nothing. *)
Theorem translated_length_bounds (query : string) (parsedFilters : gmap string value) :
  ParseNaturalLanguageQuery query = Ok parsedFilters ->
  let lowerQuery := Strings.ToLower query in
  match firstNumber reExactlyLength lowerQuery with
  | Some num =>
      parsedFilters !! "min_length"%string = Some (VInt num)
      /\ parsedFilters !! "max_length"%string = Some (VInt num)
  | None =>
      parsedFilters !! "min_length"%string
      = (fun n => VInt (GoInt.add n 1)) <$> firstNumber reLongerThan lowerQuery
      /\ parsedFilters !! "max_length"%string
         = (fun n => VInt (GoInt.sub n 1)) <$> firstNumber reShorterThan lowerQuery
  end.
Proof.
  intros Hp lq. rewrite ParseNaturalLanguageQuery_stages in Hp. fold lq in Hp.
  destruct (parseWordCount lq (parsePalindrome lq ∅)) as [pf1|] eqn:Hwc; cbn [bind] in Hp;
    [|discriminate].
  destruct (before_length_rules lq pf1 Hwc) as [Hmin Hmax].
  pose proof (length_rules lq pf1 Hmin Hmax) as Hlen. cbv zeta in Hlen.
  destruct (pf2 <~ parseLongerThan lq pf1;
            pf3 <~ parseShorterThan lq pf2;
            parseExactly lq pf3) as [pf4|] eqn:E4; cbn [bind] in Hp; [|discriminate].
  assert (Emin : parsedFilters !! "min_length"%string = pf4 !! "min_length"%string
                 /\ parsedFilters !! "max_length"%string = pf4 !! "max_length"%string).
  { unfold parseFinish in Hp. destruct (checkMinMax _); cbn [bind] in Hp; [|discriminate].
    destruct (Nat.eqb _ 0); [discriminate|]. injection Hp as <-.
    now rewrite !parseContainsChar_other by discriminate. }
  destruct Emin as [Emin Emax].
  rewrite Emin, Emax.
  destruct (firstNumber reExactlyLength lq) as [num|].
  - destruct (_ || _); [discriminate|].
    destruct Hlen as (pf & [= <-] & H1 & H2). auto.
  - destruct Hlen as (pf & [= <-] & H1 & H2). rewrite H1, H2.
    destruct (firstNumber reLongerThan lq), (firstNumber reShorterThan lq); auto.
Qed.

(** The conflict checks of the "longer than" and "shorter than" rules
    never fire: a translation fails with "conflicting length filters
    detected" exactly when an "exactly N" phrase contradicts the bound of
    a "longer than" or a "shorter than" phrase (and the word-count rule
    has not failed before). *)
Theorem length_conflict_needs_exactly (query : string) :
  let lowerQuery := Strings.ToLower query in
  ParseNaturalLanguageQuery query = Err ConflictingLengthFilters
  <-> (exists pf1, parseWordCount lowerQuery (parsePalindrome lowerQuery ∅) = Ok pf1)
      /\ exists num, firstNumber reExactlyLength lowerQuery = Some num
           /\ ((exists n, firstNumber reLongerThan lowerQuery = Some n
                          /\ num < GoInt.add n 1)
               \/ (exists n, firstNumber reShorterThan lowerQuery = Some n
                             /\ GoInt.sub n 1 < num)).
Proof.
  intros lq. rewrite ParseNaturalLanguageQuery_stages. fold lq.
  destruct (parseWordCount lq (parsePalindrome lq ∅)) as [pf1|e1] eqn:Hwc; cbn [bind].
  2:{ split.
      - intros [= ->]. apply parseWordCount_Err in Hwc.
        destruct Hwc as (? & ? & ? & _ & ? & _). discriminate.
      - intros [(pf1 & ?) _]. discriminate. }
  destruct (before_length_rules lq pf1 Hwc) as [Hmin Hmax].
  pose proof (length_rules lq pf1 Hmin Hmax) as Hlen. cbv zeta in Hlen.
  assert (Hend : forall pf4, parseFinish (parseContainsChar lq pf4)
                             <> Err ConflictingLengthFilters).
  { intros pf4 E. apply parseFinish_Err in E. destruct E; discriminate. }
  destruct (firstNumber reExactlyLength lq) as [num|].
  - generalize dependent (firstNumber reLongerThan lq).
    generalize dependent (firstNumber reShorterThan lq). intros o2 o1 Hlen.
    assert (Hiff : (match (fun n => GoInt.add n 1) <$> o1 with
                    | Some a => num <? a
                    | None => false
                    end
                    || match (fun n => GoInt.sub n 1) <$> o2 with
                       | Some b => b <? num
                       | None => false
                       end) = true
                   <-> ((exists n, o1 = Some n /\ num < GoInt.add n 1)
                        \/ (exists n, o2 = Some n /\ GoInt.sub n 1 < num))).
    { rewrite orb_true_iff. split.
      - intros [Ha|Hb].
        + left. destruct o1 as [n1|]; cbn in Ha; [|discriminate].
          exists n1. split; [reflexivity|lia].
        + right. destruct o2 as [n2|]; cbn in Hb; [|discriminate].
          exists n2. split; [reflexivity|lia].
      - intros [(n & -> & Hlt)|(n & -> & Hlt)]; cbn; [left|right]; lia. }
    destruct (_ || _) eqn:Hc.
    + rewrite Hlen. cbn [bind]. split; [intros _|reflexivity].
      split; [now exists pf1|]. exists num. split; [reflexivity|]. now apply Hiff.
    + destruct Hlen as (pf4 & -> & _). cbn [bind].
      split; [intros E; now apply Hend in E|].
      intros (_ & num' & [= <-] & Hd). apply Hiff in Hd. discriminate.
  - destruct Hlen as (pf4 & -> & _); cbn [bind].
    split; [intros E; now apply Hend in E|]. intros (_ & num & E & _). discriminate.
Qed.

End LengthRules.

Section OtherFilters.
Context `{UnicodeTables}.
Local Open Scope Z_scope.

Lemma parseLongerThan_other (lq k : string) (pf pf' : gmap string value) :
  k <> "min_length"%string -> parseLongerThan lq pf = Ok pf' -> pf' !! k = pf !! k.
Proof.
  intros Hk. unfold parseLongerThan.
  repeat match goal with
         | |- context [match ?x with _ => _ end] => destruct x
         end;
  intros [= <-]; try reflexivity; now rewrite lookup_insert_ne.
Qed.

Lemma parseShorterThan_other (lq k : string) (pf pf' : gmap string value) :
  k <> "max_length"%string -> parseShorterThan lq pf = Ok pf' -> pf' !! k = pf !! k.
Proof.
  intros Hk. unfold parseShorterThan.
  repeat match goal with
         | |- context [match ?x with _ => _ end] => destruct x
         end;
  intros [= <-]; try reflexivity; now rewrite lookup_insert_ne.
Qed.

Lemma parseExactly_other (lq k : string) (pf pf' : gmap string value) :
  k <> "min_length"%string -> k <> "max_length"%string ->
  parseExactly lq pf = Ok pf' -> pf' !! k = pf !! k.
Proof.
  intros Hk1 Hk2. rewrite parseExactly_firstNumber.
  repeat match goal with
         | |- context [match ?x with _ => _ end] => destruct x
         end;
  intros [= <-]; try reflexivity. now rewrite !lookup_insert_ne.
Qed.

(** The filters of a successful translation other than the bounds:
    [is_palindrome] is set exactly when the lower-cased query mentions
    "palindrome" or "palindromic"; [word_count] is the count the
    leftmost number word names and, only without a number word before
    " word", the leftmost number before " word"; [contains_character]
    is the letter after the leftmost "contains the letter " and, only
    without one, "a" for "contains the first vowel". *)
Theorem translated_other_filters (query : string) (parsedFilters : gmap string value) :
  ParseNaturalLanguageQuery query = Ok parsedFilters ->
  let lowerQuery := Strings.ToLower query in
  parsedFilters !! "is_palindrome"%string
  = (if Strings.Contains lowerQuery "palindrome"
        || Strings.Contains lowerQuery "palindromic"
     then Some (VBool true) else None)
  /\ parsedFilters !! "word_count"%string
     = match Regexp.FindStringSubmatch reWordCount lowerQuery with
       | _ :: w :: _ => VInt <$> supportedWordCount w
       | _ => VInt <$> firstNumber reWordCountNum lowerQuery
       end
  /\ parsedFilters !! "contains_character"%string
     = match Regexp.FindStringSubmatch reContainsChar lowerQuery with
       | _ :: x :: _ => Some (VString x)
       | _ =>
           if Strings.Contains lowerQuery "contains the first vowel"
           then Some (VString "a") else None
       end.
Proof.
  intros Hp lq. unfold ParseNaturalLanguageQuery, parseRules in Hp. fold lq in Hp.
  set (pf0 := parsePalindrome lq ∅) in Hp.
  destruct (parseWordCount lq pf0) as [pf1|] eqn:E1; cbn [bind] in Hp; [|discriminate].
  destruct (parseLongerThan lq pf1) as [pf2|] eqn:E2; cbn [bind] in Hp; [|discriminate].
  destruct (parseShorterThan lq pf2) as [pf3|] eqn:E3; cbn [bind] in Hp; [|discriminate].
  destruct (parseExactly lq pf3) as [pf4|] eqn:E4; cbn [bind] in Hp; [|discriminate].
  unfold parseFinish in Hp. destruct (checkMinMax _); cbn [bind] in Hp; [|discriminate].
  destruct (Nat.eqb _ 0); [discriminate|]. injection Hp as <-.
  assert (Hlater : forall k, k <> "min_length"%string -> k <> "max_length"%string ->
                             pf4 !! k = pf1 !! k).
  { intros k Hk1 Hk2.
    rewrite (parseExactly_other lq k pf3 pf4 Hk1 Hk2 E4).
    rewrite (parseShorterThan_other lq k pf2 pf3 Hk2 E3).
    exact (parseLongerThan_other lq k pf1 pf2 Hk1 E2). }
  split; [|split].
  - rewrite parseContainsChar_other by discriminate.
    rewrite Hlater by discriminate.
    rewrite (parseWordCount_other lq "is_palindrome" pf0 pf1 ltac:(discriminate) E1).
    unfold pf0, parsePalindrome.
    destruct (_ || _); [apply lookup_insert_eq|apply lookup_empty].
  - rewrite parseContainsChar_other by discriminate.
    rewrite Hlater by discriminate.
    assert (H0 : pf0 !! "word_count"%string = None).
    { unfold pf0. rewrite parsePalindrome_other by discriminate. apply lookup_empty. }
    destruct (Regexp.FindStringSubmatch reWordCount lq) as [|m [|w gs]] eqn:Hf.
    3:{ rewrite (parseWordCount_named lq m w gs pf0 Hf) in E1.
        destruct (supportedWordCount w); [|discriminate].
        injection E1 as <-. apply lookup_insert_eq. }
    all: unfold parseWordCount in E1; rewrite Hf in E1; unfold firstNumber;
      destruct (Regexp.FindStringSubmatch reWordCountNum lq) as [|m' [|d gs']];
      try (injection E1 as <-; exact H0);
      destruct (Strconv.Atoi d); injection E1 as <-;
      [apply lookup_insert_eq|exact H0].
  - assert (H4 : pf4 !! "contains_character"%string = None).
    { rewrite Hlater by discriminate.
      rewrite (parseWordCount_other lq "contains_character" pf0 pf1 ltac:(discriminate) E1).
      unfold pf0. rewrite parsePalindrome_other by discriminate. apply lookup_empty. }
    unfold parseContainsChar.
    destruct (Regexp.FindStringSubmatch reContainsChar lq) as [|m [|x gs]];
      try apply lookup_insert_eq;
      (destruct (Strings.Contains lq "contains the first vowel");
       [apply lookup_insert_eq|exact H4]).
Qed.

End OtherFilters.

(** ** The filtering handlers *)

Section Filters.
Local Open Scope Z_scope.

Lemma hasCharacter_lookup (str : AnalyzedString) (c : Z) :
  hasCharacter str c = true <-> is_Some (CharacterFrequencyMap (Properties str) !! c).
Proof.
  unfold hasCharacter. rewrite existsb_exists. split.
  - intros ([k v] & Hin & Hk). cbn [fst] in Hk. apply Z.eqb_eq in Hk. subst k.
    apply list_elem_of_In, elem_of_map_to_list in Hin. eauto.
  - intros [v Hv]. exists (c, v). split; [|apply Z.eqb_refl].
    now apply list_elem_of_In, elem_of_map_to_list.
Qed.

Ltac filter_lookups :=
  repeat first [ rewrite lookup_insert_eq
               | rewrite lookup_insert_ne by discriminate
               | rewrite lookup_empty ].

(** A filter of the request is in the result, whatever was there. *)
Lemma withFilters_lookup (c : queryParams) (key : string) (fs : gmap string value) :
  In key ["is_palindrome"; "min_length"; "max_length"; "word_count";
          "contains_character"]%string ->
  withFilters c fs !! key
  = match readFilter c key with Some v => Some v | None => fs !! key end.
Proof.
  intros Hin. cbn [In] in Hin. unfold withFilters, withFilter.
  repeat (destruct Hin as [<-|Hin]; [
    destruct (readFilter c "is_palindrome"), (readFilter c "min_length"),
      (readFilter c "max_length"), (readFilter c "word_count"),
      (readFilter c "contains_character"); filter_lookups; reflexivity|]).
  destruct Hin.
Qed.

Lemma withFilters_idempotent (c : queryParams) (fs : gmap string value) :
  withFilters c (withFilters c fs) = withFilters c fs.
Proof.
  assert (Hid : forall key fs',
            (forall v, readFilter c key = Some v -> fs' !! key = Some v) ->
            withFilter c key fs' = fs').
  { intros key fs' Hl. unfold withFilter.
    destruct (readFilter c key) as [v|]; [|reflexivity]. now apply insert_id, Hl. }
  assert (Hl : forall key,
            In key ["is_palindrome"; "min_length"; "max_length"; "word_count";
                    "contains_character"]%string ->
            forall v, readFilter c key = Some v -> withFilters c fs !! key = Some v).
  { intros key Hin v Hv. rewrite withFilters_lookup by exact Hin. now rewrite Hv. }
  unfold withFilters at 1.
  rewrite (Hid "is_palindrome"%string) by (apply Hl; cbn; tauto).
  rewrite (Hid "min_length"%string) by (apply Hl; cbn; tauto).
  rewrite (Hid "max_length"%string) by (apply Hl; cbn; tauto).
  rewrite (Hid "word_count"%string) by (apply Hl; cbn; tauto).
  apply Hid, Hl. cbn. tauto.
Qed.

Lemma requestedFilters_lookup (c : queryParams) (key : string) :
  In key ["is_palindrome"; "min_length"; "max_length"; "word_count";
          "contains_character"]%string ->
  requestedFilters c !! key = readFilter c key.
Proof.
  intros Hin. unfold requestedFilters. rewrite withFilters_lookup by exact Hin.
  rewrite lookup_empty. now destruct (readFilter c key).
Qed.

(** One turn of the loop on a request without an invalid parameter:
    the filters of the request are recorded, the record is tested
    against them. *)
Lemma filterRecord_valid (c : queryParams) (str : AnalyzedString) (fs : gmap string value) :
  ~ invalidParams c ->
  filterRecord c str fs = Ok (withFilters c fs, satisfies (requestedFilters c) str).
Proof.
  intros Hvalid. unfold satisfies.
  rewrite !requestedFilters_lookup by (cbn; tauto).
  unfold withFilters, withFilter.
  change (readFilter c "is_palindrome")
    with (if String.eqb (Query c "is_palindrome") ""
          then None else VBool <$> Strconv.ParseBool (Query c "is_palindrome")).
  change (readFilter c "min_length")
    with (if String.eqb (Query c "min_length") ""
          then None else VInt <$> nonNegative (Query c "min_length")).
  change (readFilter c "max_length")
    with (if String.eqb (Query c "max_length") ""
          then None else VInt <$> nonNegative (Query c "max_length")).
  change (readFilter c "word_count")
    with (if String.eqb (Query c "word_count") ""
          then None else VInt <$> nonNegative (Query c "word_count")).
  change (readFilter c "contains_character")
    with (if String.eqb (Query c "contains_character") ""
          then None else Some (VString (Query c "contains_character"))).
  unfold invalidParams in Hvalid. unfold filterRecord.
  revert Hvalid.
  generalize (Query c "is_palindrome") (Query c "min_length") (Query c "max_length")
    (Query c "word_count") (Query c "contains_character").
  intros p1 p2 p3 p4 p5 Hvalid.
  destruct (String.eqb_spec p1 ""); cbn [negb bind];
    [|destruct (Strconv.ParseBool p1) eqn:E1; cbn [bind fmap option_fmap option_map];
      [|exfalso; tauto]];
  (destruct (String.eqb_spec p2 ""); cbn [negb bind];
    [|destruct (nonNegative p2) eqn:E2; cbn [bind fmap option_fmap option_map];
      [|exfalso; tauto]]);
  (destruct (String.eqb_spec p3 ""); cbn [negb bind];
    [|destruct (nonNegative p3) eqn:E3; cbn [bind fmap option_fmap option_map];
      [|exfalso; tauto]]);
  (destruct (String.eqb_spec p4 ""); cbn [negb bind];
    [|destruct (nonNegative p4) eqn:E4; cbn [bind fmap option_fmap option_map];
      [|exfalso; tauto]]);
  (destruct (String.eqb_spec p5 ""); cbn [negb bind];
    [|destruct (runes p5) as [|r [|r' rs]] eqn:E5;
      [exfalso; cbn [length] in Hvalid; intuition congruence
      |
      |exfalso; cbn [length] in Hvalid; intuition congruence]]);
  f_equal; f_equal;
  rewrite ?Z.ltb_antisym;
  repeat match goal with
         | |- context [Bool.eqb ?a ?b] => destruct (Bool.eqb a b)
         | |- context [?a <=? ?b] => destruct (a <=? b)
         | |- context [?a =? ?b] => destruct (a =? b)
         | |- context [hasCharacter ?a ?b] => destruct (hasCharacter a b)
         end; reflexivity.
Qed.

Lemma filterLoop_valid (c : queryParams) (strs acc : list AnalyzedString)
    (fs : gmap string value) :
  ~ invalidParams c ->
  withFilters c fs = fs ->
  filterLoop c strs (FilterState fs acc)
  = Ok (FilterState fs (acc ++ List.filter (satisfies (requestedFilters c)) strs)).
Proof.
  intros Hvalid Hfs. revert acc.
  induction strs as [|str strs IH]; intros acc; cbn [filterLoop List.filter].
  - now rewrite app_nil_r.
  - cbn [filters filteredStrings]. rewrite (filterRecord_valid c str fs Hvalid).
    cbn [bind fst snd]. rewrite Hfs.
    destruct (satisfies (requestedFilters c) str).
    + rewrite IH. now rewrite <- app_assoc.
    + apply IH.
Qed.

(** The whole loop on a request without an invalid parameter. *)
Lemma filterLoop_records (c : queryParams) (strs : list AnalyzedString) :
  ~ invalidParams c ->
  strs <> [] ->
  filterLoop c strs (FilterState ∅ [])
  = Ok (FilterState (requestedFilters c)
          (List.filter (satisfies (requestedFilters c)) strs)).
Proof.
  intros Hvalid Hne. destruct strs as [|str strs]; [congruence|].
  cbn [filterLoop filters filteredStrings List.filter].
  rewrite (filterRecord_valid c str ∅ Hvalid). cbn [bind fst snd].
  fold (requestedFilters c).
  rewrite filterLoop_valid; [|exact Hvalid|apply withFilters_idempotent].
  destruct (satisfies (requestedFilters c) str); reflexivity.
Qed.

Lemma records_not_empty (stringStore : store) : stringStore <> ∅ -> records stringStore <> [].
Proof.
  intros Hne E. apply Hne. apply map_to_list_empty_iff.
  unfold records in E. now destruct (map_to_list stringStore).
Qed.

(** The answer to [GET /strings] with valid parameters on a store that
    is not empty: status [200], the stored records that satisfy every
    requested filter, their number, and the requested filters. *)
Theorem explicit_filters_answer (c : queryParams) (stringStore : store) :
  ~ invalidParams c ->
  stringStore <> ∅ ->
  let data := List.filter (satisfies (requestedFilters c)) (records stringStore) in
  GetFilteredStringsHandler c stringStore
  = Response StatusOK (JFiltered data (Z.of_nat (length data)) (requestedFilters c)).
Proof.
  intros Hvalid Hne data. subst data. unfold GetFilteredStringsHandler.
  fold (records stringStore).
  rewrite (filterLoop_records c (records stringStore) Hvalid (records_not_empty _ Hne)).
  reflexivity.
Qed.

End Filters.

Section Natural.
Context `{UnicodeTables}.
Local Open Scope Z_scope.

(** The filter loop without a panic is a conjunction. *)
Lemma applyFilters_forallb (entries : list (string * value)) (str : AnalyzedString) :
  (forall k v, In (k, v) entries -> applyFilter k v str <> None) ->
  applyFilters entries str
  = Some (forallb (fun kv => default true (applyFilter (fst kv) (snd kv) str)) entries).
Proof.
  induction entries as [|[k v] entries IH]; intros Hsafe; cbn [applyFilters forallb fst snd].
  - reflexivity.
  - destruct (applyFilter k v str) as [[|]|] eqn:E; cbn [default andb].
    + apply IH. intros k' v' Hin. apply Hsafe. now right.
    + reflexivity.
    + exfalso. apply (Hsafe k v); [now left|exact E].
Qed.

(** On filters whose [contains_character] names at least one code
    point, the filter loop tests [satisfies], in whatever order the
    iteration visits the filters. *)
Lemma applyFilters_satisfies (fs : gmap string value) (entries : list (string * value))
    (str : AnalyzedString) :
  (forall k v, In (k, v) entries <-> fs !! k = Some v) ->
  (forall val, fs !! "contains_character"%string = Some (VString val) -> runes val <> []) ->
  applyFilters entries str = Some (satisfies fs str).
Proof.
  intros Hentries Hsafe. rewrite applyFilters_forallb.
  2:{ intros k v Hin. apply Hentries in Hin. unfold applyFilter.
      repeat match goal with
             | |- context [String.eqb ?a ?b] => destruct (String.eqb_spec a b)
             end; subst; destruct v; try discriminate.
      specialize (Hsafe _ Hin). destruct (runes s); [congruence|discriminate]. }
  f_equal. apply eq_true_iff_eq. rewrite forallb_forall. unfold satisfies.
  rewrite !andb_true_iff. split.
  - intros Hall.
    assert (Hkey : forall k v, fs !! k = Some v -> applyFilter k v str <> Some false).
    { intros k v Hl. apply Hentries in Hl. specialize (Hall _ Hl). cbn [fst snd] in Hall.
      intros E. rewrite E in Hall. discriminate. }
    repeat split.
    + destruct (fs !! "is_palindrome"%string) as [[b| |]|] eqn:E; try reflexivity.
      specialize (Hkey _ _ E).
      change (applyFilter "is_palindrome" (VBool b) str)
        with (Some (Bool.eqb (IsPalindrome (Properties str)) b)) in Hkey.
      destruct (Bool.eqb _ b); congruence.
    + destruct (fs !! "min_length"%string) as [[|n|]|] eqn:E; try reflexivity.
      specialize (Hkey _ _ E).
      change (applyFilter "min_length" (VInt n) str)
        with (Some (negb (Length (Properties str) <? n))) in Hkey.
      destruct (Length (Properties str) <? n) eqn:E2; [cbn in Hkey; congruence|lia].
    + destruct (fs !! "max_length"%string) as [[|n|]|] eqn:E; try reflexivity.
      specialize (Hkey _ _ E).
      change (applyFilter "max_length" (VInt n) str)
        with (Some (negb (n <? Length (Properties str)))) in Hkey.
      destruct (n <? Length (Properties str)) eqn:E2; [cbn in Hkey; congruence|lia].
    + destruct (fs !! "word_count"%string) as [[|n|]|] eqn:E; try reflexivity.
      specialize (Hkey _ _ E).
      change (applyFilter "word_count" (VInt n) str)
        with (Some (WordCount (Properties str) =? n)) in Hkey.
      destruct (WordCount (Properties str) =? n); congruence.
    + destruct (fs !! "contains_character"%string) as [[| |val]|] eqn:E; try reflexivity.
      specialize (Hkey _ _ E).
      change (applyFilter "contains_character" (VString val) str)
        with (match runes val with
              | charToFind :: _ => Some (hasCharacter str charToFind)
              | [] => None
              end) in Hkey.
      destruct (runes val) as [|ch rs]; [reflexivity|].
      destruct (hasCharacter str ch); congruence.
  - intros ((((H1 & H2) & H3) & H4) & H5) [k v] Hin. cbn [fst snd].
    apply Hentries in Hin. unfold applyFilter.
    repeat match goal with
           | |- context [String.eqb ?a ?b] => destruct (String.eqb_spec a b)
           end; subst; try reflexivity; destruct v as [b|num|val]; try reflexivity;
      cbn [default].
    + now rewrite Hin in H1.
    + rewrite Hin in H2. destruct (Length (Properties str) <? num) eqn:E2; [lia|reflexivity].
    + rewrite Hin in H3. destruct (num <? Length (Properties str)) eqn:E2; [lia|reflexivity].
    + now rewrite Hin in H4.
    + rewrite Hin in H5. destruct (runes val); [reflexivity|exact H5].
Qed.

Lemma naturalLoop_filter (fs : gmap string value) (strs acc : list AnalyzedString) :
  (forall val, fs !! "contains_character"%string = Some (VString val) -> runes val <> []) ->
  naturalLoop (map_to_list fs) strs acc = Some (acc ++ List.filter (satisfies fs) strs).
Proof.
  intros Hsafe. revert acc.
  induction strs as [|str strs IH]; intros acc; cbn [naturalLoop List.filter].
  - now rewrite app_nil_r.
  - rewrite (applyFilters_satisfies fs (map_to_list fs) str); [|
      intros k v; rewrite <- list_elem_of_In; apply elem_of_map_to_list|exact Hsafe].
    destruct (satisfies fs str).
    + rewrite IH. now rewrite <- app_assoc.
    + apply IH.
Qed.

End Natural.

Section NaturalAnswer.
Context `{UnicodeTables}.
Local Open Scope Z_scope.

(** The filters of a translation never make the handler panic. *)
Lemma translated_character (query : string) (pf : gmap string value) (val : string) :
  ParseNaturalLanguageQuery query = Ok pf ->
  pf !! "contains_character"%string = Some (VString val) -> runes val <> [].
Proof.
  intros Hp Hl. unfold ParseNaturalLanguageQuery in Hp.
  destruct (parseRules (Strings.ToLower query)) as [pf0|] eqn:Hr; cbn [bind] in Hp;
    [|discriminate].
  unfold parseFinish in Hp. destruct (checkMinMax pf0); cbn [bind] in Hp; [|discriminate].
  destruct (Nat.eqb (size pf0) 0); [discriminate|]. injection Hp as <-.
  destruct (parseRules_typed _ _ Hr _ _ Hl)
    as [[? _]|[[? _]|[[? _]|[[? _]|(_ & ch & Hv & _)]]]]; try discriminate.
  injection Hv as ->. discriminate.
Qed.

(** The text of an [UnsupportedWordCount] error of the translator does
    not mention conflicts. *)
Lemma unsupported_not_conflicting (query w : string) :
  ParseNaturalLanguageQuery query = Err (UnsupportedWordCount w) ->
  Strings.Contains (Error (UnsupportedWordCount w)) "conflicting" = false.
Proof.
  intros Hp. apply ParseNaturalLanguageQuery_unsupported in Hp.
  apply parseWordCount_Err in Hp. destruct Hp as (m & w' & gs & Hf & [= <-] & Hnone).
  destruct (reWordCount_sound _ _ _ Hf) as (w' & Hw & _ & [= <-] & _).
  apply (supportedWordCount_cases w Hw) in Hnone.
  unfold unsupportedWords in Hnone. cbn [In] in Hnone.
  repeat (destruct Hnone as [<-|Hnone]; [vm_compute; reflexivity|]). destruct Hnone.
Qed.

(** The answers of [GET /strings/filter-by-natural-language]: [400]
    without a query, [422] when the translation fails with a conflict,
    [400] with the translator's message when it fails otherwise, and
    else [200] with the stored records that satisfy every translated
    filter; the handler never panics. *)
Theorem natural_language_answer (c : queryParams) (stringStore : store) :
  NaturalLanguageFilterHandler c stringStore
  = let query := Query c "query" in
    if String.eqb query "" then NaturalError StatusBadRequest "Missing 'query' parameter"
    else
      match ParseNaturalLanguageQuery query with
      | Err ConflictingLengthFilters | Err ConflictingMinMax =>
          NaturalError StatusUnprocessableEntity "Conflicting filters detected in query"
      | Err err => NaturalError StatusBadRequest (Error err)
      | Ok parsedFilters =>
          let data := List.filter (satisfies parsedFilters) (records stringStore) in
          NaturalOK data (Z.of_nat (length data)) query parsedFilters
      end.
Proof.
  unfold NaturalLanguageFilterHandler. cbv zeta.
  destruct (String.eqb (Query c "query") ""); [reflexivity|].
  destruct (ParseNaturalLanguageQuery (Query c "query")) as [pf|e] eqn:Hp.
  - unfold records.
    rewrite (naturalLoop_filter pf); [reflexivity|].
    intros val. exact (translated_character _ _ _ Hp).
  - destruct e as [w| | |]; try reflexivity.
    now rewrite (unsupported_not_conflicting _ _ Hp).
Qed.

(** The two filtering endpoints agree: a natural-language query and a
    request with explicit parameters that ask for the same filters are
    answered with the same records. *)
Theorem natural_agrees_with_explicit (c1 c2 : queryParams) (stringStore : store) :
  ~ invalidParams c1 ->
  stringStore <> ∅ ->
  Query c2 "query" <> ""%string ->
  ParseNaturalLanguageQuery (Query c2 "query") = Ok (requestedFilters c1) ->
  exists data count,
    GetFilteredStringsHandler c1 stringStore
    = Response StatusOK (JFiltered data count (requestedFilters c1))
    /\ NaturalLanguageFilterHandler c2 stringStore
       = NaturalOK data count (Query c2 "query") (requestedFilters c1).
Proof.
  intros Hvalid Hne Hq Hp.
  exists (List.filter (satisfies (requestedFilters c1)) (records stringStore)).
  exists (Z.of_nat (length (List.filter (satisfies (requestedFilters c1))
                                        (records stringStore)))).
  split.
  { unfold GetFilteredStringsHandler. fold (records stringStore).
    now rewrite (filterLoop_records c1 (records stringStore) Hvalid
                   (records_not_empty _ Hne)). }
  unfold NaturalLanguageFilterHandler. apply String.eqb_neq in Hq. rewrite Hq, Hp.
  unfold records.
  rewrite (naturalLoop_filter (requestedFilters c1)); [reflexivity|].
  intros val. exact (translated_character _ _ _ Hp).
Qed.

End NaturalAnswer.

Section FiltersMore.
Context `{UnicodeTables}.
Local Open Scope Z_scope.

Lemma filter_none {A : Type} (f : A -> bool) (l : list A) :
  (forall x, f x = false) -> List.filter f l = [].
Proof.
  intros Hf. induction l as [|x l IH]; cbn [List.filter]; [reflexivity|].
  now rewrite Hf.
Qed.

Lemma filter_all {A : Type} (f : A -> bool) (l : list A) :
  (forall x, f x = true) -> List.filter f l = l.
Proof.
  intros Hf. induction l as [|x l IH]; cbn [List.filter]; [reflexivity|].
  now rewrite Hf, IH.
Qed.

Lemma readFilter_bound (c : queryParams) (key : string) (n : Z) :
  In key ["min_length"; "max_length"; "word_count"]%string ->
  nonNegative (Query c key) = Some n -> readFilter c key = Some (VInt n).
Proof.
  intros Hin Hn. unfold readFilter.
  destruct (String.eqb_spec (Query c key) "") as [E|_].
  { rewrite E in Hn. vm_compute in Hn. discriminate. }
  cbn [In] in Hin. destruct Hin as [<-|[<-|[<-|[]]]]; cbn [String.eqb Ascii.eqb Bool.eqb];
    now rewrite Hn.
Qed.

(** Explicit bounds that cross are no error: whatever the store holds,
    a valid request whose [min_length] exceeds its [max_length] is
    answered [200] with no record. *)
Theorem crossed_explicit_bounds (c : queryParams) (stringStore : store) (minLen maxLen : Z) :
  ~ invalidParams c ->
  nonNegative (Query c "min_length") = Some minLen ->
  nonNegative (Query c "max_length") = Some maxLen ->
  maxLen < minLen ->
  exists filters_applied,
    GetFilteredStringsHandler c stringStore
    = Response StatusOK (JFiltered [] 0 filters_applied).
Proof.
  intros Hvalid Hmin Hmax Hlt.
  destruct (decide (stringStore = ∅)) as [->|Hne].
  { exists ∅. unfold GetFilteredStringsHandler. now rewrite map_to_list_empty. }
  exists (requestedFilters c). unfold GetFilteredStringsHandler.
  fold (records stringStore).
  rewrite (filterLoop_records c (records stringStore) Hvalid (records_not_empty _ Hne)).
  cbn [filters filteredStrings].
  rewrite filter_none; [reflexivity|].
  intros str. unfold satisfies.
  rewrite !requestedFilters_lookup by (cbn; tauto).
  rewrite (readFilter_bound c "min_length" minLen) by (cbn; tauto || exact Hmin).
  rewrite (readFilter_bound c "max_length" maxLen) by (cbn; tauto || exact Hmax).
  destruct (minLen <=? Length (Properties str)) eqn:E1;
    destruct (Length (Properties str) <=? maxLen) eqn:E2;
    rewrite ?andb_false_r, ?andb_false_l; cbn [andb]; try reflexivity; try lia.
  all: repeat match goal with
         | |- context [match ?x with _ => _ end] => destruct x
         end; cbn; rewrite ?andb_false_r; reflexivity.
Qed.

(** [GET /strings] without any of the five filter parameters lists the
    whole store. *)
Theorem no_filters_lists_all (c : queryParams) (stringStore : store) :
  (forall key, In key ["is_palindrome"; "min_length"; "max_length"; "word_count";
                       "contains_character"]%string -> Query c key = ""%string) ->
  GetFilteredStringsHandler c stringStore
  = Response StatusOK (JFiltered (records stringStore) (Z.of_nat (size stringStore)) ∅).
Proof.
  intros Hnone.
  assert (Hread : forall key,
            In key ["is_palindrome"; "min_length"; "max_length"; "word_count";
                    "contains_character"]%string -> readFilter c key = None).
  { intros key Hin. unfold readFilter. now rewrite (Hnone key Hin). }
  assert (Hreq : requestedFilters c = ∅).
  { unfold requestedFilters, withFilters, withFilter.
    now rewrite !Hread by (cbn; tauto). }
  assert (Hvalid : ~ invalidParams c).
  { unfold invalidParams. rewrite !Hnone by (cbn; tauto). tauto. }
  assert (Hsize : length (records stringStore) = size stringStore).
  { unfold records. rewrite length_map. apply length_map_to_list. }
  destruct (decide (stringStore = ∅)) as [->|Hne].
  { unfold GetFilteredStringsHandler, records. now rewrite map_to_list_empty. }
  unfold GetFilteredStringsHandler. fold (records stringStore).
  rewrite (filterLoop_records c (records stringStore) Hvalid (records_not_empty _ Hne)).
  cbn [filters filteredStrings]. rewrite Hreq.
  rewrite filter_all; [now rewrite Hsize|].
  intros str. unfold satisfies. now rewrite !lookup_empty.
Qed.

Lemma getCharacterFrequencyMap_key (s : string) (c : Z) :
  is_Some (getCharacterFrequencyMap s !! c) <-> In c (runes s).
Proof.
  unfold getCharacterFrequencyMap.
  change (fun (freqMap : gmap Z Z) (char : Z) =>
            <[char := default 0 (freqMap !! char) + 1]> freqMap) with countRune.
  rewrite <- elem_of_dom, fold_countRune_dom, dom_empty_L, elem_of_union,
    elem_of_list_to_set, list_elem_of_In.
  split; [intros [Hd|Hd]; [now apply not_elem_of_empty in Hd|exact Hd]|now right].
Qed.

(** The [contains_character] search finds a code point in a stored
    record exactly when the code point occurs in the record's value. *)
Theorem contains_character_occurs (ops : list operation) (k : string) (a : AnalyzedString)
    (charToFind : Z) :
  storeAfter ops !! k = Some a ->
  hasCharacter a charToFind = true <-> In charToFind (runes (Value a)).
Proof.
  intros Hk. rewrite hasCharacter_lookup.
  rewrite (storeAfter_Analyzed ops k a Hk). cbn [analyzeString CharacterFrequencyMap].
  apply getCharacterFrequencyMap_key.
Qed.

End FiltersMore.

(** *** Iteration order *)

Section Order.
Context `{UnicodeTables}.
Local Open Scope Z_scope.

Lemma invalidParams_dec (c : queryParams) : Decision (invalidParams c).
Proof. unfold invalidParams. apply _. Qed.

(** Which [400] a request gets does not depend on the record at which
    the loop finds the bad parameter. *)
Lemma filterRecord_error (c : queryParams) (str str' : AnalyzedString)
    (fs fs' : gmap string value) (r : response) :
  filterRecord c str fs = Err r -> filterRecord c str' fs' = Err r.
Proof.
  unfold filterRecord.
  generalize (Query c "is_palindrome") (Query c "min_length") (Query c "max_length")
    (Query c "word_count") (Query c "contains_character").
  intros p1 p2 p3 p4 p5.
  destruct (String.eqb_spec p1 ""); cbn [negb bind];
    [|destruct (Strconv.ParseBool p1); cbn [bind]; [|exact (fun E => E)]];
  (destruct (String.eqb_spec p2 ""); cbn [negb bind];
    [|destruct (nonNegative p2); cbn [bind]; [|exact (fun E => E)]]);
  (destruct (String.eqb_spec p3 ""); cbn [negb bind];
    [|destruct (nonNegative p3); cbn [bind]; [|exact (fun E => E)]]);
  (destruct (String.eqb_spec p4 ""); cbn [negb bind];
    [|destruct (nonNegative p4); cbn [bind]; [|exact (fun E => E)]]);
  (destruct (String.eqb_spec p5 ""); cbn [negb bind];
    [|destruct (runes p5) as [|ch [|ch' rs]]]);
  first [discriminate | exact (fun E => E)].
Qed.

Lemma filter_Permutation' {A : Type} (f : A -> bool) (l l' : list A) :
  l ≡ₚ l' -> List.filter f l ≡ₚ List.filter f l'.
Proof.
  induction 1 as [|x l l' _ IH|x y l|l l' l'' _ IH1 _ IH2]; cbn [List.filter].
  - constructor.
  - destruct (f x); [now constructor|exact IH].
  - destruct (f x), (f y); try reflexivity. apply Permutation_swap.
  - now transitivity (List.filter f l').
Qed.

(** Go leaves the order of a map iteration open.  Whatever the order in
    which the loop of [GetFilteredStringsHandler] visits the records,
    it ends with the same error, or with the same filters and the same
    records up to their order. *)
Theorem record_order_irrelevant (c : queryParams) (strs strs' : list AnalyzedString) :
  strs ≡ₚ strs' ->
  match filterLoop c strs (FilterState ∅ []), filterLoop c strs' (FilterState ∅ []) with
  | Ok st, Ok st' =>
      filters st = filters st' /\ filteredStrings st ≡ₚ filteredStrings st'
  | Err r, Err r' => r = r'
  | _, _ => False
  end.
Proof.
  intros Hperm.
  destruct strs as [|str strs].
  { apply Permutation_nil in Hperm. subst strs'. cbn. auto. }
  destruct strs' as [|str' strs'].
  { symmetry in Hperm. apply Permutation_nil in Hperm. discriminate. }
  destruct (invalidParams_dec c) as [Hinv|Hvalid].
  - cbn [filterLoop filters].
    destruct (filterRecord_invalid c str ∅ Hinv) as (msg & E).
    rewrite E, (filterRecord_error c str str' ∅ ∅ _ E). reflexivity.
  - rewrite !filterLoop_records by (exact Hvalid || discriminate).
    cbn [filters filteredStrings]. split; [reflexivity|].
    now apply filter_Permutation'.
Qed.

(** The same for [NaturalLanguageFilterHandler], whose inner loop
    iterates over the translated filters: whatever the two orders, the
    loops do not panic and keep the records that satisfy the filters. *)
Theorem natural_order_irrelevant (query : string) (parsedFilters : gmap string value)
    (entries : list (string * value)) (strs : list AnalyzedString) (stringStore : store) :
  ParseNaturalLanguageQuery query = Ok parsedFilters ->
  entries ≡ₚ map_to_list parsedFilters ->
  strs ≡ₚ records stringStore ->
  exists data,
    naturalLoop entries strs [] = Some data
    /\ data ≡ₚ List.filter (satisfies parsedFilters) (records stringStore).
Proof.
  intros Hp Hentries Hstrs.
  assert (Hloop : forall strs acc,
            naturalLoop entries strs acc
            = Some (acc ++ List.filter (satisfies parsedFilters) strs)).
  { clear strs Hstrs. induction strs as [|str strs IH]; intros acc;
      cbn [naturalLoop List.filter].
    - now rewrite app_nil_r.
    - rewrite (applyFilters_satisfies parsedFilters entries str).
      + destruct (satisfies parsedFilters str).
        * rewrite IH. now rewrite <- app_assoc.
        * apply IH.
      + intros k v. rewrite <- elem_of_map_to_list, <- Hentries.
        symmetry. apply list_elem_of_In.
      + intros val. exact (translated_character _ _ _ Hp). }
  eexists. split; [apply Hloop|]. cbn [app]. now apply filter_Permutation'.
Qed.

End Order.

(** ** Instances *)

Lemma helloStore_StoreInv : StoreInv helloStore.
Proof. apply (@StoreInv_insert excerptTables ∅ "hello" 1), StoreInv_empty. Qed.

Lemma helloStore_created :
  @CreateStringHandler excerptTables (JsonValue "hello") 1 ∅
  = (helloStore, Response StatusCreated (JAnalyzed helloRecord)).
Proof.
  unfold CreateStringHandler. cbn [ShouldBindJSON String.eqb Ascii.eqb].
  now rewrite lookup_empty.
Qed.

Lemma sampleStore_not_empty : sampleStore <> ∅.
Proof. apply insert_non_empty. Qed.

Lemma palindromeParams_valid : ~ invalidParams palindromeParams.
Proof. unfold invalidParams. vm_compute. intuition discriminate. Qed.

(** Two creations of "hello": the first checks and inserts, then the
    second checks. *)
Lemma hello_schedule :
  rtc (@step excerptTables)
    (∅, [AtCheck "hello" 1; AtCheck "hello" 2])
    (helloStore,
     [Finished (Response StatusCreated (JAnalyzed helloRecord));
      Finished (Response StatusConflict (JError "String already exists in the system"))]).
Proof.
  eapply rtc_l.
  { apply (@step_at excerptTables ∅ ∅ _ 0 (AtCheck "hello" 1) (AtInsert helloRecord));
      [reflexivity|discriminate|].
    cbn [creationStep]. now rewrite lookup_empty. }
  eapply rtc_l.
  { apply (@step_at excerptTables ∅ helloStore _ 0 (AtInsert helloRecord)
             (Finished (Response StatusCreated (JAnalyzed helloRecord))));
      [reflexivity|discriminate|reflexivity]. }
  eapply rtc_l.
  { apply (@step_at excerptTables helloStore helloStore _ 1 (AtCheck "hello" 2)
             (Finished (Response StatusConflict
                                 (JError "String already exists in the system"))));
      [reflexivity|discriminate|].
    cbn [creationStep]. unfold helloStore. now rewrite lookup_insert_eq. }
  apply rtc_refl.
Qed.

Lemma delete_resolves_like_get_witness :
  DeleteStringHandler "hello" helloStore
  = (delete (ID helloRecord) helloStore, Response StatusNoContent JNone)
  /\ helloStore !! ID helloRecord = Some helloRecord.
Proof.
  destruct (delete_resolves_like_get "hello" helloStore helloStore_StoreInv)
    as (Hfound & _ & _).
  apply Hfound. vm_compute. reflexivity.
Defined.

Lemma create_then_delete_witness :
  DeleteStringHandler (ID helloRecord) helloStore = (∅, Response StatusNoContent JNone).
Proof.
  exact (@create_then_delete excerptTables "hello" 1 ∅ helloStore helloRecord
           helloStore_created).
Defined.

Lemma delete_then_get_witness :
  GetSpecificStringHandler "hello" ∅
  = Response StatusNotFound (JError "String not found in the system")
  /\ DeleteStringHandler "hello" ∅
     = (∅, Response StatusNotFound (JError "String not found in the system")).
Proof.
  apply (proj1 (delete_then_get "hello" helloStore ∅ ltac:(vm_compute; reflexivity))).
  left. vm_compute. reflexivity.
Defined.

Lemma stored_records_analyzed_witness :
  Properties helloRecord = @analyzeString excerptTables "hello"
  /\ SHA256Hash (Properties helloRecord) = ID helloRecord
  /\ Length (Properties helloRecord) = calculateLength "hello".
Proof.
  apply (@stored_records_analyzed excerptTables [OpCreate (JsonValue "hello") 1]
           (generateSHA256Hash "hello") helloRecord).
  vm_compute. reflexivity.
Defined.

Lemma some_creation_wins_witness :
  Exists created
    [Finished (Response StatusCreated (JAnalyzed helloRecord));
     Finished (Response StatusConflict (JError "String already exists in the system"))]
  /\ exists a, helloStore !! generateSHA256Hash "hello" = Some a /\ Value a = "hello"%string.
Proof.
  apply (@some_creation_wins excerptTables "hello" ∅ helloStore
           [AtCheck "hello" 1; AtCheck "hello" 2]).
  - apply lookup_empty.
  - discriminate.
  - repeat constructor; eexists; reflexivity.
  - exact hello_schedule.
  - repeat constructor; eexists; reflexivity.
Defined.

Lemma schedules_keep_invariant_witness :
  StoreInv helloStore
  /\ forall k, is_Some ((∅ : store) !! k) -> is_Some (helloStore !! k).
Proof.
  apply (@schedules_keep_invariant excerptTables ∅ helloStore
           [AtCheck "hello" 1; AtCheck "hello" 2]
           [Finished (Response StatusCreated (JAnalyzed helloRecord));
            Finished (Response StatusConflict
                                (JError "String already exists in the system"))]).
  - exact StoreInv_empty.
  - repeat constructor.
  - exact hello_schedule.
Defined.

Lemma translated_length_bounds_witness :
  @ParseNaturalLanguageQuery excerptTables "Strings longer than 3 and shorter than 10"
  = Ok (<["max_length"%string := VInt 9]> {["min_length"%string := VInt 4]})
  /\ (<["max_length"%string := VInt 9]> {["min_length"%string := VInt 4]} : gmap string value)
     !! "min_length"%string = Some (VInt 4)
  /\ (<["max_length"%string := VInt 9]> {["min_length"%string := VInt 4]} : gmap string value)
     !! "max_length"%string = Some (VInt 9).
Proof.
  assert (Hp : @ParseNaturalLanguageQuery excerptTables
                 "Strings longer than 3 and shorter than 10"
               = Ok (<["max_length"%string := VInt 9]> {["min_length"%string := VInt 4]}))
    by (vm_compute; reflexivity).
  split; [exact Hp|].
  exact (@translated_length_bounds excerptTables _ _ Hp).
Defined.

Lemma explicit_filters_answer_witness :
  let data := List.filter (satisfies (requestedFilters palindromeParams))
                          (records sampleStore) in
  GetFilteredStringsHandler palindromeParams sampleStore
  = Response StatusOK
      (JFiltered data (Z.of_nat (length data)) (requestedFilters palindromeParams)).
Proof.
  exact (explicit_filters_answer palindromeParams sampleStore palindromeParams_valid
           sampleStore_not_empty).
Defined.

Lemma natural_agrees_with_explicit_witness :
  exists data count,
    GetFilteredStringsHandler palindromeParams sampleStore
    = Response StatusOK (JFiltered data count (requestedFilters palindromeParams))
    /\ @NaturalLanguageFilterHandler excerptTables palindromeQuery sampleStore
       = NaturalOK data count (Query palindromeQuery "query")
                   (requestedFilters palindromeParams).
Proof.
  apply (@natural_agrees_with_explicit excerptTables palindromeParams palindromeQuery
           sampleStore palindromeParams_valid sampleStore_not_empty).
  - vm_compute. discriminate.
  - vm_compute. reflexivity.
Defined.

Lemma crossed_explicit_bounds_witness :
  exists filters_applied,
    GetFilteredStringsHandler crossedBounds sampleStore
    = Response StatusOK (JFiltered [] 0 filters_applied).
Proof.
  apply (crossed_explicit_bounds crossedBounds sampleStore 10 5).
  - unfold invalidParams. vm_compute. intuition discriminate.
  - vm_compute. reflexivity.
  - vm_compute. reflexivity.
  - lia.
Defined.

Lemma no_filters_lists_all_witness :
  GetFilteredStringsHandler palindromeQuery sampleStore
  = Response StatusOK (JFiltered (records sampleStore) (Z.of_nat (size sampleStore)) ∅).
Proof.
  apply (no_filters_lists_all palindromeQuery sampleStore).
  intros key Hin. cbn [In] in Hin.
  repeat (destruct Hin as [<-|Hin]; [vm_compute; reflexivity|]). destruct Hin.
Defined.

Lemma contains_character_occurs_witness :
  hasCharacter helloRecord 108 = true <-> In 108%Z (runes "hello").
Proof.
  apply (@contains_character_occurs excerptTables [OpCreate (JsonValue "hello") 1]
           (generateSHA256Hash "hello") helloRecord 108).
  vm_compute. reflexivity.
Defined.

Lemma countWords_runs_witness :
  WordCount (@analyzeString excerptTables "  hello   wide world ") = 3%Z.
Proof.
  apply (@countWords_runs excerptTables "  hello   wide world ").
  unfold plainSpaces.
  replace (runes "  hello   wide world ")
    with [32; 32; 104; 101; 108; 108; 111; 32; 32; 32; 119; 105; 100; 101; 32;
          119; 111; 114; 108; 100; 32]%Z by (vm_compute; reflexivity).
  repeat (apply Forall_cons; split;
          [let Hs := fresh in intros Hs; first [discriminate Hs|do 4 right; reflexivity]|]).
  apply Forall_nil. exact I.
Defined.

Lemma record_order_irrelevant_witness :
  match filterLoop palindromeParams [helloRecord; madamRecord] (FilterState ∅ []),
        filterLoop palindromeParams [madamRecord; helloRecord] (FilterState ∅ []) with
  | Ok st, Ok st' =>
      filters st = filters st' /\ filteredStrings st ≡ₚ filteredStrings st'
  | Err r, Err r' => r = r'
  | _, _ => False
  end.
Proof.
  apply (record_order_irrelevant palindromeParams [helloRecord; madamRecord]
           [madamRecord; helloRecord]).
  apply Permutation_swap.
Defined.

Lemma natural_order_irrelevant_witness :
  exists data,
    naturalLoop (rev (map_to_list (requestedFilters palindromeParams)))
                (rev (records sampleStore)) []
    = Some data
    /\ data ≡ₚ List.filter (satisfies (requestedFilters palindromeParams))
                           (records sampleStore).
Proof.
  apply (@natural_order_irrelevant excerptTables "all single word palindromic strings").
  - vm_compute. reflexivity.
  - symmetry. apply Permutation_rev.
  - symmetry. apply Permutation_rev.
Defined.

Lemma translated_other_filters_witness :
  @ParseNaturalLanguageQuery excerptTables "Two word palindromes that contains the letter Z"
  = Ok (<["contains_character"%string := VString "z"]>
          (<["word_count"%string := VInt 2]> {["is_palindrome"%string := VBool true]}))
  /\ (<["contains_character"%string := VString "z"]>
        (<["word_count"%string := VInt 2]> {["is_palindrome"%string := VBool true]})
      : gmap string value) !! "word_count"%string = Some (VInt 2).
Proof.
  assert (Hp : @ParseNaturalLanguageQuery excerptTables
                 "Two word palindromes that contains the letter Z"
               = Ok (<["contains_character"%string := VString "z"]>
                       (<["word_count"%string := VInt 2]>
                          {["is_palindrome"%string := VBool true]})))
    by (vm_compute; reflexivity).
  split; [exact Hp|].
  exact (proj1 (proj2 (@translated_other_filters excerptTables _ _ Hp))).
Defined.

(** A creation of "hello" and a deletion of "hello" on the empty store:
    the creation takes its read lock, the deletion calls [mu.Lock()] and
    waits, the creation finds the value free and releases its read
    lock. *)
Lemma create_and_delete_run :
  nsteps (@lockedStep excerptTables) 3
    (unlocked, ∅, Called <$> [RqCreate (JsonValue "hello") 1; RqDelete "hello"])
    ({| readerCount := 0; writer := WriterWaiting |}, ∅,
     [Computing helloRecord; Locking (DropRecord "hello")]).
Proof.
  eapply nsteps_l.
  { exact (@locked_at excerptTables unlocked {| readerCount := 1; writer := NoWriter |}
             ∅ ∅ [Called (RqCreate (JsonValue "hello") 1); Called (RqDelete "hello")]
             0 _ (Reading (RCheck "hello" 1)) eq_refl eq_refl). }
  eapply nsteps_l.
  { exact (@locked_at excerptTables {| readerCount := 1; writer := NoWriter |}
             {| readerCount := 1; writer := WriterWaiting |}
             ∅ ∅ [Reading (RCheck "hello" 1); Called (RqDelete "hello")]
             1 _ (Locking (DropRecord "hello")) eq_refl eq_refl). }
  eapply nsteps_l; [|apply nsteps_O].
  exact (@locked_at excerptTables {| readerCount := 1; writer := WriterWaiting |}
           {| readerCount := 0; writer := WriterWaiting |}
           ∅ ∅ [Reading (RCheck "hello" 1); Locking (DropRecord "hello")]
           0 _ (Computing helloRecord) eq_refl
           ltac:(cbn [lockStep readSection]; now rewrite lookup_empty)).
Qed.

Lemma handlers_never_deadlock_witness :
  let mu := {| readerCount := 0; writer := WriterWaiting |} in
  let gs := [Computing helloRecord; Locking (DropRecord "hello")] in
  lockInv mu gs
  /\ ((exists st', @lockedStep excerptTables (mu, ∅, gs) st')
      <-> exists g, In g gs /\ hasReturned g = false)
  /\ (3 <= 5 * 2)%nat
  /\ length gs = 2%nat
  /\ ((forall g, In g gs -> hasReturned g = true) -> mu = unlocked).
Proof.
  exact (@handlers_never_deadlock excerptTables
           [RqCreate (JsonValue "hello") 1; RqDelete "hello"] ∅ ∅ _ _ 3
           create_and_delete_run).
Defined.
